(** * KWDB playground: the end-to-end test harness

    A shallow embedding of [tests/e2e/utils/websocket_client.py] (the streaming
    session client), of [tests/e2e/utils/api_client.py] (the control client and
    its readiness poll) and of the thread fan-out of
    [tests/e2e/test_port_conflict.py], with the properties the specification
    states about them.

    Time is a natural number of milliseconds.  Computation on the calling
    thread takes no time; time passes only inside a blocking call
    ([Queue.get], [Event.wait], [Thread.join], [time.sleep], an HTTP round
    trip, the closing handshake of the WebSocket library).  The remote side
    is a script fixed in advance: what the receive thread will be handed,
    and after which delay. *)

From Stdlib Require Import List String Ascii Bool NArith ZArith Lia Permutation.
Import ListNotations.
Set Warnings "-register-all".

(* ================================================================== *)
(** * Python values, exceptions and the runtime the harness calls into *)
(* ================================================================== *)

Module Py.

(** What [json.loads] returns.  A float is kept as mantissa and decimal
    exponent; only whether it is zero matters to the harness. *)
Inductive json : Type :=
| JNull
| JBool (b : bool)
| JInt (z : Z)
| JFloat (m e : Z)
| JStr (s : string)
| JList (l : list json)
| JDict (kv : list (string * json)).

(** The exceptions that occur in the modelled code: [raise Exception(msg)],
    the [AttributeError] of a method call on a value without that method, the
    library's closed-socket error, [queue.Empty], the errors of [requests],
    and what [json.loads] raises on a text it cannot take. *)
Inductive exn : Type :=
| PyException (msg : string)
| AttributeError (attr : string)
| WebSocketConnectionClosedException
| Empty
| ConnectionError
| HTTPError (status : Z)
| JSONDecodeError
| RecursionError
| ValueError (msg : string).

Inductive result (A : Type) : Type :=
| Ok (a : A)
| Raise (e : exn).
Arguments Ok {A} a.
Arguments Raise {A} e.

(** [d[key]] lookup in a dict's items. *)
Fixpoint dict_lookup (key : string) (kv : list (string * json)) : option json :=
  match kv with
  | [] => None
  | (k, v) :: rest => if String.eqb k key then Some v else dict_lookup key rest
  end.

(** [value.get(key, default)]: defined on dicts only. *)
Definition get (value : json) (key : string) (default : json) : result json :=
  match value with
  | JDict kv =>
      Ok (match dict_lookup key kv with Some v => v | None => default end)
  | _ => Raise (AttributeError "get")
  end.

(** Truth value of a Python object, as [if value:] tests it. *)
Definition truthy (value : json) : bool :=
  match value with
  | JNull => false
  | JBool b => b
  | JInt z => negb (z =? 0)%Z
  | JFloat m _ => negb (m =? 0)%Z
  | JStr s => negb (String.eqb s EmptyString)
  | JList l => match l with [] => false | _ => true end
  | JDict kv => match kv with [] => false | _ => true end
  end.

(** [value == s] for a string literal [s]. *)
Definition eq_str (value : json) (s : string) : bool :=
  match value with
  | JStr t => String.eqb t s
  | _ => false
  end.

(** [needle in hay] on strings. *)
Fixpoint contains (needle hay : string) : bool :=
  String.prefix needle hay
  || match hay with
     | EmptyString => false
     | String _ hay' => contains needle hay'
     end.

(** [if expected_output and ...]: an omitted ([None]) or empty expectation
    is false. *)
Definition given (expected : option string) : option string :=
  match expected with
  | Some EmptyString => None
  | other => other
  end.

(** The parts of the Python runtime the harness calls and does not define:
    the JSON codec, [repr], and [str] of an exception.  [json.loads] has
    three outcomes.  [json_fault text] is the exception it raises on [text]
    when that is not a [json.JSONDecodeError]: a [RecursionError] on a text
    nested too deep, a [ValueError] on an integer of too many digits.  Where
    there is none, [json_loads text] is the value, or [None] where Python
    raises [json.JSONDecodeError]. *)
Class Runtime : Type := {
  json_fault : string -> option exn;
  json_loads : string -> option json;
  json_dumps : json -> string;
  py_repr : json -> string;
  exn_str : exn -> string
}.

(** [str(value)]. *)
Definition str `{Runtime} (value : json) : string :=
  match value with
  | JStr s => s
  | _ => py_repr value
  end.

Definition LF : string := String "010"%char EmptyString.

(** One second of the clock, which counts milliseconds. *)
Definition second : N := 1000.

(** Whole seconds left until a deadline of [timeout] seconds, rounded up,
    when [elapsed] milliseconds have passed. *)
Definition steps_left (elapsed : N) (timeout : Z) : nat :=
  Z.to_nat ((timeout * Z.of_N second - Z.of_N elapsed + 999) / 1000).

End Py.

(* ================================================================== *)
(** * A runtime to run the examples with *)
(* ================================================================== *)

Module Sample.
Import Py.

(** A concrete runtime for the examples.

    A codec over the few texts the examples use: a handful of JSON objects,
    and text that is no JSON at all, which [json.loads] rejects. *)

Definition quoted (s : string) : string :=
  (String "034"%char s ++ String "034"%char EmptyString)%string.

(** The text [{"type": "connected"}]. *)
Definition ack_text : string :=
  ("{" ++ quoted "type" ++ ": " ++ quoted "connected" ++ "}")%string.

(** The text [{}]. *)
Definition empty_dict_text : string := "{}"%string.

(** The texts [{"status": "running"}] and [{"status": "starting"}]. *)
Definition running_text : string :=
  ("{" ++ quoted "status" ++ ": " ++ quoted "running" ++ "}")%string.
Definition starting_text : string :=
  ("{" ++ quoted "status" ++ ": " ++ quoted "starting" ++ "}")%string.

Definition sample_table : list (string * json) :=
  [(ack_text, JDict [("type"%string, JStr "connected")]);
   (empty_dict_text, JDict []);
   (running_text, JDict [("status"%string, JStr "running")]);
   (starting_text, JDict [("status"%string, JStr "starting")])].

(** [json.loads] on the texts of [sample_table]; any other text the
    examples use is no JSON. *)
Definition sample_loads (text : string) : option json :=
  dict_lookup text sample_table.

(** String escapes of [json.dumps], for printable ASCII and the newline. *)
Fixpoint escaped (s : string) : string :=
  match s with
  | EmptyString => EmptyString
  | String ch rest =>
      if Ascii.eqb ch "034"%char then String "092"%char (String "034"%char (escaped rest))
      else if Ascii.eqb ch "092"%char then String "092"%char (String "092"%char (escaped rest))
      else if Ascii.eqb ch "010"%char then String "092"%char (String "n"%char (escaped rest))
      else String ch (escaped rest)
  end.

(** [json.dumps] on the two-key dicts of strings that [send_command]
    builds. *)
Definition sample_dumps (value : json) : string :=
  match value with
  | JDict [(k1, JStr v1); (k2, JStr v2)] =>
      ("{" ++ quoted (escaped k1) ++ ": " ++ quoted (escaped v1) ++ ", "
           ++ quoted (escaped k2) ++ ": " ++ quoted (escaped v2) ++ "}")%string
  | _ => EmptyString
  end.

(** [str(e)]: the message of an [Exception(msg)]; the other exceptions do
    not reach a [str] in the examples. *)
Definition sample_exn_str (e : exn) : string :=
  match e with
  | PyException msg => msg
  | _ => EmptyString
  end.

(** A text nested deeper than any recursion limit: 100000 opening
    brackets. *)
Definition nested_text : string :=
  N.iter 100000 (String "["%char) EmptyString.

(** [json.loads] raises [RecursionError] on [nested_text]; no other text of
    the examples makes it raise anything but [JSONDecodeError]. *)
Definition sample_fault (text : string) : option exn :=
  if String.eqb text nested_text then Some RecursionError else None.

#[local] Instance sample_runtime : Runtime := {
  json_fault := sample_fault;
  json_loads := sample_loads;
  json_dumps := sample_dumps;
  py_repr := fun _ => EmptyString;
  exn_str := sample_exn_str
}.

End Sample.

(* ================================================================== *)
(** * The streaming session client: websocket_client.py *)
(* ================================================================== *)

Module Session.
Import Py.

(** The [websocket.WebSocketApp] object held in [self.ws]: its target, the
    library's [keep_running] flag, whether its socket is open, and the frames
    written to the socket so far. *)
Record WebSocketApp : Type := mkApp {
  url : string;
  keep_running : bool;
  sock_open : bool;
  sent : list string
}.

(** The fields of a [WebSocketClient].  [messages] is the [Queue], oldest
    first; [connected] is the [threading.Event]; [ws_thread] tells whether a
    thread handle is stored (whether that thread is alive is a fact of the
    world, not of the handle). *)
Record WebSocketClient : Type := mkClient {
  base_url : string;
  ws : option WebSocketApp;
  messages : list json;
  connected : bool;
  error : option exn;
  ws_thread : bool
}.

Definition set_ws (a : option WebSocketApp) (c : WebSocketClient) :=
  mkClient (base_url c) a (messages c) (connected c) (error c) (ws_thread c).
Definition set_messages (q : list json) (c : WebSocketClient) :=
  mkClient (base_url c) (ws c) q (connected c) (error c) (ws_thread c).
Definition set_connected (b : bool) (c : WebSocketClient) :=
  mkClient (base_url c) (ws c) (messages c) b (error c) (ws_thread c).
Definition set_error (e : option exn) (c : WebSocketClient) :=
  mkClient (base_url c) (ws c) (messages c) (connected c) e (ws_thread c).
Definition set_ws_thread (b : bool) (c : WebSocketClient) :=
  mkClient (base_url c) (ws c) (messages c) (connected c) (error c) b.

(** [__init__], after the scheme of [base_url] was rewritten to ws. *)
Definition init (base_url : string) : WebSocketClient :=
  mkClient base_url None [] false None false.

(** [self.messages.put(item)]. *)
Definition put (item : json) (c : WebSocketClient) : WebSocketClient :=
  set_messages (messages c ++ [item]) c.

(** What the remote side and the library hand to the receive thread. *)
Inductive Event : Type :=
| Opened
| Frame (text : string)
| Error (e : exn)
| Close (status : option Z) (msg : option string).

Definition is_close (ev : Event) : bool :=
  match ev with Close _ _ => true | _ => false end.

(** The world outside the client object: the clock, whether the receive
    thread is running, the script of the events it will be handed (each with
    the delay since the one before), and how long the library takes to tear
    the connection down once [WebSocketApp.close] is called. *)
Record World : Type := mkWorld {
  now : N;
  thread_alive : bool;
  pending : list (N * Event);
  close_latency : N
}.

Section Client.
Context `{Runtime}.

(** ** The four callbacks of [connect] *)

Definition raw_message (message : string) : json :=
  JDict [("type"%string, JStr "raw"); ("data"%string, JStr message)].

(** The [try] catches [json.JSONDecodeError] only: any other exception of
    [json.loads] leaves the callback before anything is put. *)
Definition on_message (c : WebSocketClient) (message : string)
  : result unit * WebSocketClient :=
  match json_fault message with
  | Some e => (Raise e, c)
  | None =>
      match json_loads message with
      | Some data =>
          let c1 := put data c in
          match get data "type" JNull with
          | Ok t =>
              if eq_str t "connected" then (Ok tt, set_connected true c1)
              else (Ok tt, c1)
          | Raise e => (Raise e, c1)
          end
      | None => (Ok tt, put (raw_message message) c)
      end
  end.

Definition on_error (c : WebSocketClient) (e : exn) : WebSocketClient :=
  set_error (Some e) c.

Definition on_close (c : WebSocketClient) (status : option Z)
  (msg : option string) : WebSocketClient :=
  set_connected false c.

Definition on_open (c : WebSocketClient) : WebSocketClient := c.

(** ** The library's receive thread ([WebSocketApp.run_forever]) *)

Definition set_sock (b : bool) (c : WebSocketClient) : WebSocketClient :=
  match ws c with
  | Some app =>
      set_ws (Some (mkApp (url app) (keep_running app) b (sent app))) c
  | None => c
  end.

(** One event handed to the callbacks.  An exception that escapes a callback
    is caught by the library and passed to [on_error]. *)
Definition dispatch (ev : Event) (c : WebSocketClient) : WebSocketClient :=
  match ev with
  | Opened => on_open (set_sock true c)
  | Frame text =>
      match on_message c text with
      | (Ok _, c1) => c1
      | (Raise e, c1) => on_error c1 e
      end
  | Error e => on_error c e
  | Close status msg => on_close (set_sock false c) status msg
  end.

(** The caller blocks for at most [budget] milliseconds, until [ready] holds
    of the client and of the thread's liveness; meanwhile the receive thread,
    if alive, is handed the events that fall due.  A [Close] event ends the
    thread. *)
Fixpoint run_thread (ready : WebSocketClient -> bool -> bool) (budget : N)
  (c : WebSocketClient) (t : N) (alive : bool) (lat : N)
  (script : list (N * Event)) : WebSocketClient * World :=
  if ready c alive then (c, mkWorld t alive script lat)
  else
    match script with
    | (gap, ev) :: rest =>
        if alive && (gap <=? budget)%N then
          run_thread ready (budget - gap) (dispatch ev c) (t + gap)
            (negb (is_close ev)) lat rest
        else
          (c, mkWorld (t + budget) alive
                (if alive then (gap - budget, ev)%N :: rest else script) lat)
    | [] => (c, mkWorld (t + budget) alive [] lat)
    end.

Definition block (ready : WebSocketClient -> bool -> bool) (seconds : N)
  (c : WebSocketClient) (w : World) : WebSocketClient * World :=
  run_thread ready (second * seconds) c (now w) (thread_alive w)
    (close_latency w) (pending w).

Definition nonempty (c : WebSocketClient) (_ : bool) : bool :=
  match messages c with [] => false | _ => true end.

(** [self.messages.get(timeout=timeout)]. *)
Definition queue_get (timeout : N) (c : WebSocketClient) (w : World)
  : result json * WebSocketClient * World :=
  let '(c1, w1) := block nonempty timeout c w in
  match messages c1 with
  | m :: q => (Ok m, set_messages q c1, w1)
  | [] => (Raise Empty, c1, w1)
  end.

(** Between the moment a waiting caller is notified and the moment it runs
    again the receive thread runs on: it handles the events that are due at
    that very instant, those with a gap of 0, before the caller sees the
    session. *)
Fixpoint run_on (c : WebSocketClient) (t : N) (alive : bool) (lat : N)
  (script : list (N * Event)) : WebSocketClient * World :=
  match script with
  | (gap, ev) :: rest =>
      if alive && (gap =? 0)%N then
        run_on (dispatch ev c) t (negb (is_close ev)) lat rest
      else (c, mkWorld t alive script lat)
  | [] => (c, mkWorld t alive [] lat)
  end.

(** [self.connected.wait(timeout=timeout)]: [True] once the flag is or has
    been set within the timeout, whatever the flag is by the time the caller
    runs again; [False] when the time is up. *)
Definition event_wait (timeout : N) (c : WebSocketClient) (w : World)
  : bool * WebSocketClient * World :=
  let '(c1, w1) := block (fun c _ => connected c) timeout c w in
  if connected c1 then
    let '(c2, w2) :=
      run_on c1 (now w1) (thread_alive w1) (close_latency w1) (pending w1) in
    (true, c2, w2)
  else (false, c1, w1).

(** [self.ws_thread.join(timeout=timeout)]. *)
Definition thread_join (timeout : N) (c : WebSocketClient) (w : World)
  : WebSocketClient * World :=
  block (fun _ alive => negb alive) timeout c w.

(** ** The library's [WebSocketApp.send] *)

Definition app_send (app : WebSocketApp) (data : string)
  : result WebSocketApp :=
  if sock_open app then
    Ok (mkApp (url app) (keep_running app) true (sent app ++ [data]))
  else Raise WebSocketConnectionClosedException.

(** The transport object once [WebSocketApp.close] is through with it:
    [keep_running] off, the socket gone. *)
Definition shut_down (app : WebSocketApp) : WebSocketApp :=
  mkApp (url app) false false (sent app).

(** The first [close] of a running connection makes the receive thread tear
    down: nothing more arrives, and after [close_latency] the thread calls
    [on_close] and ends. *)
Definition tear_down (app : WebSocketApp) (w : World) : World :=
  if keep_running app && thread_alive w then
    mkWorld (now w) true [(close_latency w, Close None None)] (close_latency w)
  else w.

(** ** The methods of [WebSocketClient] *)

Definition connect (c : WebSocketClient) (w : World) (container_id : string)
  : result bool * WebSocketClient * World :=
  let ws_url := (base_url c ++ "/terminal?container_id=" ++ container_id)%string in
  let c1 := set_ws (Some (mkApp ws_url true false [])) c in
  let c2 := set_ws_thread true c1 in
  let w2 := mkWorld (now w) true (pending w) (close_latency w) in
  let '(signalled, c3, w3) := event_wait 10 c2 w2 in
  if signalled then (Ok true, c3, w3)
  else (Raise (PyException "WebSocket连接超时"), c3, w3).

Definition send_command (c : WebSocketClient) (command : string)
  : result bool * WebSocketClient :=
  match ws c with
  | None => (Raise (PyException "WebSocket未连接"), c)
  | Some app =>
      let message :=
        JDict [("type"%string, JStr "input");
               ("data"%string, JStr (command ++ LF))] in
      match app_send app (json_dumps message) with
      | Ok app1 => (Ok true, set_ws (Some app1) c)
      | Raise e => (Ok false, c)
      end
  end.

(** [get_output]: the queue's [Empty] becomes [None]. *)
Definition get_output (timeout : N) (c : WebSocketClient) (w : World)
  : json * WebSocketClient * World :=
  match queue_get timeout c w with
  | (Ok m, c1, w1) => (m, c1, w1)
  | (Raise _, c1, w1) => (JNull, c1, w1)
  end.

Definition is_connected (c : WebSocketClient) : bool := connected c.

(** The dict [execute_command_and_wait] returns. *)
Record Execution : Type := mkExecution {
  command : string;
  outputs : list json;
  success : bool
}.

(** [while not self.messages.empty(): self.messages.get_nowait()]. *)
Fixpoint drained (q : list json) : list json :=
  match q with
  | [] => []
  | _ :: rest => drained rest
  end.

Definition drain (c : WebSocketClient) : WebSocketClient :=
  set_messages (drained (messages c)) c.

(** The wait loop of [execute_command_and_wait].  [timeout] is in seconds,
    as the caller passes it.  [None]: the fuel ran out. *)
Fixpoint wait_loop (fuel : nat) (expected_output : option string)
  (start_time : N) (timeout : Z) (outputs : list json)
  (c : WebSocketClient) (w : World)
  : option (result (list json) * WebSocketClient * World) :=
  match fuel with
  | O => None
  | S fuel' =>
      if (Z.of_N (now w - start_time) <? timeout * Z.of_N second)%Z then
        let '(message, c1, w1) := get_output 1 c w in
        if truthy message then
          let outputs1 := outputs ++ [message] in
          match given expected_output with
          | Some expected =>
              match get message "data" (JStr EmptyString) with
              | Ok data =>
                  if contains expected (str data)
                  then Some (Ok outputs1, c1, w1)
                  else wait_loop fuel' expected_output start_time timeout
                         outputs1 c1 w1
              | Raise e => Some (Raise e, c1, w1)
              end
          | None =>
              wait_loop fuel' expected_output start_time timeout outputs1 c1 w1
          end
        else wait_loop fuel' expected_output start_time timeout outputs c1 w1
      else Some (Ok outputs, c, w)
  end.

(** Iterations the wait loop can make at most, plus the one that sees the
    deadline passed: each iteration takes a message off the queue, or has the
    thread consume an event, or lets a full second pass. *)
Definition wait_fuel (c : WebSocketClient) (w : World) (timeout : Z) : nat :=
  S (List.length (messages c) + List.length (pending w) + Z.to_nat timeout).

Definition execute_command_and_wait (c : WebSocketClient) (w : World)
  (command : string) (expected_output : option string) (timeout : Z)
  : option (result Execution * WebSocketClient * World) :=
  let c0 := drain c in
  match send_command c0 command with
  | (Raise e, c1) => Some (Raise e, c1, w)
  | (Ok false, c1) =>
      Some (Raise (PyException ("发送命令失败: " ++ command)%string), c1, w)
  | (Ok true, c1) =>
      let start_time := now w in
      match wait_loop (wait_fuel c1 w timeout) expected_output start_time
              timeout [] c1 w with
      | Some (Ok outputs, c2, w2) =>
          Some (Ok (mkExecution command outputs (0 <? List.length outputs)%nat),
                c2, w2)
      | Some (Raise e, c2, w2) => Some (Raise e, c2, w2)
      | None => None
      end
  end.

(** [WebSocketApp.close], as the thread that calls it lives it.  The flags are cleared and
    the receive thread begins to tear down; if the socket is connected the
    library then runs the closing handshake in the caller's own thread: it
    writes the close frame and reads until the peer's close frame comes, for
    up to three seconds of reading, and to read it first waits, without a
    limit, for the lock the receive thread reads under.  [handshake] is how
    long that keeps the caller, [None] if it never lets go; meanwhile the
    receive thread runs. *)
Definition app_close (handshake : option N) (app : WebSocketApp)
  (c : WebSocketClient) (w : World) : option (WebSocketClient * World) :=
  let c1 := set_ws (Some (shut_down app)) c in
  let w1 := tear_down app w in
  if sock_open app then
    match handshake with
    | Some delay =>
        Some (run_thread (fun _ _ => false) delay c1 (now w1) (thread_alive w1)
                (close_latency w1) (pending w1))
    | None => None
    end
  else Some (c1, w1).

(** [if self.ws_thread and self.ws_thread.is_alive():
    self.ws_thread.join(timeout=5)]. *)
Definition join_thread (c : WebSocketClient) (w : World)
  : WebSocketClient * World :=
  if ws_thread c && thread_alive w then thread_join 5 c w else (c, w).

(** [close].  [None]: the call does not return. *)
Definition close (handshake : option N) (c : WebSocketClient) (w : World)
  : option (result unit * WebSocketClient * World) :=
  match ws c with
  | Some app =>
      match app_close handshake app c w with
      | Some (c1, w1) =>
          let '(c2, w2) := join_thread c1 w1 in Some (Ok tt, c2, w2)
      | None => None
      end
  | None =>
      let '(c2, w2) := join_thread c w in Some (Ok tt, c2, w2)
  end.

(** ** Vocabulary of the properties *)

(** The Message a frame becomes in the queue. *)
Definition decode (text : string) : json :=
  match json_loads text with
  | Some data => data
  | None => raw_message text
  end.

(** The frame an event hands over, if it is one that becomes a Message: a
    frame on which [json.loads] raises anything but [JSONDecodeError] does
    not. *)
Definition frame_of (ev : Event) : list string :=
  match ev with
  | Frame text =>
      match json_fault text with
      | Some _ => []
      | None => [text]
      end
  | _ => []
  end.

(** The frames of a script, in the order they arrive. *)
Definition frames (script : list (N * Event)) : list string :=
  flat_map (fun ge => frame_of (snd ge)) script.

(** Every frame a script hands over, in the order they arrive, whatever
    [json.loads] makes of it. *)
Definition texts (script : list (N * Event)) : list string :=
  flat_map (fun ge => match snd ge with Frame text => [text] | _ => [] end)
    script.

(** What a frame should leave in the queue, written out: nothing when
    [json.loads] raises anything but [JSONDecodeError], else the decoded
    value, else the dict that wraps the text as raw. *)
Definition queued_for (text : string) : list json :=
  match json_fault text with
  | Some _ => []
  | None =>
      match json_loads text with
      | Some data => [data]
      | None => [JDict [("type"%string, JStr "raw"); ("data"%string, JStr text)]]
      end
  end.

(** Everything the session has received or is scripted to receive, in
    order: the queue, then the Messages of the frames still to come. *)
Definition inbound (c : WebSocketClient) (w : World) : list json :=
  messages c ++ map decode (frames (pending w)).

(** The frames the running receive thread is handed strictly less than
    [limit] milliseconds from now; a [Close] ends the thread, and nothing
    scripted after it arrives. *)
Fixpoint arrivals (limit : N) (script : list (N * Event)) : list string :=
  match script with
  | [] => []
  | (gap, ev) :: rest =>
      if (gap <? limit)%N then
        frame_of ev ++ (if is_close ev then [] else arrivals (limit - gap) rest)
      else []
  end.

(** [data.get("type") == "connected"], false where [get] raises. *)
Definition is_ack (message : json) : bool :=
  match get message "type" JNull with
  | Ok t => eq_str t "connected"
  | Raise _ => false
  end.

(** An acknowledgement reaches a wait of [limit] milliseconds: the flag is
    set already, or a frame the running receive thread is handed within
    the limit is an acknowledgement. *)
Definition acknowledged (limit : N) (c : WebSocketClient) (w : World) : Prop :=
  connected c = true \/
  exists text,
    In text (arrivals (limit + 1) (pending w)) /\ is_ack (decode text) = true.

(** [expected in str(message.get("data", ""))], false where [get] raises. *)
Definition matches (expected : string) (message : json) : bool :=
  match get message "data" (JStr EmptyString) with
  | Ok data => contains expected (str data)
  | Raise _ => false
  end.

(** How a wait that began at [start] can end normally with the Messages
    [new] collected: on a Message that matches, or with the deadline
    passed. *)
Definition stopped (expected : option string) (start : N) (timeout : Z)
  (new : list json) (w1 : World) : Prop :=
  (exists e, given expected = Some e /\
             matches e (last new JNull) = true /\ new <> [])
  \/ (timeout * Z.of_N second <= Z.of_N (now w1 - start))%Z.

(** The frame [send_command] writes for [command]. *)
Definition input_frame (command : string) : string :=
  json_dumps (JDict [("type"%string, JStr "input");
                     ("data"%string, JStr (command ++ LF))]).

(** The session is closed: the flag is cleared, the receive thread has
    ended and the socket is shut. *)
Definition closed (c : WebSocketClient) (w : World) : Prop :=
  is_connected c = false /\ thread_alive w = false /\
  forall app, ws c = Some app -> sock_open app = false.

(** The transport is shut down for good: [keep_running] is off and the
    socket is closed. *)
Definition shut (c : WebSocketClient) : Prop :=
  forall app, ws c = Some app -> keep_running app = false /\ sock_open app = false.

(** The receive thread clears the flag before it ends. *)
Definition session_inv (c : WebSocketClient) (w : World) : Prop :=
  thread_alive w = false -> connected c = false.

End Client.

(** ** Sessions for the examples *)

#[local] Existing Instance Sample.sample_runtime.

(** A remote that opens the connection after 50 ms and acknowledges it
    50 ms later; the library needs [latency] ms to tear a connection down. *)
Definition accepting (latency : N) : World :=
  mkWorld 0 false [(50, Opened); (50, Frame Sample.ack_text)]%N latency.

(** A remote that refuses the resource id: the handshake fails after
    100 ms and the library closes. *)
Definition refusing : World :=
  mkWorld 0 false
    [(100, Error (PyException "Handshake status 404 Not Found"));
     (0, Close None None)]%N 0.

(** A remote that never answers. *)
Definition silent : World := mkWorld 0 false [] 0.

(** A remote that opens the connection, acknowledges it and closes it in
    the same instant. *)
Definition acknowledging_then_closing : World :=
  mkWorld 0 false
    [(50, Opened); (50, Frame Sample.ack_text); (0, Close (Some 1000%Z) None)]%N
    0.

Definition fresh : WebSocketClient := init "ws://localhost:3006/ws".

(** The session [connect] returns against [accepting]. *)
Definition connected_client : WebSocketClient :=
  snd (fst (connect fresh (accepting 0) "sql")).

(** The world 100 ms after the handshake, with [script] still to come. *)
Definition after_connect (script : list (N * Event)) (latency : N) : World :=
  mkWorld 100 true script latency.

(** The session after the remote closed the connection: the receive thread
    ran [on_close]. *)
Definition closed_by_remote : WebSocketClient :=
  dispatch (Close (Some 1006%Z) None) connected_client.

Definition closed_app : WebSocketApp :=
  mkApp "ws://localhost:3006/ws/terminal?container_id=sql" true false [].

(** The world of a session whose remote sends the one frame [text] 100 ms
    after the call begins. *)
Definition answering (text : string) : World :=
  after_connect [(100%N, Frame text)] 0.


End Session.

(* ================================================================== *)
(** * The control client: api_client.py *)
(* ================================================================== *)

Module Control.
Import Py.

(** A [requests.Response]: the status code and the body text. *)
Record Response : Type := mkResponse {
  status_code : Z;
  text : string
}.

(** The remote control API: for a GET of [url] issued at time [t], how long
    the round trip takes and what it gives ([Raise] for a transport error). *)
Definition Server : Type := string -> N -> N * result Response.

Record APIClient : Type := mkAPI { base_url : string }.

(** [s.rstrip('/')]. *)
Fixpoint rstrip_slash (s : string) : string :=
  match s with
  | EmptyString => EmptyString
  | String ch rest =>
      match rstrip_slash rest with
      | EmptyString => if Ascii.eqb ch "/"%char then EmptyString
                       else String ch EmptyString
      | kept => String ch kept
      end
  end.

Definition init (base_url : string) : APIClient :=
  mkAPI (rstrip_slash base_url).

Section Client.
Context `{Runtime}.

(** [response.raise_for_status()]. *)
Definition raise_for_status (response : Response) : result unit :=
  if ((400 <=? status_code response) && (status_code response <? 600))%Z
  then Raise (HTTPError (status_code response))
  else Ok tt.

(** [response.json()]. *)
Definition response_json (response : Response) : result json :=
  match json_fault (text response) with
  | Some e => Raise e
  | None =>
      match json_loads (text response) with
      | Some value => Ok value
      | None => Raise JSONDecodeError
      end
  end.

(** [get_container_status], issued at time [t]: the result and the time at
    which the call is over. *)
Definition get_container_status (api : APIClient) (server : Server)
  (container_id : string) (t : N) : result json * N :=
  let '(latency, answer) :=
    server (base_url api ++ "/api/containers/" ++ container_id ++ "/status")%string t in
  let t1 := (t + latency)%N in
  match answer with
  | Raise e => (Raise e, t1)
  | Ok response =>
      match raise_for_status response with
      | Raise e => (Raise e, t1)
      | Ok _ => (response_json response, t1)
      end
  end.

(** The body of the [try] in [wait_for_container_ready]: is the container
    reported running? *)
Definition poll (api : APIClient) (server : Server) (container_id : string)
  (t : N) : result bool * N :=
  match get_container_status api server container_id t with
  | (Ok status, t1) =>
      match get status "status" JNull with
      | Ok value => (Ok (eq_str value "running"), t1)
      | Raise e => (Raise e, t1)
      end
  | (Raise e, t1) => (Raise e, t1)
  end.

(** The loop of [wait_for_container_ready], at time [t].  [None]: the fuel
    ran out. *)
Fixpoint ready_loop (fuel : nat) (api : APIClient) (server : Server)
  (container_id : string) (start_time : N) (timeout : Z) (t : N)
  : option (result bool * N) :=
  match fuel with
  | O => None
  | S fuel' =>
      if (Z.of_N (t - start_time) <? timeout * Z.of_N second)%Z then
        match poll api server container_id t with
        | (Ok true, t1) => Some (Ok true, t1)
        | (Ok false, t1) | (Raise _, t1) =>
            ready_loop fuel' api server container_id start_time timeout
              (t1 + 1 * second)
        end
      else Some (Ok false, t)
  end.

Definition wait_for_container_ready (api : APIClient) (server : Server)
  (container_id : string) (timeout : Z) (t : N) : option (result bool * N) :=
  ready_loop (S (Z.to_nat timeout)) api server container_id t timeout t.

(** ** Vocabulary of the properties *)

(** When the poll after the one issued at [t] is issued. *)
Definition next_poll (api : APIClient) (server : Server)
  (container_id : string) (t : N) : N :=
  (snd (poll api server container_id t) + 1 * second)%N.

(** When the [k]-th poll of a loop that starts polling at [t] is issued. *)
Fixpoint poll_time (api : APIClient) (server : Server) (container_id : string)
  (t : N) (k : nat) : N :=
  match k with
  | O => t
  | S k' => poll_time api server container_id (next_poll api server container_id t) k'
  end.

(** The poll issued at [t] sees the status running. *)
Definition observes_running (api : APIClient) (server : Server)
  (container_id : string) (t : N) : bool :=
  match fst (poll api server container_id t) with
  | Ok true => true
  | _ => false
  end.

(** The same vocabulary once more, read off the remote and not off the
    client's code.  The URL a status request goes to. *)
Definition status_url (api : APIClient) (container_id : string) : string :=
  (base_url api ++ "/api/containers/" ++ container_id ++ "/status")%string.

(** An answer reports the container running: the request came back, its
    status code is none of the error codes 400 to 599, and its body is a
    JSON object whose member [status] is the string [running]. *)
Definition reports_running (answer : result Response) : bool :=
  match answer with
  | Ok response =>
      negb ((400 <=? status_code response)
            && (status_code response <? 600))%Z
      && match json_fault (text response), json_loads (text response) with
         | None, Some (JDict members) =>
             match dict_lookup "status" members with
             | Some (JStr status) => String.eqb status "running"
             | _ => false
             end
         | _, _ => false
         end
  | Raise _ => false
  end.

(** When the answer to the status request issued at [t] is there. *)
Definition answered_at (api : APIClient) (server : Server)
  (container_id : string) (t : N) : N :=
  (t + fst (server (status_url api container_id) t))%N.

(** When the [k]-th status request is issued if none before it is answered
    with the container running: the first at [t], each further one a second
    after the answer to the one before. *)
Fixpoint issued_at (api : APIClient) (server : Server) (container_id : string)
  (t : N) (k : nat) : N :=
  match k with
  | O => t
  | S k' =>
      issued_at api server container_id
        (answered_at api server container_id t + 1 * second) k'
  end.

End Client.

(** ** Servers for the examples *)

Definition ok_response (body : string) : result Response :=
  Ok (mkResponse 200 body).

(** A container that is starting until [ready_at] and running from then on;
    every round trip takes 20 ms. *)
Definition starting_until (ready_at : N) : Server :=
  fun _ t =>
    (20%N, ok_response (if (t <? ready_at)%N then Sample.starting_text
                        else Sample.running_text)).

(** The same container behind a flaky API: no connection during the first
    second, a 503 during the next, a body that is no JSON during the
    third. *)
Definition flaky_until (ready_at : N) : Server :=
  fun url t =>
    if (t <? 1000)%N then (20%N, Raise ConnectionError)
    else if (t <? 2000)%N then (20%N, Ok (mkResponse 503 "busy"))
    else if (t <? 3000)%N then (20%N, ok_response "<html>")
    else starting_until ready_at url t.

Definition api : APIClient := init "http://localhost:3006/".

(** A container that is running, behind an API that takes five seconds to
    answer. *)
Definition slow : Server :=
  fun _ _ => (5000%N, ok_response Sample.running_text).

End Control.

(* ================================================================== *)
(** * The thread fan-out of test_concurrent_port_conflict_detection *)
(* ================================================================== *)

Module FanOut.
Import Py.

Inductive ThreadState : Type := NotStarted | Running | Finished.

(** What a scheduler can let happen next: the main thread starts thread
    [i], thread [i] runs [check_conflict] to its end, the main thread's
    [join] of thread [i] returns. *)
Inductive Label : Type :=
| Start (i : nat)
| Run (i : nat)
| Join (i : nat).

(** [pc] counts the main thread's loop iterations done so far, over both
    loops; [results] is the shared [queue.Queue], oldest first. *)
Record State : Type := mkState {
  pc : nat;
  threads : nat -> ThreadState;
  results : list (string * json)
}.

Definition initial : State := mkState 0 (fun _ => NotStarted) [].

Definition update (threads : nat -> ThreadState) (i : nat) (s : ThreadState)
  : nat -> ThreadState :=
  fun k => if Nat.eqb k i then s else threads k.

Definition is_running (s : ThreadState) : bool :=
  match s with Running => true | _ => false end.
Definition is_finished (s : ThreadState) : bool :=
  match s with Finished => true | _ => false end.

Definition label_eqb (a b : Label) : bool :=
  match a, b with
  | Start i, Start j | Run i, Run j | Join i, Join j => Nat.eqb i j
  | _, _ => false
  end.

Section Harness.
Context `{Runtime}.

(** The number of threads ([range(5)] in the test) and what the call of the
    [i]-th thread to the remote operation gives. *)
Variable n : nat.
Variable operation : nat -> result json.

(** The thread body [check_conflict], given the outcome of its call. *)
Definition check_conflict (outcome : result json) : string * json :=
  match outcome with
  | Ok conflict_info => ("success"%string, conflict_info)
  | Raise e => ("error"%string, JStr (exn_str e))
  end.

(** One scheduling step, [None] when the label is not enabled: the main
    thread starts thread [pc] in its first loop, and in its second loop its
    [join] of thread [pc - n] returns once that thread has finished; a
    started thread makes its call and puts its outcome. *)
Definition fire (l : Label) (st : State) : option State :=
  match l with
  | Start i =>
      if Nat.eqb i (pc st) && Nat.ltb (pc st) n then
        Some (mkState (S (pc st)) (update (threads st) i Running) (results st))
      else None
  | Run i =>
      if is_running (threads st i) then
        Some (mkState (pc st) (update (threads st) i Finished)
                (results st ++ [check_conflict (operation i)]))
      else None
  | Join i =>
      if Nat.leb n (pc st) && Nat.eqb i (pc st - n) && Nat.ltb (pc st) (2 * n)
         && is_finished (threads st i) then
        Some (mkState (S (pc st)) (threads st) (results st))
      else None
  end.

Fixpoint run (schedule : list Label) (st : State) : option State :=
  match schedule with
  | [] => Some st
  | l :: rest =>
      match fire l st with
      | Some st1 => run rest st1
      | None => None
      end
  end.

End Harness.

(** ** A fan-out for the examples: two threads, the call of the first
    fails *)

Definition conflict_info : json :=
  JDict [("isConflicted"%string, JBool true);
         ("conflictContainers"%string, JList [])].

Definition first_fails (i : nat) : result json :=
  match i with
  | O => Raise (PyException "404 Client Error")
  | _ => Ok conflict_info
  end.

Definition interleaved : list Label :=
  [Start 0; Start 1; Run 1; Run 0; Join 0; Join 1].

End FanOut.

(* ================================================================== *)
(** * Text: [str.replace] *)
(* ================================================================== *)

Module Text.

(** [s[n:]]. *)
Fixpoint drop (n : nat) (s : string) : string :=
  match n, s with
  | O, _ => s
  | S k, EmptyString => EmptyString
  | S k, String _ rest => drop k rest
  end.

(** The scan of [str.replace] for a non-empty [old], left to right and
    without overlap; [skip] characters of a replaced occurrence are still to
    be passed over. *)
Fixpoint replace_from (skip : nat) (old new s : string) : string :=
  match s with
  | EmptyString => EmptyString
  | String ch rest =>
      match skip with
      | S k => replace_from k old new rest
      | O =>
          if String.prefix old s
          then (new ++ replace_from (String.length old - 1) old new rest)%string
          else String ch (replace_from 0 old new rest)
      end
  end.

(** [s.replace("", new)]: [new] before every character and at the end. *)
Fixpoint interleave (new s : string) : string :=
  match s with
  | EmptyString => new
  | String ch rest => (new ++ String ch (interleave new rest))%string
  end.

(** [s.replace(old, new)]. *)
Definition replace (old new s : string) : string :=
  match old with
  | EmptyString => interleave new s
  | _ => replace_from 0 old new s
  end.

(** [base_url.replace('http', 'ws').replace('https', 'wss')], the first
    statement of [WebSocketClient.__init__]. *)
Definition rewrite_scheme (base_url : string) : string :=
  replace "https" "wss" (replace "http" "ws" base_url).

(** No character of [p] is [ch]. *)
Fixpoint avoids (ch : ascii) (p : string) : bool :=
  match p with
  | EmptyString => true
  | String a rest => negb (Ascii.eqb a ch) && avoids ch rest
  end.

End Text.

(* ================================================================== *)
(** * The streaming session client: [wait_for_output] *)
(* ================================================================== *)

Module Output.
Import Py Session.

(** [WebSocketClient(base_url)]. *)
Definition create (base_url : string) : WebSocketClient :=
  init (Text.rewrite_scheme base_url).

Section Client.
Context `{Runtime}.

(** The loop of [wait_for_output].  [None]: the fuel ran out. *)
Fixpoint output_loop (fuel : nat) (expected_text : string) (start_time : N)
  (timeout : Z) (c : WebSocketClient) (w : World)
  : option (result bool * WebSocketClient * World) :=
  match fuel with
  | O => None
  | S fuel' =>
      if (Z.of_N (now w - start_time) <? timeout * Z.of_N second)%Z then
        let '(message, c1, w1) := get_output 1 c w in
        if truthy message then
          match get message "data" (JStr EmptyString) with
          | Ok data =>
              if contains expected_text (str data) then Some (Ok true, c1, w1)
              else output_loop fuel' expected_text start_time timeout c1 w1
          | Raise e => Some (Raise e, c1, w1)
          end
        else output_loop fuel' expected_text start_time timeout c1 w1
      else Some (Ok false, c, w)
  end.

Definition wait_for_output (c : WebSocketClient) (w : World)
  (expected_text : string) (timeout : Z)
  : option (result bool * WebSocketClient * World) :=
  output_loop (wait_fuel c w timeout) expected_text (now w) timeout c w.

(** ** Vocabulary of the properties *)

(** [message and expected_text in str(message.get("data", ""))], false
    where [get] raises. *)
Definition accepts (expected_text : string) (message : json) : bool :=
  truthy message && matches expected_text message.

(** No [Close] is scripted. *)
Definition no_close (script : list (N * Event)) : bool :=
  forallb (fun ge => negb (is_close (snd ge))) script.

(** The session has a transport whose socket is open. *)
Definition socket_open (c : WebSocketClient) : bool :=
  match ws c with
  | Some app => sock_open app
  | None => false
  end.

(** The frames written to the transport so far. *)
Definition written (c : WebSocketClient) : list string :=
  match ws c with
  | Some app => sent app
  | None => []
  end.

(** The URL the transport was opened on. *)
Definition opened_url (c : WebSocketClient) : option string :=
  option_map url (ws c).

End Client.

(** ** Sessions for the examples *)

#[local] Existing Instance Sample.sample_runtime.

(** The connected session with its queue emptied, and with the Message of
    the one frame [text] waiting in the queue. *)
Definition idle : WebSocketClient := drain connected_client.

Definition holding (text : string) : WebSocketClient :=
  put (decode text) idle.

End Output.

(* ================================================================== *)
(** * The control client: the other endpoints, and the loops of the tests around them *)
(* ================================================================== *)

Module Lifecycle.
Import Py Control.

Inductive Method : Type := GET | POST.

(** The remote control API with both verbs: for a request issued at time
    [t], how long the round trip takes and what it gives. *)
Definition Remote : Type := Method -> string -> N -> N * result Response.

(** What the lifecycle tests print while they stop a course. *)
Inductive Printed : Type :=
| Stopped
| AttemptFailed (attempt : nat) (e : exn)
| ManualCleanup.

(** [n] slashes. *)
Fixpoint slashes (n : nat) : string :=
  match n with
  | O => EmptyString
  | S k => String "/" (slashes k)
  end.

Fixpoint ends_with_slash (s : string) : bool :=
  match s with
  | EmptyString => false
  | String ch EmptyString => Ascii.eqb ch "/"
  | String _ rest => ends_with_slash rest
  end.

Section Client.
Context `{Runtime}.

(** The three lines a JSON endpoint of [APIClient] consists of: the
    request, [raise_for_status], [response.json()]. *)
Definition request_json (remote : Remote) (method : Method) (url : string)
  (t : N) : result json * N :=
  let '(latency, answer) := remote method url t in
  let t1 := (t + latency)%N in
  match answer with
  | Raise e => (Raise e, t1)
  | Ok response =>
      match raise_for_status response with
      | Raise e => (Raise e, t1)
      | Ok _ => (response_json response, t1)
      end
  end.

Definition stop_course (api : APIClient) (remote : Remote)
  (course_id : string) (t : N) :=
  request_json remote POST
    (base_url api ++ "/api/courses/" ++ course_id ++ "/stop") t.

(** The [finally] block of [test_course_lifecycle_basic]: stop the course,
    trying up to three times.  What is printed, and when the block is
    over. *)
Fixpoint stop_attempts (attempts : list nat) (api : APIClient)
  (remote : Remote) (course_id : string) (t : N) : list Printed * N :=
  match attempts with
  | [] => ([], t)
  | attempt :: rest =>
      match stop_course api remote course_id t with
      | (Ok _, t1) => ([Stopped], t1)
      | (Raise e, t1) =>
          if Nat.ltb attempt 2 then
            let '(log, t2) :=
              stop_attempts rest api remote course_id (t1 + 2 * second) in
            (AttemptFailed attempt e :: log, t2)
          else
            let '(log, t2) := stop_attempts rest api remote course_id t1 in
            (AttemptFailed attempt e :: ManualCleanup :: log, t2)
      end
  end.

Definition stop_with_retry (api : APIClient) (remote : Remote)
  (course_id : string) (t : N) : list Printed * N :=
  stop_attempts (seq 0 3) api remote course_id t.

(** The inner loop of the [services_running] fixture: up to [n] probes of
    [url], a second apart, until one answers 200.  [false] is the [else] of
    the [for]. *)
Fixpoint probe (n : nat) (server : Server) (url : string) (t : N) : bool * N :=
  match n with
  | O => (false, t)
  | S k =>
      let '(latency, answer) := server url t in
      let t1 := (t + latency)%N in
      match answer with
      | Ok response =>
          if (status_code response =? 200)%Z then (true, t1)
          else probe k server url (t1 + 1 * second)
      | Raise _ => probe k server url (t1 + 1 * second)
      end
  end.

(** The outer loop, over the URLs to wait for. *)
Fixpoint wait_for_services (urls : list string) (server : Server) (t : N)
  : result unit * N :=
  match urls with
  | [] => (Ok tt, t)
  | url :: rest =>
      match probe 30 server url t with
      | (true, t1) => wait_for_services rest server t1
      | (false, t1) =>
          (Raise (PyException ("服务 " ++ url ++ " 启动失败")), t1)
      end
  end.

Definition services_running (backend_url frontend_url : string)
  (server : Server) (t : N) : result unit * N :=
  wait_for_services [(backend_url ++ "/health")%string; frontend_url] server t.

(** ** Vocabulary of the properties *)

(** The probe of [url] issued at [t] is answered with status 200. *)
Definition answers_200 (server : Server) (url : string) (t : N) : bool :=
  match snd (server url t) with
  | Ok response => (status_code response =? 200)%Z
  | Raise _ => false
  end.

(** When the probe after the one issued at [t] is issued. *)
Definition next_probe (server : Server) (url : string) (t : N) : N :=
  (t + fst (server url t) + 1 * second)%N.

Fixpoint probe_time (server : Server) (url : string) (t : N) (k : nat) : N :=
  match k with
  | O => t
  | S k' => probe_time server url (next_probe server url t) k'
  end.

(** When the [k]-th attempt to stop the course is made, the first at [t]. *)
Fixpoint attempt_time (api : APIClient) (remote : Remote) (course_id : string)
  (t : N) (k : nat) : N :=
  match k with
  | O => t
  | S k' =>
      attempt_time api remote course_id
        (snd (stop_course api remote course_id t) + 2 * second) k'
  end.

(** What the [k]-th attempt gives, and when it is over. *)
Definition attempt (api : APIClient) (remote : Remote) (course_id : string)
  (t : N) (k : nat) : result json * N :=
  stop_course api remote course_id (attempt_time api remote course_id t k).

(** The lines printed for the failures among the first [k] attempts. *)
Definition failures (api : APIClient) (remote : Remote) (course_id : string)
  (t : N) (k : nat) : list Printed :=
  flat_map (fun j => match fst (attempt api remote course_id t j) with
                     | Raise e => [AttemptFailed j e]
                     | Ok _ => []
                     end) (seq 0 k).

Definition failed (api : APIClient) (remote : Remote) (course_id : string)
  (t : N) (k : nat) : bool :=
  match fst (attempt api remote course_id t k) with
  | Raise _ => true
  | Ok _ => false
  end.

(** One of the thirty probes of [url], the first issued at [t], is answered
    with status 200. *)
Definition up (server : Server) (url : string) (t : N) : Prop :=
  exists k, (k < 30)%nat /\
            answers_200 server url (probe_time server url t k) = true.

Definition not_started (url : string) : exn :=
  PyException ("服务 " ++ url ++ " 启动失败").

End Client.

(** ** Remotes for the examples *)

(** An API that cannot be reached before [ready_at] and answers every
    request with an empty object from then on; a round trip takes 20 ms. *)
Definition unreachable_until (ready_at : N) : Remote :=
  fun _ _ t =>
    if (t <? ready_at)%N then (20%N, Raise ConnectionError)
    else (20%N, ok_response Sample.empty_dict_text).

(** A backend that answers 503 before [ready_at] and 200 from then on, and a
    frontend that is never there; a round trip takes 20 ms. *)
Definition backend_only (ready_at : N) : Server :=
  fun url t =>
    if String.eqb url "http://localhost:3006/health" then
      if (t <? ready_at)%N then (20%N, Ok (mkResponse 503 "busy"))
      else (20%N, ok_response "ok")
    else (20%N, Raise ConnectionError).

End Lifecycle.

(* ================================================================== *)
(** * A step of the terminal test: test_websocket.py *)
(* ================================================================== *)

Module Scenario.
Import Py Session.

(** How a test step ends: its assertions hold, one of them fails with its
    message, or an exception other than an assertion escapes. *)
Inductive Verdict : Type :=
| Passed
| Failed (message : string)
| Errored (e : exn).

Section Steps.
Context `{Runtime}.

(** [any(expected_output in str(output.get("data", "")) for output in
    outputs)]. *)
Fixpoint any_contains (expected_output : string) (outputs : list json)
  : result bool :=
  match outputs with
  | [] => Ok false
  | output :: rest =>
      match get output "data" (JStr EmptyString) with
      | Ok data =>
          if contains expected_output (str data) then Ok true
          else any_contains expected_output rest
      | Raise e => Raise e
      end
  end.

(** One round of the command loop of [test_realtime_terminal_interaction]:
    the call and the two assertions on its result. *)
Definition command_step (c : WebSocketClient) (w : World)
  (command expected_output : string)
  : option (Verdict * WebSocketClient * World) :=
  match execute_command_and_wait c w command (Some expected_output) 10 with
  | None => None
  | Some (Raise e, c1, w1) => Some (Errored e, c1, w1)
  | Some (Ok result, c1, w1) =>
      if success result then
        match expected_output with
        | EmptyString => Some (Passed, c1, w1)
        | _ =>
            match any_contains expected_output (outputs result) with
            | Ok true => Some (Passed, c1, w1)
            | Ok false =>
                Some (Failed ("命令 '" ++ command ++ "' 输出不包含预期内容 '"
                                ++ expected_output ++ "'"), c1, w1)
            | Raise e => Some (Errored e, c1, w1)
            end
        end
      else Some (Failed ("命令 '" ++ command ++ "' 执行失败"), c1, w1)
  end.

End Steps.
End Scenario.

(* ================================================================== *)
(** * The clock *)
(* ================================================================== *)

Module Clock.
Import Py.

Lemma steps_left_mono e1 e2 timeout :
  (e1 <= e2)%N -> (steps_left e2 timeout <= steps_left e1 timeout)%nat.
Proof.
  intros Hle. unfold steps_left. change (Z.of_N second) with 1000%Z.
  assert (((timeout * 1000 - Z.of_N e2 + 999) / 1000 <=
           (timeout * 1000 - Z.of_N e1 + 999) / 1000)%Z)
    by (apply Z.div_le_mono; lia).
  lia.
Qed.

Lemma steps_left_second e timeout :
  (Z.of_N e < timeout * Z.of_N second)%Z ->
  (S (steps_left (e + second) timeout) <= steps_left e timeout)%nat.
Proof.
  unfold steps_left. change (Z.of_N second) with 1000%Z. intros Hlt.
  replace (timeout * 1000 - Z.of_N (e + second) + 999)%Z
    with ((timeout * 1000 - Z.of_N e + 999) + (-1) * 1000)%Z
    by (unfold second; lia).
  rewrite Z.div_add by lia.
  assert (1 <= (timeout * 1000 - Z.of_N e + 999) / 1000)%Z
    by (apply Z.div_le_lower_bound; lia).
  lia.
Qed.

Lemma steps_left_start timeout : steps_left 0 timeout = Z.to_nat timeout.
Proof.
  unfold steps_left. change (Z.of_N second) with 1000%Z. simpl Z.of_N.
  replace (timeout * 1000 - 0 + 999)%Z with (999 + timeout * 1000)%Z by lia.
  rewrite Z.div_add by lia. reflexivity.
Qed.

(** A step that takes at least a second uses up one of the steps left. *)
Lemma steps_left_step e1 e2 timeout :
  (Z.of_N e1 < timeout * Z.of_N second)%Z -> (e1 + second <= e2)%N ->
  (S (steps_left e2 timeout) <= steps_left e1 timeout)%nat.
Proof.
  intros Hlt Hle.
  pose proof (steps_left_second e1 timeout Hlt).
  pose proof (steps_left_mono (e1 + second) e2 timeout Hle).
  lia.
Qed.

End Clock.

(* ================================================================== *)
(** * Properties of the streaming session client *)
(* ================================================================== *)

Module SessionSpec.
Import Py Session Clock.

Section Facts.
Context `{Runtime}.

(** ** The receive thread and the queue *)

Lemma on_message_messages c text :
  messages (snd (on_message c text))
  = messages c ++ map decode (frame_of (Frame text)).
Proof.
  unfold on_message, frame_of.
  destruct (json_fault text) as [e|]; [cbn; now rewrite app_nil_r|].
  cbn [map]. unfold decode.
  destruct (json_loads text) as [data|]; [|reflexivity].
  destruct (get data "type" JNull) as [t|e]; [|reflexivity].
  destruct (eq_str t "connected"); reflexivity.
Qed.

Lemma dispatch_messages ev c :
  messages (dispatch ev c) = messages c ++ map decode (frame_of ev).
Proof.
  destruct ev as [|text|e|st msg]; simpl.
  - unfold on_open, set_sock. destruct (ws c); simpl; now rewrite app_nil_r.
  - pose proof (on_message_messages c text) as Hm.
    cbn [frame_of] in Hm.
    destruct (on_message c text) as [[u|e] c1]; cbn [snd on_error set_error messages] in *;
      exact Hm.
  - now rewrite app_nil_r.
  - unfold on_close, set_sock. destruct (ws c); simpl; now rewrite app_nil_r.
Qed.

Lemma run_thread_inbound ready lat script :
  forall budget c t alive c1 w1,
    run_thread ready budget c t alive lat script = (c1, w1) ->
    inbound c1 w1 = messages c ++ map decode (frames script).
Proof.
  induction script as [|[gap ev] rest IH]; intros budget c t alive c1 w1; simpl.
  - destruct (ready c alive); intros [= <- <-]; reflexivity.
  - destruct (ready c alive); [intros [= <- <-]; reflexivity|].
    destruct (alive && (gap <=? budget)%N) eqn:Hgo.
    + intros Hrun. apply IH in Hrun. rewrite Hrun, dispatch_messages.
      unfold frames. simpl. rewrite map_app, app_assoc. reflexivity.
    + intros [= <- <-]. unfold inbound. simpl. destruct alive; reflexivity.
Qed.

Lemma run_thread_clock ready lat script :
  forall budget c t alive c1 w1,
    run_thread ready budget c t alive lat script = (c1, w1) ->
    (t <= now w1 <= t + budget)%N.
Proof.
  induction script as [|[gap ev] rest IH]; intros budget c t alive c1 w1; simpl.
  - destruct (ready c alive); intros [= <- <-]; simpl; lia.
  - destruct (ready c alive); [intros [= <- <-]; simpl; lia|].
    destruct (alive && (gap <=? budget)%N) eqn:Hgo.
    + intros Hrun. apply IH in Hrun.
      apply andb_prop in Hgo as [_ Hle]. apply N.leb_le in Hle. lia.
    + intros [= <- <-]. simpl. lia.
Qed.

Lemma dispatch_length ev c :
  (List.length (messages (dispatch ev c)) <= S (List.length (messages c)))%nat.
Proof.
  rewrite dispatch_messages, length_app.
  destruct ev as [|text|e|st msg]; cbn [frame_of]; try (simpl; lia).
  destruct (json_fault text); simpl; lia.
Qed.

Lemma run_thread_nonempty lat script :
  forall budget c t alive c1 w1,
    run_thread nonempty budget c t alive lat script = (c1, w1) ->
    (List.length (messages c1) + List.length (pending w1)
       <= List.length (messages c) + List.length script)%nat /\
    (messages c1 <> [] \/ (messages c1 = [] /\ now w1 = t + budget)%N).
Proof.
  induction script as [|[gap ev] rest IH]; intros budget c t alive c1 w1; simpl.
  - unfold nonempty at 1. destruct (messages c) eqn:Hq.
    + intros [= <- <-]. simpl. rewrite Hq. split; [simpl; lia|right; auto].
    + intros [= <- <-]. simpl. rewrite Hq. split; [simpl; lia|left; discriminate].
  - unfold nonempty at 1. destruct (messages c) eqn:Hq.
    + destruct (alive && (gap <=? budget)%N) eqn:Hgo.
      * intros Hrun. apply IH in Hrun as [Hlen Hdone].
        pose proof (dispatch_length ev c) as Hd. rewrite Hq in Hd. simpl in *.
        apply andb_prop in Hgo as [_ Hle]. apply N.leb_le in Hle.
        split; [lia|].
        destruct Hdone as [?|[? ?]]; [left; assumption|right; split; [assumption|lia]].
      * intros [= <- <-]. simpl. rewrite Hq. split.
        -- destruct alive; simpl; lia.
        -- right; auto.
    + intros [= <- <-]. simpl. rewrite Hq. split; [simpl; lia|left; discriminate].
Qed.


(** What one [get_output(timeout=1)] does to the stream of inbound messages,
    to the clock and to the size of what is left. *)
Lemma get_output_spec c w m c1 w1 :
  get_output 1 c w = (m, c1, w1) ->
  (now w <= now w1 <= now w + second)%N /\
  ((inbound c w = m :: inbound c1 w1 /\
    (List.length (messages c1) + List.length (pending w1)
       < List.length (messages c) + List.length (pending w))%nat)
   \/
   (m = JNull /\ inbound c1 w1 = inbound c w /\ messages c1 = [] /\
    now w1 = (now w + second)%N /\
    (List.length (messages c1) + List.length (pending w1)
       <= List.length (messages c) + List.length (pending w))%nat)).
Proof.
  unfold get_output, queue_get, block.
  destruct (run_thread nonempty (second * 1) c (now w) (thread_alive w)
              (close_latency w) (pending w)) as [c' w'] eqn:Hrun.
  pose proof (run_thread_inbound _ _ _ _ _ _ _ _ _ Hrun) as Hin.
  pose proof (run_thread_clock _ _ _ _ _ _ _ _ _ Hrun) as Hclk.
  pose proof (run_thread_nonempty _ _ _ _ _ _ _ _ Hrun) as [Hlen Hdone].
  rewrite N.mul_1_r in *.
  fold (inbound c w) in Hin.
  destruct (messages c') as [|m' q] eqn:Hq.
  - intros [= <- <- <-]. split; [exact Hclk|right].
    destruct Hdone as [Hne|[_ Hnow]]; [congruence|].
    simpl in Hlen. repeat split; auto. rewrite Hq. simpl. lia.
  - intros [= <- <- <-]. split; [exact Hclk|left].
    unfold inbound in *. rewrite Hq in Hin. simpl in *. split; [auto|lia].
Qed.

Lemma wait_loop_terminates fuel :
  forall expected start timeout acc c w,
    (start <= now w)%N ->
    (List.length (messages c) + List.length (pending w)
       + steps_left (now w - start) timeout < fuel)%nat ->
    exists r, wait_loop fuel expected start timeout acc c w = Some r.
Proof.
  induction fuel as [|fuel IH]; intros expected start timeout acc c w Hstart Hfuel;
    [lia|].
  cbn [wait_loop].
  destruct (Z.of_N (now w - start) <? timeout * Z.of_N second)%Z eqn:Hcond;
    [|eauto].
  apply Z.ltb_lt in Hcond.
  destruct (get_output 1 c w) as [[m c1] w1] eqn:Hget.
  apply get_output_spec in Hget as [Hclk Hcase].
  assert (Hnext : (List.length (messages c1) + List.length (pending w1)
                   + steps_left (now w1 - start) timeout < fuel)%nat).
  { pose proof (steps_left_mono (now w - start) (now w1 - start) timeout
                  ltac:(lia)) as Hmono.
    destruct Hcase as [[_ Hlt]|(_ & _ & _ & Hnow & Hle)]; [lia|].
    pose proof (steps_left_second (now w - start) timeout Hcond) as Hsec.
    replace (now w1 - start)%N with (now w - start + second)%N by lia.
    lia. }
  assert (Hstart1 : (start <= now w1)%N) by lia.
  destruct (truthy m).
  - destruct (given expected) as [expected'|].
    + destruct (get m "data" (JStr EmptyString)) as [data|e]; [|eauto].
      destruct (contains expected' (str data)); [eauto|].
      apply IH; assumption.
    + apply IH; assumption.
  - apply IH; assumption.
Qed.

Lemma removelast_cons_Forall {A} (P : A -> Prop) x l :
  P x -> Forall P (removelast l) -> Forall P (removelast (x :: l)).
Proof.
  intros Hx Hl. destruct l as [|y l]; [constructor|].
  change (removelast (x :: y :: l)) with (x :: removelast (y :: l)).
  constructor; assumption.
Qed.

Lemma wait_loop_spec fuel :
  forall expected start timeout acc c w r c1 w1,
    wait_loop fuel expected start timeout acc c w = Some (r, c1, w1) ->
    (now w <= now w1)%N /\
    exists taken,
      inbound c w = taken ++ inbound c1 w1 /\
      match r with
      | Ok outs =>
          outs = acc ++ filter truthy taken /\
          stopped expected start timeout (filter truthy taken) w1 /\
          (forall e, given expected = Some e ->
             Forall (fun m => matches e m = false)
               (removelast (filter truthy taken)))
      | Raise _ => True
      end.
Proof.
  induction fuel as [|fuel IH]; intros expected start timeout acc c w r c1 w1;
    [discriminate|].
  cbn [wait_loop].
  destruct (Z.of_N (now w - start) <? timeout * Z.of_N second)%Z eqn:Hcond.
  2:{ intros [= <- <- <-]. apply Z.ltb_ge in Hcond.
      split; [lia|]. exists []. simpl. rewrite app_nil_r.
      repeat split; [right; exact Hcond|constructor]. }
  destruct (get_output 1 c w) as [[m c2] w2] eqn:Hget.
  apply get_output_spec in Hget as [Hclk Hcase].
  assert (Hrec : forall acc', 
    wait_loop fuel expected start timeout acc' c2 w2 = Some (r, c1, w1) ->
    truthy m = false \/ (acc' = acc ++ [m] /\
       forall e, given expected = Some e -> matches e m = false) ->
    (now w <= now w1)%N /\
    exists taken,
      inbound c w = taken ++ inbound c1 w1 /\
      match r with
      | Ok outs =>
          outs = (if truthy m then acc ++ filter truthy taken else acc' ++ filter truthy taken) /\
          stopped expected start timeout (filter truthy taken) w1 /\
          (forall e, given expected = Some e ->
             Forall (fun m => matches e m = false)
               (removelast (filter truthy taken)))
      | Raise _ => True
      end).
  { intros acc' Hloop Hm.
    apply IH in Hloop as (Hclk' & taken & Hin & Hr).
    split; [lia|].
    destruct Hcase as [[Hhd _]|(-> & Hsame & _)].
    - exists (m :: taken). split; [rewrite Hhd, Hin; reflexivity|].
      destruct r as [outs|]; [|exact I].
      destruct Hr as (Houts & Hstop & Hno).
      simpl. destruct (truthy m) eqn:Htr.
      + destruct Hm as [|[-> Hnm]]; [discriminate|].
        split; [rewrite Houts, <- app_assoc; reflexivity|]. split.
        * destruct Hstop as [(e & Hg & Hmatch & Hne)|Hdead]; [left|right; exact Hdead].
          exists e. split; [exact Hg|split; [|discriminate]].
          destruct (filter truthy taken); [contradiction|exact Hmatch].
        * intros e Hg. apply removelast_cons_Forall; auto.
      + auto.
    - exists taken. split; [rewrite <- Hsame; exact Hin|].
      destruct r as [outs|]; [|exact I]. simpl. exact Hr. }
  destruct (truthy m) eqn:Htr.
  - destruct (given expected) as [e|] eqn:Hg.
    + destruct (get m "data" (JStr EmptyString)) as [data|ex] eqn:Hdata.
      * destruct (contains e (str data)) eqn:Hc.
        -- intros [= <- <- <-]. split; [lia|].
           destruct Hcase as [[Hhd _]|(-> & _)]; [|discriminate].
           exists [m]. split; [exact Hhd|]. simpl. rewrite Htr.
           repeat split.
           ++ left. exists e. unfold matches. simpl. rewrite Hdata.
              split; [exact Hg|split; [exact Hc|discriminate]].
           ++ intros; constructor.
        -- intros Hloop. apply (Hrec (acc ++ [m])) in Hloop; [exact Hloop|].
           right. split; [reflexivity|]. intros e' [= <-].
           unfold matches. rewrite Hdata. exact Hc.
      * intros [= <- <- <-]. split; [lia|].
        destruct Hcase as [[Hhd _]|(-> & _)]; [|discriminate].
        exists [m]. split; [exact Hhd|exact I].
    + intros Hloop. apply (Hrec (acc ++ [m])) in Hloop; [exact Hloop|].
      right. split; [reflexivity|]. intros e'; discriminate.
  - intros Hloop. apply (Hrec acc) in Hloop; [exact Hloop|]. left; reflexivity.
Qed.

Lemma run_thread_arrival lat text script :
  forall budget c t limit c1 w1,
    messages c = [] ->
    In text (arrivals limit script) ->
    run_thread nonempty budget c t true lat script = (c1, w1) ->
    thread_alive w1 = true /\ (t <= now w1)%N /\
    ((exists text0,
        messages c1 = [decode text0] /\ (now w1 - t < limit)%N /\
        (text = text0 \/ In text (arrivals (limit - (now w1 - t)) (pending w1))))
     \/
     (messages c1 = [] /\ now w1 = (t + budget)%N /\ (budget < limit)%N /\
      In text (arrivals (limit - budget) (pending w1)))).
Proof.
  induction script as [|[gap ev] rest IH]; intros budget c t limit c1 w1 Hq Hin;
    [contradiction|].
  cbn [run_thread arrivals] in *. unfold nonempty at 1. rewrite Hq.
  destruct (gap <? limit)%N eqn:Hgl; [|contradiction].
  apply N.ltb_lt in Hgl. cbn [andb].
  destruct (gap <=? budget)%N eqn:Hgb.
  - apply N.leb_le in Hgb.
    pose proof (dispatch_messages ev c) as Hd. rewrite Hq in Hd.
    destruct ev as [|text0|e|st msg]; cbn [frame_of is_close app map negb] in *.
    + intros Hrun. eapply IH in Hrun; [|exact Hd|exact Hin].
      destruct Hrun as (Hal & Hclk & Hcase). split; [exact Hal|]. split; [lia|].
      destruct Hcase as [(t0 & Hm & Hlt & Hor)|(Hm & Hnow & Hlt & Hor)].
      * left. exists t0. split; [exact Hm|]. split; [lia|].
        destruct Hor as [|Hor]; [left; assumption|right].
        replace (limit - (now w1 - t))%N with (limit - gap - (now w1 - (t + gap)))%N
          by lia. exact Hor.
      * right. split; [exact Hm|]. split; [lia|]. split; [lia|].
        replace (limit - budget)%N with (limit - gap - (budget - gap))%N by lia.
        exact Hor.
    + destruct (json_fault text0) as [fault|]; cbn [app map] in *.
      { intros Hrun. eapply IH in Hrun; [|exact Hd|exact Hin].
        destruct Hrun as (Hal & Hclk & Hcase). split; [exact Hal|]. split; [lia|].
        destruct Hcase as [(t0 & Hm & Hlt & Hor)|(Hm & Hnow & Hlt & Hor)].
        * left. exists t0. split; [exact Hm|]. split; [lia|].
          destruct Hor as [|Hor]; [left; assumption|right].
          replace (limit - (now w1 - t))%N
            with (limit - gap - (now w1 - (t + gap)))%N by lia.
          exact Hor.
        * right. split; [exact Hm|]. split; [lia|]. split; [lia|].
          replace (limit - budget)%N with (limit - gap - (budget - gap))%N by lia.
          exact Hor. }
      destruct rest as [|[g2 e2] rest2]; cbn [run_thread]; unfold nonempty at 1;
        rewrite Hd; intros [= <- <-]; cbn [thread_alive now pending];
        (split; [reflexivity|]); (split; [lia|]); left; exists text0;
        (split; [exact Hd|]); (split; [lia|]);
        replace (t + gap - t)%N with gap by lia;
        (destruct Hin as [Hin|Hin]; [left; symmetry; exact Hin|right; exact Hin]).
    + intros Hrun. eapply IH in Hrun; [|exact Hd|exact Hin].
      destruct Hrun as (Hal & Hclk & Hcase). split; [exact Hal|]. split; [lia|].
      destruct Hcase as [(t0 & Hm & Hlt & Hor)|(Hm & Hnow & Hlt & Hor)].
      * left. exists t0. split; [exact Hm|]. split; [lia|].
        destruct Hor as [|Hor]; [left; assumption|right].
        replace (limit - (now w1 - t))%N with (limit - gap - (now w1 - (t + gap)))%N
          by lia. exact Hor.
      * right. split; [exact Hm|]. split; [lia|]. split; [lia|].
        replace (limit - budget)%N with (limit - gap - (budget - gap))%N by lia.
        exact Hor.
    + contradiction.
  - apply N.leb_gt in Hgb. intros [= <- <-]. cbn [thread_alive now pending].
    split; [reflexivity|]. split; [lia|]. right.
    split; [exact Hq|]. split; [reflexivity|]. split; [lia|].
    cbn [arrivals].
    assert (Hlt : (gap - budget <? limit - budget)%N = true) by (apply N.ltb_lt; lia).
    rewrite Hlt.
    replace (limit - budget - (gap - budget))%N with (limit - gap)%N by lia.
    exact Hin.
Qed.

Lemma arrivals_positive limit script text :
  In text (arrivals limit script) -> (0 < limit)%N.
Proof.
  destruct script as [|[gap ev] rest]; [contradiction|]. cbn [arrivals].
  destruct (gap <? limit)%N eqn:Hgl; [|contradiction].
  apply N.ltb_lt in Hgl. lia.
Qed.

(** A true-valued message that arrives before the deadline is collected,
    unless the wait ended earlier, before its deadline. *)
Lemma wait_loop_collects fuel :
  forall expected start timeout acc c w outs c1 w1 text,
    messages c = [] ->
    thread_alive w = true ->
    (start <= now w)%N ->
    In text (arrivals (Z.to_N (timeout * Z.of_N second) - (now w - start))
               (pending w)) ->
    truthy (decode text) = true ->
    wait_loop fuel expected start timeout acc c w = Some (Ok outs, c1, w1) ->
    In (decode text) outs \/
    (Z.of_N (now w1 - start) < timeout * Z.of_N second)%Z.
Proof.
  induction fuel as [|fuel IH];
    intros expected start timeout acc c w outs c1 w1 text Hq Hal Hstart Hin Htr;
    [discriminate|].
  cbn [wait_loop].
  pose proof (arrivals_positive _ _ _ Hin) as Hpos.
  assert (Hcond : (Z.of_N (now w - start) <? timeout * Z.of_N second)%Z = true)
    by (apply Z.ltb_lt; lia).
  rewrite Hcond.
  unfold get_output, queue_get, block. rewrite Hal, N.mul_1_r.
  destruct (run_thread nonempty second c (now w) true (close_latency w) (pending w))
    as [c2 w2] eqn:Hrun.
  eapply run_thread_arrival in Hrun; [|exact Hq|exact Hin].
  destruct Hrun as (Hal2 & Hclk & [(t0 & Hm & Hlt & Hor)|(Hm & Hnow & Hlt & Hor)]);
    rewrite Hm.
  - assert (Hrec : forall acc',
              (text = t0 -> In (decode text) acc') ->
              wait_loop fuel expected start timeout acc' (set_messages [] c2) w2
                = Some (Ok outs, c1, w1) ->
              In (decode text) outs \/
              (Z.of_N (now w1 - start) < timeout * Z.of_N second)%Z).
    { intros acc' Hacc Hloop. destruct Hor as [Heq|Hin2].
      - left. apply wait_loop_spec in Hloop as (_ & taken & _ & -> & _).
        apply in_or_app. left. auto.
      - eapply IH in Hloop; [exact Hloop|reflexivity|exact Hal2|lia| |exact Htr].
        replace (Z.to_N (timeout * Z.of_N second) - (now w2 - start))%N
          with (Z.to_N (timeout * Z.of_N second) - (now w - start) - (now w2 - now w))%N
          by lia.
        exact Hin2. }
    destruct (truthy (decode t0)) eqn:Htr0.
    + destruct (given expected) as [e|].
      * destruct (get (decode t0) "data" (JStr EmptyString)) as [data|ex];
          [|discriminate].
        destruct (contains e (str data)).
        -- intros [= <- <- <-]. right. lia.
        -- apply Hrec. intros ->. apply in_or_app. right. left. reflexivity.
      * apply Hrec. intros ->. apply in_or_app. right. left. reflexivity.
    + apply Hrec. intros ->. congruence.
  - cbn [truthy]. intros Hloop.
    eapply IH in Hloop; [exact Hloop|exact Hm|exact Hal2|lia| |exact Htr].
    replace (Z.to_N (timeout * Z.of_N second) - (now w2 - start))%N
      with (Z.to_N (timeout * Z.of_N second) - (now w - start) - second)%N
      by lia.
    exact Hor.
Qed.

(** ** [execute_command_and_wait] *)

Lemma drained_nil q : drained q = [].
Proof. induction q as [|m q IH]; [reflexivity|exact IH]. Qed.

Lemma drain_messages c : messages (drain c) = [].
Proof. unfold drain. simpl. apply drained_nil. Qed.

Lemma send_command_messages c command :
  messages (snd (send_command c command)) = messages c.
Proof.
  unfold send_command. destruct (ws c) as [app|]; [|reflexivity].
  destruct (app_send app _); reflexivity.
Qed.

(** The call always produces a result: the fuel it is given suffices. *)
Lemma execute_returns c w command expected timeout :
  exists out, execute_command_and_wait c w command expected timeout = Some out.
Proof.
  unfold execute_command_and_wait.
  pose proof (send_command_messages (drain c) command) as Hq.
  rewrite drain_messages in Hq.
  destruct (send_command (drain c) command) as [[[|]|e] c1]; simpl in Hq; eauto.
  destruct (wait_loop_terminates (wait_fuel c1 w timeout) expected (now w)
              timeout [] c1 w) as [[[r c2] w2] Hloop].
  - lia.
  - unfold wait_fuel. rewrite N.sub_diag, steps_left_start. lia.
  - rewrite Hloop. destruct r; eauto.
Qed.

(** A normal return is a normal end of the wait loop, entered with an empty
    queue right after the command was written. *)
Lemma execute_unfold c w command expected timeout r c1 w1 :
  execute_command_and_wait c w command expected timeout = Some (Ok r, c1, w1) ->
  exists c0,
    send_command (drain c) command = (Ok true, c0) /\
    messages c0 = [] /\
    wait_loop (wait_fuel c0 w timeout) expected (now w) timeout [] c0 w
      = Some (Ok (outputs r), c1, w1) /\
    Session.command r = command /\
    success r = (0 <? List.length (outputs r))%nat.
Proof.
  unfold execute_command_and_wait.
  pose proof (send_command_messages (drain c) command) as Hq.
  rewrite drain_messages in Hq.
  destruct (send_command (drain c) command) as [[[|]|e] c0]; simpl in Hq;
    try discriminate.
  destruct (wait_loop _ _ _ _ _ _ _) as [[[[outs|e] c2] w2]|] eqn:Hloop;
    try discriminate.
  intros [= <- <- <-]. exists c0. cbn [Session.command outputs success]. auto.
Qed.

(** What a normal return tells. *)
Lemma execute_spec c w command expected timeout r c1 w1 :
  execute_command_and_wait c w command expected timeout = Some (Ok r, c1, w1) ->
  (now w <= now w1)%N /\
  stopped expected (now w) timeout (outputs r) w1 /\
  (forall e, given expected = Some e ->
     Forall (fun m => matches e m = false) (removelast (outputs r))) /\
  exists taken,
    map decode (frames (pending w)) = taken ++ inbound c1 w1 /\
    outputs r = filter truthy taken.
Proof.
  intros Hrun. apply execute_unfold in Hrun as (c0 & _ & Hq & Hloop & _).
  apply wait_loop_spec in Hloop as (Hclk & taken & Hin & Houts & Hstop & Hno).
  cbn [app] in Houts. rewrite Houts.
  unfold inbound at 1 in Hin. rewrite Hq in Hin. cbn [app] in Hin.
  repeat split; try assumption. exists taken. split; [exact Hin|reflexivity].
Qed.

Lemma success_iff_collected r :
  success r = (0 <? List.length (outputs r))%nat ->
  success r = true <-> outputs r <> [].
Proof.
  intros ->. destruct (outputs r); simpl; split; intro Hx;
    try reflexivity; try discriminate; congruence.
Qed.

Lemma last_of_matching {A} (P : A -> bool) (l : list A) (d x : A) :
  Forall (fun m => P m = false) (removelast l) ->
  In x l -> P x = true -> x = last l d.
Proof.
  intros Hall Hin Hx.
  assert (Hne : l <> []) by (intros ->; contradiction).
  rewrite (app_removelast_last d Hne) in Hin.
  apply in_app_or in Hin as [Hin|[Heq|[]]]; [|symmetry; exact Heq].
  rewrite Forall_forall in Hall. apply Hall in Hin. congruence.
Qed.


(** C1, as the code has it.  Every [execute_command_and_wait] returns, and
    when it returns normally: success is reported exactly when at least one
    Message was collected, whether or not an expected text was given or
    found; if an expected text was given and a collected Message contains
    it, that Message is the last one collected (the wait stopped there) and
    success is reported; failure is reported only once the timeout has
    elapsed; a true-valued Message that arrives before the timeout elapses
    makes the call report success; and a reported success comes from a frame
    that arrived after the call began. *)
Theorem execute_success_iff_message_collected c w command expected timeout :
  exists out c1 w1,
    execute_command_and_wait c w command expected timeout = Some (out, c1, w1) /\
    forall r, out = Ok r ->
      (success r = true <-> outputs r <> []) /\
      (forall e m, given expected = Some e -> In m (outputs r) ->
         matches e m = true -> success r = true /\ m = last (outputs r) JNull) /\
      (success r = false ->
         (timeout * Z.of_N second <= Z.of_N (now w1 - now w))%Z) /\
      (forall text, thread_alive w = true ->
         In text (arrivals (Z.to_N (timeout * Z.of_N second)) (pending w)) ->
         truthy (decode text) = true -> success r = true) /\
      (success r = true ->
         exists text, In text (frames (pending w)) /\
                      truthy (decode text) = true /\
                      In (decode text) (outputs r)).
Proof.
  destruct (execute_returns c w command expected timeout) as [[[out c1] w1] Hrun].
  exists out, c1, w1. split; [exact Hrun|]. intros r ->.
  pose proof (execute_unfold _ _ _ _ _ _ _ _ Hrun) as (c0 & _ & Hq & Hloop & _ & Hsucc).
  pose proof (execute_spec _ _ _ _ _ _ _ _ Hrun) as (Hclk & Hstop & Hno & taken & Hin & Houts).
  pose proof (success_iff_collected r Hsucc) as Hiff.
  split; [exact Hiff|]. split; [|split; [|split]].
  - intros e m Hg Hm Hmatch. split.
    + apply Hiff. intros Hnil. rewrite Hnil in Hm. contradiction.
    + eapply last_of_matching with (P := matches e); eauto.
  - intros Hfail. destruct Hstop as [(e & _ & _ & Hne)|Hdead]; [|exact Hdead].
    apply Hiff in Hne. congruence.
  - intros text Hal Harr Htr. apply Hiff.
    eapply wait_loop_collects in Hloop; [|exact Hq|exact Hal|lia| |exact Htr].
    + destruct Hloop as [Hcol|Hearly].
      * intros Hnil. rewrite Hnil in Hcol. contradiction.
      * destruct Hstop as [(e & _ & _ & Hne)|Hdead]; [exact Hne|lia].
    + rewrite N.sub_diag, N.sub_0_r. exact Harr.
  - intros Hs. apply Hiff in Hs.
    destruct (outputs r) as [|m rest] eqn:Ho; [congruence|].
    assert (Hm : In m (filter truthy taken)) by (rewrite <- Houts; left; reflexivity).
    apply filter_In in Hm as [Hm Htr].
    assert (Hm2 : In m (map decode (frames (pending w))))
      by (rewrite Hin; apply in_or_app; left; exact Hm).
    apply in_map_iff in Hm2 as (text & <- & Htext).
    exists text. repeat split; [exact Htext|exact Htr|left; reflexivity].
Qed.


Lemma get_raises value key default e :
  get value key default = Raise e -> e = AttributeError "get".
Proof. destruct value; simpl; intros [= <-]; reflexivity. Qed.



(** ** [connect] *)

Lemma run_thread_done ready lat script :
  forall budget c t alive c1 w1,
    run_thread ready budget c t alive lat script = (c1, w1) ->
    ready c1 (thread_alive w1) = true \/
    (ready c1 (thread_alive w1) = false /\ now w1 = (t + budget)%N).
Proof.
  induction script as [|[gap ev] rest IH]; intros budget c t alive c1 w1;
    cbn [run_thread]; destruct (ready c alive) eqn:Hr;
    try (intros [= <- <-]; cbn [thread_alive now]; auto; fail).
  destruct (alive && (gap <=? budget)%N) eqn:Hgo.
  - intros Hrun. apply IH in Hrun as [?|[? ->]]; [left; assumption|right].
    apply andb_prop in Hgo as [_ Hle]. apply N.leb_le in Hle.
    split; [assumption|lia].
  - intros [= <- <-]. cbn [thread_alive now]. auto.
Qed.

Lemma on_message_connected c text :
  connected (snd (on_message c text))
  = connected c || existsb (fun t => is_ack (decode t)) (frame_of (Frame text)).
Proof.
  unfold on_message, frame_of.
  destruct (json_fault text) as [fault|]; [cbn; now rewrite orb_false_r|].
  cbn [existsb]. rewrite orb_false_r. unfold decode, is_ack.
  destruct (json_loads text) as [data|].
  - destruct (get data "type" JNull) as [t|e]; cbn [snd].
    + destruct (eq_str t "connected"); cbn; [now rewrite orb_true_r|now rewrite orb_false_r].
    + cbn. now rewrite orb_false_r.
  - cbn. now rewrite orb_false_r.
Qed.

Lemma dispatch_connected ev c :
  connected (dispatch ev c) = true ->
  connected c = true \/
  exists text, frame_of ev = [text] /\ is_ack (decode text) = true.
Proof.
  destruct ev as [|text|e|st msg]; cbn [dispatch frame_of].
  - unfold on_open, set_sock. destruct (ws c); cbn; auto.
  - pose proof (on_message_connected c text) as Hc. cbn [frame_of] in Hc.
    assert (Hgoal : connected (snd (on_message c text)) = true ->
              connected c = true \/
              exists text0,
                match json_fault text with Some _ => [] | None => [text] end
                = [text0] /\ is_ack (decode text0) = true).
    { rewrite Hc. intros Hor. apply orb_prop in Hor as [|Hack]; [auto|right].
      destruct (json_fault text); cbn [existsb] in Hack; [discriminate|].
      rewrite orb_false_r in Hack. eauto. }
    destruct (on_message c text) as [[u|e] c1]; exact Hgoal.
  - cbn. auto.
  - unfold on_close. cbn. discriminate.
Qed.

Lemma run_thread_connected ready lat script :
  forall budget c t alive c1 w1,
    run_thread ready budget c t alive lat script = (c1, w1) ->
    connected c1 = true ->
    connected c = true \/
    exists text, In text (frames script) /\ is_ack (decode text) = true.
Proof.
  induction script as [|[gap ev] rest IH]; intros budget c t alive c1 w1;
    cbn [run_thread]; destruct (ready c alive);
    try (intros [= <- <-]; auto; fail).
  destruct (alive && (gap <=? budget)%N).
  - intros Hrun Hc. eapply IH in Hrun; [|exact Hc].
    unfold frames. cbn [flat_map snd].
    destruct Hrun as [Hd|(text & Hin & Hack)].
    + apply dispatch_connected in Hd as [|(text & Hf & Hack)]; [auto|].
      right. exists text. rewrite Hf. split; [left; reflexivity|exact Hack].
    + right. exists text. split; [apply in_or_app; right; exact Hin|exact Hack].
  - intros [= <- <-]. auto.
Qed.

Lemma dispatch_connected_iff ev c :
  is_close ev = false ->
  (connected (dispatch ev c) = true <->
   connected c = true \/
   exists text, In text (frame_of ev) /\ is_ack (decode text) = true).
Proof.
  intros Hcl. split; [|intros Hor].
  - intros Hc. apply dispatch_connected in Hc as [|(text & Hf & Hack)]; [auto|].
    right. exists text. rewrite Hf. split; [left; reflexivity|exact Hack].
  - destruct ev as [|text|e|st msg]; cbn [dispatch frame_of] in *.
    + destruct Hor as [Hc|(text & [] & _)].
      unfold on_open, set_sock. destruct (ws c); exact Hc.
    + pose proof (on_message_connected c text) as Hc. cbn [frame_of] in Hc.
      assert (Hgoal : connected (snd (on_message c text)) = true).
      { rewrite Hc. destruct Hor as [->|(text0 & Hin & Hack)]; [reflexivity|].
        destruct (json_fault text); [contradiction|].
        destruct Hin as [<-|[]]. cbn [existsb]. rewrite Hack.
        apply orb_true_r. }
      destruct (on_message c text) as [[u|e] c1]; exact Hgoal.
    + destruct Hor as [Hc|(text & [] & _)]. exact Hc.
    + discriminate.
Qed.

Lemma run_thread_dead ready lat script budget c t c1 w1 :
  run_thread ready budget c t false lat script = (c1, w1) -> c1 = c.
Proof.
  destruct script as [|[gap ev] rest]; cbn [run_thread andb];
    destruct (ready c false); intros [= <- <-]; reflexivity.
Qed.

(** The wait for the flag ends with the flag set exactly when an
    acknowledgement comes within the time allowed. *)
Lemma run_thread_acked lat script :
  forall budget c t c1 w1,
    run_thread (fun c _ => connected c) budget c t true lat script = (c1, w1) ->
    (connected c1 = true <->
     connected c = true \/
     exists text,
       In text (arrivals (budget + 1) script) /\ is_ack (decode text) = true).
Proof.
  induction script as [|[gap ev] rest IH]; intros budget c t c1 w1;
    cbn [run_thread arrivals]; destruct (connected c) eqn:Hc;
    try (intros [= <- <-]; rewrite Hc; split; auto; fail).
  - intros [= <- <-]. rewrite Hc. split; [discriminate|].
    intros [|(text & [] & _)]; discriminate.
  - cbn [andb]. destruct (gap <=? budget)%N eqn:Hgb.
    + apply N.leb_le in Hgb.
      assert (Hlt : (gap <? budget + 1)%N = true) by (apply N.ltb_lt; lia).
      rewrite Hlt.
      replace (budget + 1 - gap)%N with (budget - gap + 1)%N by lia.
      destruct (is_close ev) eqn:Hcl; cbn [negb].
      * intros Hrun. apply run_thread_dead in Hrun. subst c1.
        destruct ev as [|text|e|st msg]; try discriminate.
        cbn [dispatch frame_of app]. unfold on_close. cbn [connected set_connected].
        split; [discriminate|]. intros [|(text & [] & _)]; discriminate.
      * intros Hrun. apply IH in Hrun. rewrite Hrun.
        rewrite (dispatch_connected_iff ev c Hcl), Hc. split.
        -- intros [[|(text & Hin & Hack)]|(text & Hin & Hack)];
             [discriminate| |]; right; exists text;
             (split; [apply in_or_app; auto|exact Hack]).
        -- intros [|(text & Hin & Hack)]; [discriminate|].
           apply in_app_or in Hin as [Hin|Hin]; [left; right|right]; eauto.
    + apply N.leb_gt in Hgb.
      assert (Hlt : (gap <? budget + 1)%N = false) by (apply N.ltb_ge; lia).
      rewrite Hlt. intros [= <- <-]. rewrite Hc. split; [discriminate|].
      intros [|(text & [] & _)]; discriminate.
Qed.

(** A wait that ends because its condition holds leaves the rest of the
    script as it was. *)
Lemma run_thread_suffix ready lat script :
  forall budget c t alive c1 w1,
    run_thread ready budget c t alive lat script = (c1, w1) ->
    ready c1 (thread_alive w1) = true ->
    exists handled, script = handled ++ pending w1.
Proof.
  induction script as [|[gap ev] rest IH]; intros budget c t alive c1 w1;
    cbn [run_thread]; destruct (ready c alive) eqn:Hr;
    try (intros [= <- <-] _; exists []; reflexivity).
  destruct (alive && (gap <=? budget)%N).
  - intros Hrun Hready. eapply IH in Hrun as [handled ->]; [|exact Hready].
    exists ((gap, ev) :: handled). reflexivity.
  - intros [= <- <-]. cbn [thread_alive]. congruence.
Qed.

Lemma dispatch_flag_kept ev c :
  is_close ev = false -> connected c = true -> connected (dispatch ev c) = true.
Proof.
  intros Hcl Hc. apply (dispatch_connected_iff ev c Hcl). left. exact Hc.
Qed.

(** While the thread runs on, the clock stands still, and only a [Close]
    clears the flag. *)
Lemma run_on_spec lat script :
  forall c t alive c1 w1,
    run_on c t alive lat script = (c1, w1) ->
    now w1 = t /\
    (connected c = true -> connected c1 = false ->
     exists gap st msg, In (gap, Close st msg) script).
Proof.
  induction script as [|[gap ev] rest IH]; intros c t alive c1 w1;
    cbn [run_on].
  - intros [= <- <-]. split; [reflexivity|congruence].
  - destruct (alive && (gap =? 0)%N).
    + intros Hrun. apply IH in Hrun as [Hnow Hflag]. split; [exact Hnow|].
      intros Hc Hc1. destruct (is_close ev) eqn:Hcl.
      * destruct ev as [|text|e|st msg]; try discriminate.
        exists gap, st, msg. left. reflexivity.
      * destruct (Hflag (dispatch_flag_kept ev c Hcl Hc) Hc1)
          as (g & st & msg & Hin).
        exists g, st, msg. right. exact Hin.
    + intros [= <- <-]. split; [reflexivity|congruence].
Qed.

(** C3, as the code has it.  Every [connect] ends in one of two ways, and
    which one is decided by the acknowledgement alone.  It returns [True]
    exactly when the flag was set already or a frame handed to the receive
    thread within ten seconds is an acknowledgement, and then within those
    ten seconds; otherwise it raises the connection-timeout exception,
    exactly ten seconds after it began and with the flag clear.  A refusal
    by the remote is no third way out.  When it returns [True] the flag was
    set when the wait ended, but it need not be set any more: it can be
    clear only if the remote closed the connection. *)
Theorem connect_returns_connected_or_times_out c w container_id :
  exists out c1 w1,
    connect c w container_id = (out, c1, w1) /\
    ((out = Ok true /\ acknowledged (10 * second) c w /\
      (now w <= now w1 <= now w + 10 * second)%N /\
      (is_connected c1 = false ->
       exists gap status msg, In (gap, Close status msg) (pending w)))
     \/
     (out = Raise (PyException "WebSocket连接超时") /\
      ~ acknowledged (10 * second) c w /\
      is_connected c1 = false /\ now w1 = (now w + 10 * second)%N)).
Proof.
  unfold connect, event_wait, block, acknowledged.
  cbn [now thread_alive pending close_latency].
  rewrite (N.mul_comm 10 second).
  destruct (run_thread _ _ _ _ _ _ _) as [c1 w1] eqn:Hrun.
  pose proof (run_thread_acked _ _ _ _ _ _ _ Hrun) as Hack.
  cbn [connected set_ws_thread set_ws] in Hack.
  pose proof (run_thread_clock _ _ _ _ _ _ _ _ _ Hrun) as Hclk.
  pose proof (run_thread_done _ _ _ _ _ _ _ _ _ Hrun) as Hdone.
  pose proof (run_thread_suffix _ _ _ _ _ _ _ _ _ Hrun) as Hsuf.
  cbn beta in Hdone, Hsuf.
  destruct (connected c1) eqn:Hc.
  - destruct (run_on _ _ _ _ _) as [c2 w2] eqn:Hon.
    apply run_on_spec in Hon as [Hnow Hflag].
    exists (Ok true), c2, w2. split; [reflexivity|]. left.
    split; [reflexivity|]. split; [apply Hack; reflexivity|].
    split; [rewrite Hnow; exact Hclk|].
    intros Hoff. destruct (Hflag Hc Hoff) as (gap & st & msg & Hin).
    destruct (Hsuf eq_refl) as [handled ->].
    exists gap, st, msg. apply in_or_app. right. exact Hin.
  - exists (Raise (PyException "WebSocket连接超时")), c1, w1.
    split; [reflexivity|]. right. split; [reflexivity|].
    split; [intros Hyes; apply Hack in Hyes; discriminate|].
    split; [exact Hc|]. destruct Hdone as [|[_ ->]]; [discriminate|reflexivity].
Qed.


(** ** [send_command] *)

(** C5, as the code has it.  [send_command] raises its not-connected
    exception exactly when there is no transport object, that is when
    [connect] was never called.  With a transport object it appends a
    newline to the command and writes the frame: it returns [True] with the
    frame written when the socket is open, and [False] with nothing changed
    when the write raises.  The connected flag plays no part. *)
Theorem send_command_needs_transport_object c command :
  (ws c = None ->
   send_command c command = (Raise (PyException "WebSocket未连接"), c)) /\
  (forall app, ws c = Some app -> sock_open app = true ->
     send_command c command =
       (Ok true,
        set_ws (Some (mkApp (url app) (keep_running app) true
                        (sent app ++ [input_frame command]))) c)) /\
  (forall app, ws c = Some app -> sock_open app = false ->
     send_command c command = (Ok false, c)) /\
  (forall flag,
     send_command (set_connected flag c) command =
       (fst (send_command c command),
        set_connected flag (snd (send_command c command)))).
Proof.
  unfold send_command, app_send, input_frame. repeat split.
  - intros ->. reflexivity.
  - intros app -> ->. reflexivity.
  - intros app -> ->. reflexivity.
  - intros flag. cbn [ws set_connected]. destruct (ws c) as [app|]; [|reflexivity].
    destruct (sock_open app); reflexivity.
Qed.

(** C10.  On a session whose transport object exists, a write that raises
    makes [send_command] return [False], session unchanged; the exception
    does not escape. *)
Theorem send_command_swallows_write_error c app command e :
  ws c = Some app ->
  app_send app (input_frame command) = Raise e ->
  send_command c command = (Ok false, c).
Proof.
  intros Hws Hsend. unfold send_command. rewrite Hws.
  fold (input_frame command). rewrite Hsend. reflexivity.
Qed.

(** ** The queue: drained before a command, filled in arrival order *)

(** C6.  [execute_command_and_wait] always returns, and it empties the
    queue before it writes the command: whatever was queued when the call
    began, the call ends exactly as it does on the same session with an
    empty queue, with the same result and in the same state.  What is left
    of the inbound stream afterwards is an end piece of the frames that
    arrived after the call began, and what the call collected are the
    true-valued Messages among the first stretch of those frames, in their
    order: no Message queued before the call is among them. *)
Theorem execute_discards_queued_messages c w q command expected timeout :
  exists out c1 w1 taken,
    execute_command_and_wait (set_messages q c) w command expected timeout
      = Some (out, c1, w1) /\
    execute_command_and_wait (set_messages [] c) w command expected timeout
      = Some (out, c1, w1) /\
    map decode (frames (pending w)) = taken ++ inbound c1 w1 /\
    (forall r, out = Ok r -> outputs r = filter truthy taken).
Proof.
  assert (Hd : drain (set_messages q c) = set_messages [] c)
    by (unfold drain; cbn; rewrite drained_nil; reflexivity).
  assert (Hd0 : drain (set_messages [] c) = set_messages [] c) by reflexivity.
  destruct (execute_returns (set_messages q c) w command expected timeout)
    as [[[out c1] w1] Hrun].
  assert (Hsame : execute_command_and_wait (set_messages [] c) w command
                    expected timeout = Some (out, c1, w1)).
  { rewrite <- Hrun. unfold execute_command_and_wait. rewrite Hd, Hd0.
    reflexivity. }
  assert (Htaken : exists taken,
            map decode (frames (pending w)) = taken ++ inbound c1 w1 /\
            (forall r, out = Ok r -> outputs r = filter truthy taken)).
  { revert Hrun. unfold execute_command_and_wait. rewrite Hd.
    pose proof (send_command_messages (set_messages [] c) command) as Hq.
    destruct (send_command (set_messages [] c) command) as [[[|]|e] c0];
      cbn [fst snd messages set_messages] in Hq.
    - destruct (wait_loop _ _ _ _ _ _ _) as [[[r c2] w2]|] eqn:Hloop;
        [|discriminate].
      apply wait_loop_spec in Hloop as (_ & taken & Hin & Hr).
      unfold inbound at 1 in Hin. rewrite Hq in Hin. cbn [app] in Hin.
      destruct r as [outs|e]; intros [= <- <- <-]; exists taken;
        (split; [exact Hin|]).
      + destruct Hr as (-> & _). intros r [= <-]. reflexivity.
      + intros r [=].
    - intros [= <- <- <-]. exists []. unfold inbound. rewrite Hq.
      split; [reflexivity|]. intros r [=].
    - intros [= <- <- <-]. exists []. unfold inbound. rewrite Hq.
      split; [reflexivity|]. intros r [=]. }
  destruct Htaken as (taken & Hin & Houts).
  exists out, c1, w1, taken. auto.
Qed.

Lemma run_thread_consumed ready lat script :
  forall budget c t alive c1 w1,
    run_thread ready budget c t alive lat script = (c1, w1) ->
    exists consumed,
      frames script = consumed ++ frames (pending w1) /\
      messages c1 = messages c ++ map decode consumed.
Proof.
  induction script as [|[gap ev] rest IH]; intros budget c t alive c1 w1;
    cbn [run_thread]; destruct (ready c alive);
    try (intros [= <- <-]; exists []; cbn; rewrite app_nil_r; auto; fail).
  destruct (alive && (gap <=? budget)%N).
  - intros Hrun. apply IH in Hrun as (consumed & Hscript & Hq).
    exists (frame_of ev ++ consumed). unfold frames in *. cbn [flat_map snd].
    rewrite Hscript, Hq, dispatch_messages, map_app, !app_assoc. auto.
  - intros [= <- <-]. exists []. cbn [pending app map]. rewrite app_nil_r.
    destruct alive; auto.
Qed.

Lemma get_output_head timeout c w m q :
  messages c = m :: q -> get_output timeout c w = (m, set_messages q c, w).
Proof.
  intros Hq. unfold get_output, queue_get, block.
  destruct (pending w) as [|[gap ev] rest] eqn:Hp; cbn [run_thread];
    unfold nonempty at 1; rewrite Hq; cbn [messages]; rewrite Hq;
    rewrite <- Hp; destruct w; reflexivity.
Qed.

Lemma texts_app a b : texts (a ++ b) = texts a ++ texts b.
Proof. unfold texts. apply flat_map_app. Qed.

Lemma queued_for_decode text :
  queued_for text = map decode (frame_of (Frame text)).
Proof.
  unfold queued_for, frame_of, decode, raw_message.
  destruct (json_fault text); [reflexivity|]. cbn [map].
  destruct (json_loads text); reflexivity.
Qed.

Lemma frames_queued script :
  map decode (frames script) = flat_map queued_for (texts script).
Proof.
  unfold frames, texts.
  induction script as [|[gap ev] rest IH]; [reflexivity|].
  cbn [flat_map snd]. rewrite map_app, flat_map_app, IH. f_equal.
  destruct ev as [|text|e|st msg]; cbn [frame_of flat_map map app];
    try reflexivity.
  rewrite app_nil_r. symmetry. apply queued_for_decode.
Qed.

Lemma run_thread_texts ready lat script :
  forall budget c t alive c1 w1,
    run_thread ready budget c t alive lat script = (c1, w1) ->
    exists handed,
      texts script = handed ++ texts (pending w1) /\
      messages c1 = messages c ++ flat_map queued_for handed.
Proof.
  induction script as [|[gap ev] rest IH]; intros budget c t alive c1 w1;
    cbn [run_thread]; destruct (ready c alive);
    try (intros [= <- <-]; exists []; cbn; rewrite app_nil_r; auto; fail).
  destruct (alive && (gap <=? budget)%N).
  - intros Hrun. apply IH in Hrun as (handed & Hscript & Hq).
    exists (texts [(gap, ev)] ++ handed).
    change ((gap, ev) :: rest) with ([(gap, ev)] ++ rest).
    rewrite texts_app, Hscript, Hq, dispatch_messages, flat_map_app, !app_assoc.
    split; [reflexivity|]. do 2 f_equal.
    destruct ev as [|text|e|st msg]; cbn [texts frame_of flat_map map snd app];
      try reflexivity.
    rewrite app_nil_r. symmetry. apply queued_for_decode.
  - intros [= <- <-]. exists []. cbn [pending app flat_map]. rewrite app_nil_r.
    destruct alive; auto.
Qed.

(** What the receive thread does with the frames it is handed.  A frame on
    which [json.loads] raises nothing but [JSONDecodeError] is appended to
    the end of the queue, once: the decoded value, or the dict of type raw
    that holds the text.  Over any stretch of the thread's run the queue
    grows by what the frames handed over leave, in arrival order.
    [get_output] takes the oldest Message, and what
    [execute_command_and_wait] collects follows the order of arrival. *)
Lemma receive_loop_enqueues_in_order :
  (forall c text,
     messages (dispatch (Frame text) c) = messages c ++ queued_for text) /\
  (forall text,
     json_fault text = None ->
     queued_for text
     = [match json_loads text with
        | Some data => data
        | None => JDict [("type"%string, JStr "raw"); ("data"%string, JStr text)]
        end]) /\
  (forall ready budget c t alive lat script c1 w1,
     run_thread ready budget c t alive lat script = (c1, w1) ->
     exists handed,
       texts script = handed ++ texts (pending w1) /\
       messages c1 = messages c ++ flat_map queued_for handed) /\
  (forall timeout c w m q,
     messages c = m :: q -> get_output timeout c w = (m, set_messages q c, w)) /\
  (forall c w command expected timeout r c1 w1,
     execute_command_and_wait c w command expected timeout = Some (Ok r, c1, w1) ->
     exists taken,
       flat_map queued_for (texts (pending w)) = taken ++ inbound c1 w1 /\
       outputs r = filter truthy taken).
Proof.
  split; [|split; [|split; [|split]]].
  - intros c text. rewrite dispatch_messages, queued_for_decode. reflexivity.
  - intros text Hf. unfold queued_for. rewrite Hf.
    destruct (json_loads text); reflexivity.
  - intros *. apply run_thread_texts.
  - intros *. apply get_output_head.
  - intros * Hrun. apply execute_spec in Hrun as (_ & _ & _ & Htaken).
    rewrite <- frames_queued. exact Htaken.
Qed.

(** C7, where the code falls short of it.  A frame on which [json.loads]
    raises an exception that is not a [JSONDecodeError] is dropped: the
    exception leaves [on_message] before anything is put, the library hands
    it to [on_error], and the queue is as it was.  The frame is in no later
    queue either: the thread goes on with the next event. *)
Theorem receive_loop_drops_frame_json_cannot_load c text e :
  json_fault text = Some e ->
  dispatch (Frame text) c = set_error (Some e) c /\
  messages (dispatch (Frame text) c) = messages c /\
  forall ready budget t lat rest,
    ready c true = false ->
    run_thread ready budget c t true lat ((0%N, Frame text) :: rest)
    = run_thread ready budget (set_error (Some e) c) t true lat rest.
Proof.
  intros Hf.
  assert (Hd : dispatch (Frame text) c = set_error (Some e) c).
  { cbn [dispatch]. unfold on_message. rewrite Hf. reflexivity. }
  split; [exact Hd|]. split; [rewrite Hd; reflexivity|].
  intros ready budget t lat rest Hr. cbn [run_thread]. rewrite Hr.
  cbn [andb is_close negb]. rewrite Hd, N.add_0_r, N.sub_0_r.
  destruct (0 <=? budget)%N eqn:E; [reflexivity|].
  apply N.leb_gt in E. lia.
Qed.


(** ** [close] *)

Lemma dispatch_keep_running ev c :
  option_map keep_running (ws (dispatch ev c)) = option_map keep_running (ws c).
Proof.
  destruct ev as [|text|e|st msg]; cbn [dispatch].
  - unfold on_open, set_sock. destruct (ws c) eqn:E; cbn; rewrite ?E; reflexivity.
  - unfold on_message.
    destruct (json_fault text) as [fault|]; [reflexivity|].
    destruct (json_loads text) as [data|]; [|reflexivity].
    destruct (get data "type" JNull) as [t|e]; [|reflexivity].
    destruct (eq_str t "connected"); reflexivity.
  - reflexivity.
  - unfold on_close, set_sock. destruct (ws c) eqn:E; cbn; rewrite ?E; reflexivity.
Qed.

Lemma dispatch_close_socket st msg c app :
  ws (dispatch (Close st msg) c) = Some app -> sock_open app = false.
Proof.
  cbn [dispatch]. unfold on_close, set_sock.
  destruct (ws c) eqn:E; cbn; rewrite ?E; [intros [= <-]; reflexivity|discriminate].
Qed.

(** What a stretch of the receive thread's run leaves of the transport:
    [keep_running] as it was; and if the thread has ended, either it had
    ended before, or the last thing it did was to run [on_close]. *)
Lemma run_thread_ended ready lat script :
  forall budget c t alive c1 w1,
    run_thread ready budget c t alive lat script = (c1, w1) ->
    option_map keep_running (ws c1) = option_map keep_running (ws c) /\
    (thread_alive w1 = false ->
     (alive = false /\ c1 = c) \/
     (connected c1 = false /\
      forall app, ws c1 = Some app -> sock_open app = false)).
Proof.
  induction script as [|[gap ev] rest IH]; intros budget c t alive c1 w1;
    cbn [run_thread]; destruct (ready c alive);
    try (intros [= <- <-]; cbn [thread_alive]; split; [reflexivity|auto]; fail).
  destruct alive; cbn [andb].
  - destruct (gap <=? budget)%N.
    + intros Hrun. apply IH in Hrun as [Hkeep Hdead].
      split; [rewrite Hkeep; apply dispatch_keep_running|].
      intros Hw. right. destruct (Hdead Hw) as [[Hclose ->]|Hc]; [|exact Hc].
      destruct ev as [| | |st msg]; try discriminate. split; [reflexivity|].
      apply dispatch_close_socket.
    + intros [= <- <-]. cbn [thread_alive]. split; [reflexivity|discriminate].
  - intros [= <- <-]. cbn [thread_alive]. split; [reflexivity|auto].
Qed.

(** A session on which [close] has done its part: [keep_running] is off,
    and once the receive thread has ended the flag is clear and the socket
    is shut. *)
Record quiet (c : WebSocketClient) (w : World) : Prop := {
  quiet_flag : thread_alive w = false -> connected c = false;
  quiet_socket :
    thread_alive w = false ->
    forall app, ws c = Some app -> sock_open app = false;
  quiet_keep : forall app, ws c = Some app -> keep_running app = false
}.

Lemma quiet_run ready lat script budget c w0 t c1 w1 :
  quiet c w0 ->
  run_thread ready budget c t (thread_alive w0) lat script = (c1, w1) ->
  quiet c1 w1.
Proof.
  intros [Hflag Hsock Hkeep] Hrun.
  apply run_thread_ended in Hrun as [Hk Hdead]. constructor.
  - intros Hw. destruct (Hdead Hw) as [[Hal ->]|[Hc _]]; [auto|exact Hc].
  - intros Hw. destruct (Hdead Hw) as [[Hal ->]|[_ Hs]]; [auto|exact Hs].
  - intros app Happ. rewrite Happ in Hk. cbn [option_map] in Hk.
    destruct (ws c) as [app0|]; [|discriminate].
    injection Hk as Hk. rewrite Hk. apply Hkeep. reflexivity.
Qed.

Lemma quiet_closed c w :
  quiet c w -> thread_alive w = false ->
  closed c w /\ forall handshake, close handshake c w = Some (Ok tt, c, w).
Proof.
  intros [Hflag Hsock Hkeep] Hw. split.
  - split; [apply Hflag, Hw|]. split; [exact Hw|apply Hsock, Hw].
  - intros handshake. unfold close, app_close, join_thread, tear_down.
    destruct (ws c) as [app|] eqn:Hws.
    + rewrite (Hkeep app eq_refl), (Hsock Hw app eq_refl). cbn [andb].
      rewrite Hw, andb_false_r.
      assert (Hk := Hkeep app eq_refl). assert (Hs := Hsock Hw app eq_refl).
      destruct c as [b a q f e th]; destruct app as [u k so se];
        cbn in *; subst; reflexivity.
    + rewrite Hw, andb_false_r. reflexivity.
Qed.

Lemma app_close_spec delay app c w :
  ws c = Some app -> session_inv c w ->
  exists c1 w1,
    app_close (Some delay) app c w = Some (c1, w1) /\
    quiet c1 w1 /\ (now w <= now w1 <= now w + delay)%N.
Proof.
  intros Hws Hinv. unfold app_close.
  assert (Hq : quiet (set_ws (Some (shut_down app)) c) (tear_down app w)).
  { constructor.
    - unfold tear_down.
      destruct (keep_running app && thread_alive w); [discriminate|exact Hinv].
    - intros _ app' [= <-]. reflexivity.
    - intros app' [= <-]. reflexivity. }
  assert (Hnow : now (tear_down app w) = now w)
    by (unfold tear_down; destruct (keep_running app && thread_alive w);
        reflexivity).
  destruct (sock_open app).
  - destruct (run_thread _ _ _ _ _ _ _) as [c1 w1] eqn:Hrun.
    exists c1, w1. split; [reflexivity|].
    split; [exact (quiet_run _ _ _ _ _ _ _ _ _ Hq Hrun)|].
    apply run_thread_clock in Hrun. rewrite Hnow in Hrun. exact Hrun.
  - eexists; eexists. split; [reflexivity|]. split; [exact Hq|].
    rewrite Hnow. lia.
Qed.

Lemma join_thread_spec c w c1 w1 :
  quiet c w -> join_thread c w = (c1, w1) ->
  quiet c1 w1 /\ (now w <= now w1 <= now w + 5 * second)%N.
Proof.
  intros Hq. unfold join_thread, thread_join, block.
  destruct (ws_thread c && thread_alive w).
  - intros Hrun. split; [exact (quiet_run _ _ _ _ _ _ _ _ _ Hq Hrun)|].
    apply run_thread_clock in Hrun. lia.
  - intros [= <- <-]. split; [exact Hq|lia].
Qed.

Lemma close_spec delay c w :
  session_inv c w ->
  exists c1 w1,
    close (Some delay) c w = Some (Ok tt, c1, w1) /\
    quiet c1 w1 /\ (now w <= now w1 <= now w + delay + 5 * second)%N.
Proof.
  intros Hinv. unfold close. destruct (ws c) as [app|] eqn:Hws.
  - destruct (app_close_spec delay app c w Hws Hinv)
      as (c1 & w1 & -> & Hq & Hclk).
    destruct (join_thread c1 w1) as [c2 w2] eqn:Hj.
    apply (join_thread_spec _ _ _ _ Hq) in Hj as [Hq2 Hclk2].
    exists c2, w2. split; [reflexivity|]. split; [exact Hq2|lia].
  - assert (Hq : quiet c w).
    { constructor; [exact Hinv| |]; intros; congruence. }
    destruct (join_thread c w) as [c2 w2] eqn:Hj.
    apply (join_thread_spec _ _ _ _ Hq) in Hj as [Hq2 Hclk2].
    exists c2, w2. split; [reflexivity|]. split; [exact Hq2|lia].
Qed.

Lemma close_within_bound delay c w app c1 w1 r :
  close (Some delay) c w = Some (r, c1, w1) ->
  ws c = Some app -> keep_running app = true -> ws_thread c = true ->
  thread_alive w = true -> (close_latency w <= 5 * second)%N ->
  thread_alive w1 = false.
Proof.
  unfold close, app_close. intros Hclose Hws Hkeep Hth Hal Hlat. revert Hclose.
  rewrite Hws. unfold tear_down. rewrite Hkeep, Hal. cbn [andb].
  cbn [now thread_alive close_latency pending].
  assert (Hle : forall spent,
            (close_latency w - spent <=? second * 5)%N = true)
    by (intros spent; apply N.leb_le; unfold second in *; lia).
  destruct (sock_open app).
  - cbn [run_thread andb].
    destruct (close_latency w <=? delay)%N.
    + cbn [is_close negb run_thread]. unfold join_thread.
      cbn [thread_alive]. rewrite andb_false_r.
      intros [= _ _ <-]. reflexivity.
    + unfold join_thread. cbn [ws_thread set_ws thread_alive]. rewrite Hth.
      cbn [andb]. unfold thread_join, block.
      cbn [now thread_alive close_latency pending run_thread negb andb].
      rewrite Hle. cbn [is_close negb]. intros [= _ _ <-]. reflexivity.
  - unfold join_thread. cbn [ws_thread set_ws thread_alive]. rewrite Hth.
    cbn [andb]. unfold thread_join, block.
    cbn [now thread_alive close_latency pending run_thread negb andb].
    specialize (Hle 0%N). rewrite N.sub_0_r in Hle.
    rewrite Hle. cbn [is_close negb]. intros [= _ _ <-]. reflexivity.
Qed.

(** C8, as the code has it.  [close] returns only if the library's own
    close does.  On a session whose receive thread clears the flag before it
    ends, and with a library close that comes back, two [close] calls in a
    row both complete without error, each within five seconds of the
    library's close coming back.  If the receive thread has ended when the
    first returns, the session is closed then, and a further [close] changes
    nothing and takes no time, whatever the library would do; the same
    holds of the second call by itself.  The thread has ended when the first
    call returns if the library tears the connection down within the five
    seconds [close] is prepared to wait.  With the socket connected and a
    library close that never lets go, [close] does not return. *)
Theorem close_twice c w delay again :
  session_inv c w ->
  exists c1 w1 c2 w2,
    close (Some delay) c w = Some (Ok tt, c1, w1) /\
    close (Some again) c1 w1 = Some (Ok tt, c2, w2) /\
    (now w <= now w1 <= now w + delay + 5 * second)%N /\
    (now w1 <= now w2 <= now w1 + again + 5 * second)%N /\
    (thread_alive w1 = false ->
     closed c1 w1 /\ c2 = c1 /\ w2 = w1 /\
     close None c1 w1 = Some (Ok tt, c1, w1)) /\
    (thread_alive w2 = false -> closed c2 w2) /\
    (forall app,
       ws c = Some app -> keep_running app = true -> ws_thread c = true ->
       thread_alive w = true -> (close_latency w <= 5 * second)%N ->
       thread_alive w1 = false) /\
    (forall app,
       ws c = Some app -> sock_open app = true -> close None c w = None).
Proof.
  intros Hinv.
  destruct (close_spec delay c w Hinv) as (c1 & w1 & Hfirst & Hq1 & Hclk1).
  assert (Hinv1 : session_inv c1 w1) by (exact (quiet_flag _ _ Hq1)).
  destruct (close_spec again c1 w1 Hinv1) as (c2 & w2 & Hsecond & Hq2 & Hclk2).
  exists c1, w1, c2, w2. split; [exact Hfirst|]. split; [exact Hsecond|].
  split; [exact Hclk1|]. split; [exact Hclk2|]. split; [|split; [|split]].
  - intros Hw. destruct (quiet_closed _ _ Hq1 Hw) as [Hc Hsame].
    split; [exact Hc|].
    rewrite Hsame in Hsecond. injection Hsecond as <- <-.
    split; [reflexivity|]. split; [reflexivity|apply Hsame].
  - intros Hw. apply (quiet_closed _ _ Hq2 Hw).
  - intros app. eapply close_within_bound. exact Hfirst.
  - intros app Hws Hopen. unfold close, app_close. rewrite Hws, Hopen.
    reflexivity.
Qed.

(** [session_inv] holds of every session the methods produce. *)
Lemma run_thread_inv ready lat script :
  forall budget c t alive c1 w1,
    (alive = false -> connected c = false) ->
    run_thread ready budget c t alive lat script = (c1, w1) ->
    session_inv c1 w1.
Proof.
  induction script as [|[gap ev] rest IH]; intros budget c t alive c1 w1 Hinv;
    cbn [run_thread]; destruct (ready c alive);
    try (intros [= <- <-]; exact Hinv).
  destruct (alive && (gap <=? budget)%N).
  - apply IH. destruct ev; try discriminate. reflexivity.
  - intros [= <- <-]. exact Hinv.
Qed.

Lemma run_on_inv lat script :
  forall c t alive c1 w1,
    (alive = false -> connected c = false) ->
    run_on c t alive lat script = (c1, w1) ->
    session_inv c1 w1.
Proof.
  induction script as [|[gap ev] rest IH]; intros c t alive c1 w1 Hinv;
    cbn [run_on]; try (intros [= <- <-]; exact Hinv).
  destruct (alive && (gap =? 0)%N).
  - apply IH. destruct ev; try discriminate. reflexivity.
  - intros [= <- <-]. exact Hinv.
Qed.

Lemma connect_inv c w container_id :
  session_inv (snd (fst (connect c w container_id))) (snd (connect c w container_id)).
Proof.
  unfold connect, event_wait, block. cbn [now thread_alive pending close_latency].
  destruct (run_thread _ _ _ _ _ _ _) as [c1 w1] eqn:Hrun.
  apply run_thread_inv in Hrun; [|discriminate].
  destruct (connected c1); [|exact Hrun].
  destruct (run_on _ _ _ _ _) as [c2 w2] eqn:Hon.
  apply run_on_inv in Hon; [exact Hon|exact Hrun].
Qed.

End Facts.

(** ** Runs against the sample runtime *)

#[local] Existing Instance Sample.sample_runtime.

Example connect_accepted :
  connect fresh (accepting 0) "sql"
  = (Ok true, connected_client, after_connect [] 0).
Proof. reflexivity. Qed.

(** The expected text arrives after 100 ms: the call stops there.  The
    acknowledgement that [connect] left in the queue is not among the
    outputs. *)
Example execute_stops_on_match :
  exists c1,
    execute_command_and_wait connected_client (answering "bar") "echo bar"
      (Some "bar"%string) 2
    = Some (Ok (mkExecution "echo bar" [raw_message "bar"] true), c1,
            mkWorld 200 true [] 0).
Proof. eexists. vm_compute. reflexivity. Qed.

(** Nothing arrives: the call gives up once two seconds have passed. *)
Example execute_times_out :
  exists c1,
    execute_command_and_wait connected_client (after_connect [] 0) "sleep 9"
      None 2
    = Some (Ok (mkExecution "sleep 9" [] false), c1, mkWorld 2100 true [] 0).
Proof. eexists. vm_compute. reflexivity. Qed.

(** C1, counterexample: on a connected session the remote answers [bar]
    while [foo] is expected.  The wait runs to its deadline, no collected
    Message contains [foo], and the call still reports success. *)
Lemma execute_success_without_match :
  exists r c1 w1,
    execute_command_and_wait connected_client (answering "bar") "echo bar"
      (Some "foo"%string) 2 = Some (Ok r, c1, w1) /\
    is_connected connected_client = true /\
    outputs r = [raw_message "bar"] /\
    existsb (matches "foo") (outputs r) = false /\
    success r = true.
Proof.
  eexists; eexists; eexists. split; [vm_compute; reflexivity|].
  repeat split.
Qed.


(** C3, counterexample: the remote refuses the resource id after 100 ms
    ([on_error], then [on_close]).  [connect] goes on waiting and raises, ten
    seconds after it began, the very exception it raises against a remote
    that never answers. *)
Lemma connect_refused_raises_timeout :
  exists c1 w1,
    connect fresh refusing "non-existent-container"
    = (Raise (PyException "WebSocket连接超时"), c1, w1) /\
    error c1 = Some (PyException "Handshake status 404 Not Found") /\
    thread_alive w1 = false /\
    now w1 = 10000%N /\
    fst (fst (connect fresh silent "non-existent-container"))
    = Raise (PyException "WebSocket连接超时").
Proof.
  eexists; eexists. split; [vm_compute; reflexivity|].
  repeat split.
Qed.

(** C5, counterexample: after the remote closed the connection the session
    is not connected, and [send_command] does not raise: it returns
    [False]. *)
Lemma send_command_on_closed_session_returns_false :
  is_connected closed_by_remote = false /\
  send_command closed_by_remote "ls" = (Ok false, closed_by_remote).
Proof. split; reflexivity. Qed.

(** On the connected session the frame is written, newline appended. *)
Example send_command_writes_frame :
  exists app,
    send_command connected_client "ls" = (Ok true, set_ws (Some app) connected_client) /\
    sent app = [input_frame "ls"] /\
    input_frame "ls"
    = ("{" ++ Sample.quoted "type" ++ ": " ++ Sample.quoted "input" ++ ", "
        ++ Sample.quoted "data" ++ ": " ++ Sample.quoted "ls\n" ++ "}")%string.
Proof. eexists. repeat split. Qed.

(** C10, witness: the transport of the closed session exists and its write
    raises. *)
Lemma send_command_swallows_write_error_witness :
  ws closed_by_remote = Some closed_app /\
  app_send closed_app (input_frame "ls") = Raise WebSocketConnectionClosedException /\
  send_command closed_by_remote "ls" = (Ok false, closed_by_remote).
Proof.
  split; [reflexivity|]. split; [reflexivity|].
  apply (send_command_swallows_write_error closed_by_remote closed_app "ls"
           WebSocketConnectionClosedException); reflexivity.
Defined.

(** C7, witness: the acknowledged session is handed a text nested too deep
    for [json.loads]. *)
Lemma receive_loop_drops_frame_json_cannot_load_witness :
  json_fault Sample.nested_text = Some RecursionError /\
  dispatch (Frame Sample.nested_text) connected_client
  = set_error (Some RecursionError) connected_client /\
  messages (dispatch (Frame Sample.nested_text) connected_client)
  = messages connected_client /\
  forall ready budget t lat rest,
    ready connected_client true = false ->
    run_thread ready budget connected_client t true lat
      ((0%N, Frame Sample.nested_text) :: rest)
    = run_thread ready budget
        (set_error (Some RecursionError) connected_client) t true lat rest.
Proof.
  assert (Hfault : json_fault Sample.nested_text = Some RecursionError)
    by (vm_compute; reflexivity).
  split; [exact Hfault|].
  exact (receive_loop_drops_frame_json_cannot_load connected_client
           Sample.nested_text RecursionError Hfault).
Defined.

(** The frame is lost and the next one is not: the queue holds the
    acknowledgement and the frame that followed, and the error is kept. *)
Example receive_loop_goes_on_after_drop :
  let c := dispatch (Frame "ready")
             (dispatch (Frame Sample.nested_text) connected_client) in
  messages c = [JDict [("type"%string, JStr "connected")];
                JDict [("type"%string, JStr "raw");
                       ("data"%string, JStr "ready")]] /\
  error c = Some RecursionError.
Proof. vm_compute. split; reflexivity. Qed.

(** C8, counterexample: the peer does not answer the close frame, so the
    library's close keeps the caller its three seconds, and the receive
    thread needs nine seconds to tear the connection down.  The first
    [close] returns when its join gives up, eight seconds after it began:
    the thread is still alive and the session still reports itself
    connected. *)
Lemma close_returns_before_session_closed :
  exists c1 w1,
    close (Some 3000%N) connected_client (after_connect [] 9000)
    = Some (Ok tt, c1, w1) /\
    is_connected c1 = true /\
    thread_alive w1 = true /\
    now w1 = 8100%N.
Proof.
  eexists; eexists. split; [vm_compute; reflexivity|]. repeat split.
Qed.

(** C8, witness: the connected session, with a peer that answers the close
    frame after 40 ms and a library that tears down at once. *)
Lemma close_twice_witness :
  session_inv connected_client (after_connect [] 0) /\
  exists c1 w1 c2 w2,
    close (Some 40%N) connected_client (after_connect [] 0)
    = Some (Ok tt, c1, w1) /\
    close (Some 40%N) c1 w1 = Some (Ok tt, c2, w2) /\
    (now (after_connect [] 0) <= now w1
       <= now (after_connect [] 0) + 40 + 5 * second)%N /\
    (now w1 <= now w2 <= now w1 + 40 + 5 * second)%N /\
    (thread_alive w1 = false ->
     closed c1 w1 /\ c2 = c1 /\ w2 = w1 /\
     close None c1 w1 = Some (Ok tt, c1, w1)) /\
    (thread_alive w2 = false -> closed c2 w2) /\
    (forall app,
       ws connected_client = Some app -> keep_running app = true ->
       ws_thread connected_client = true ->
       thread_alive (after_connect [] 0) = true ->
       (close_latency (after_connect [] 0) <= 5 * second)%N ->
       thread_alive w1 = false) /\
    (forall app,
       ws connected_client = Some app -> sock_open app = true ->
       close None connected_client (after_connect [] 0) = None).
Proof.
  assert (Hinv : session_inv connected_client (after_connect [] 0))
    by (intros Hdead; discriminate Hdead).
  split; [exact Hinv|].
  apply (close_twice connected_client (after_connect [] 0) 40 40 Hinv).
Defined.

(** The same two calls, run: the flag is cleared during the first, which
    takes the 40 ms of the handshake; the second takes no time. *)
Example close_twice_run :
  exists c1 w1,
    close (Some 40%N) connected_client (after_connect [] 0)
    = Some (Ok tt, c1, w1) /\
    close (Some 40%N) c1 w1 = Some (Ok tt, c1, w1) /\
    is_connected c1 = false /\ thread_alive w1 = false /\ now w1 = 140%N.
Proof. eexists; eexists. repeat split. Qed.

(** A library close that never lets go of the caller: [close] does not
    return. *)
Example close_blocked :
  close None connected_client (after_connect [] 0) = None.
Proof. reflexivity. Qed.

(** The remote acknowledges and closes at once: [connect] returns [True],
    and the session it returns is not connected. *)
Example connect_acknowledged_then_closed :
  exists c1 w1,
    connect fresh acknowledging_then_closing "sql" = (Ok true, c1, w1) /\
    is_connected c1 = false /\ thread_alive w1 = false.
Proof. eexists; eexists. repeat split. Qed.

End SessionSpec.

(* ================================================================== *)
(** * Properties of the control client *)
(* ================================================================== *)

Module ControlSpec.
Import Py Control Clock.
Section Facts.
Context `{Runtime}.

Lemma next_poll_later api server container_id t :
  (t + second <= next_poll api server container_id t)%N.
Proof.
  unfold next_poll, poll, get_container_status.
  destruct (server _ t) as [latency [response|e]]; cbn [snd].
  - destruct (raise_for_status response); cbn [snd].
    + destruct (response_json response) as [status|e]; cbn [snd].
      * destruct (get status "status" JNull); cbn [snd]; lia.
      * lia.
    + lia.
  - lia.
Qed.

Lemma poll_time_later api server container_id k :
  forall t, (t <= poll_time api server container_id t k)%N.
Proof.
  induction k as [|k IH]; intros t; cbn [poll_time]; [lia|].
  pose proof (next_poll_later api server container_id t).
  pose proof (IH (next_poll api server container_id t)). lia.
Qed.

Lemma ready_loop_spec api server container_id start timeout fuel :
  forall t,
    (start <= t)%N ->
    (steps_left (t - start) timeout < fuel)%nat ->
    exists b t1,
      ready_loop fuel api server container_id start timeout t = Some (Ok b, t1) /\
      (t <= t1)%N /\
      (b = true <->
       exists k,
         (Z.of_N (poll_time api server container_id t k - start)
            < timeout * Z.of_N second)%Z /\
         observes_running api server container_id
           (poll_time api server container_id t k) = true).
Proof.
  induction fuel as [|fuel IH]; intros t Hstart Hfuel; [lia|].
  cbn [ready_loop].
  destruct (Z.of_N (t - start) <? timeout * Z.of_N second)%Z eqn:Hcond.
  - apply Z.ltb_lt in Hcond.
    pose proof (next_poll_later api server container_id t) as Hnext.
    assert (Hrec :
      fst (poll api server container_id t) <> Ok true ->
      exists b t1,
        ready_loop fuel api server container_id start timeout
          (snd (poll api server container_id t) + 1 * second) = Some (Ok b, t1) /\
        (t <= t1)%N /\
        (b = true <->
         exists k,
           (Z.of_N (poll_time api server container_id t k - start)
              < timeout * Z.of_N second)%Z /\
           observes_running api server container_id
             (poll_time api server container_id t k) = true)).
    { intros Hnot. fold (next_poll api server container_id t).
      destruct (IH (next_poll api server container_id t)) as (b & t1 & Hloop & Hle & Hiff).
      - lia.
      - pose proof (steps_left_step (t - start)
                      (next_poll api server container_id t - start) timeout Hcond
                      ltac:(lia)). lia.
      - exists b, t1. split; [exact Hloop|]. split; [lia|].
        rewrite Hiff. split.
        + intros (k & Hk). exists (S k). exact Hk.
        + intros ([|k] & Ht & Hrun).
          * cbn [poll_time] in Hrun. unfold observes_running in Hrun.
            destruct (fst (poll api server container_id t)) as [[|]|];
              congruence.
          * exists k. split; assumption. }
    destruct (poll api server container_id t) as [[[|]|e] t2] eqn:Hpoll;
      cbn [fst snd] in Hrec.
    + exists true, t2. split; [reflexivity|]. split.
      * unfold next_poll in Hnext. rewrite Hpoll in Hnext. cbn [snd] in Hnext.
        unfold second in *. lia.
      * split; [|reflexivity]. intros _. exists 0%nat. cbn [poll_time].
        split; [exact Hcond|]. unfold observes_running. rewrite Hpoll. reflexivity.
    + apply Hrec. discriminate.
    + apply Hrec. discriminate.
  - apply Z.ltb_ge in Hcond. exists false, t. split; [reflexivity|].
    split; [lia|]. split; [discriminate|].
    intros (k & Ht & _).
    pose proof (poll_time_later api server container_id k t). lia.
Qed.

Lemma observes_reported api server container_id t :
  observes_running api server container_id t
  = reports_running (snd (server (status_url api container_id) t)).
Proof.
  unfold observes_running, poll, get_container_status, status_url,
    reports_running, raise_for_status, response_json.
  destruct (server _ t) as [latency [response|e]]; cbn [fst snd]; [|reflexivity].
  destruct ((400 <=? status_code response) && (status_code response <? 600))%Z;
    cbn [fst negb andb]; [reflexivity|].
  destruct (json_fault (text response)); cbn [fst]; [reflexivity|].
  destruct (json_loads (text response)) as [[| | | | | |members]|]; cbn [fst get];
    try reflexivity.
  destruct (dict_lookup "status" members) as [[| | | |status| |]|];
    cbn [fst eq_str]; try reflexivity.
  destruct (String.eqb status "running"); reflexivity.
Qed.

Lemma next_poll_answered api server container_id t :
  next_poll api server container_id t
  = (answered_at api server container_id t + 1 * second)%N.
Proof.
  unfold next_poll, answered_at, poll, get_container_status, status_url.
  destruct (server _ t) as [latency [response|e]]; cbn [fst snd]; [|reflexivity].
  destruct (raise_for_status response); cbn [snd]; [|reflexivity].
  destruct (response_json response) as [status|e]; cbn [snd]; [|reflexivity].
  destruct (get status "status" JNull); reflexivity.
Qed.

Lemma poll_time_issued api server container_id k :
  forall t,
    poll_time api server container_id t k
    = issued_at api server container_id t k.
Proof.
  induction k as [|k IH]; intros t; [reflexivity|].
  cbn [poll_time issued_at]. rewrite next_poll_answered. apply IH.
Qed.

(** When a loop that starts polling at [t] inside its deadline returns
    [True], it does so with the answer to the first request that is answered
    with the container running. *)
Lemma ready_loop_returns_at api server container_id start timeout fuel :
  forall t t1,
    ready_loop fuel api server container_id start timeout t = Some (Ok true, t1) ->
    exists k,
      reports_running
        (snd (server (status_url api container_id)
                (issued_at api server container_id t k))) = true /\
      t1 = answered_at api server container_id
             (issued_at api server container_id t k) /\
      (forall j, (j < k)%nat ->
         reports_running
           (snd (server (status_url api container_id)
                   (issued_at api server container_id t j))) = false).
Proof.
  induction fuel as [|fuel IH]; intros t t1; [discriminate|].
  cbn [ready_loop].
  destruct (Z.of_N (t - start) <? timeout * Z.of_N second)%Z; [|discriminate].
  pose proof (observes_reported api server container_id t) as Hobs.
  pose proof (next_poll_answered api server container_id t) as Hnext.
  unfold observes_running, next_poll in *.
  assert (Hanswer : snd (poll api server container_id t)
                    = answered_at api server container_id t).
  { unfold answered_at, poll, get_container_status, status_url.
    destruct (server _ t) as [latency [response|e]]; cbn [fst snd];
      [|reflexivity].
    destruct (raise_for_status response); cbn [snd]; [|reflexivity].
    destruct (response_json response) as [status|e]; cbn [snd]; [|reflexivity].
    destruct (get status "status" JNull); reflexivity. }
  assert (Hrec :
    reports_running (snd (server (status_url api container_id) t)) = false ->
    ready_loop fuel api server container_id start timeout
      (snd (poll api server container_id t) + 1 * second) = Some (Ok true, t1) ->
    exists k,
      reports_running
        (snd (server (status_url api container_id)
                (issued_at api server container_id t k))) = true /\
      t1 = answered_at api server container_id
             (issued_at api server container_id t k) /\
      (forall j, (j < k)%nat ->
         reports_running
           (snd (server (status_url api container_id)
                   (issued_at api server container_id t j))) = false)).
  { intros Hno Hloop. rewrite Hanswer in Hloop.
    apply IH in Hloop as (k & Hyes & Ht1 & Hbefore).
    exists (S k). cbn [issued_at]. split; [exact Hyes|]. split; [exact Ht1|].
    intros [|j] Hj; [exact Hno|]. cbn [issued_at]. apply Hbefore. lia. }
  destruct (poll api server container_id t) as [[[|]|e] t2];
    cbn [fst snd] in *.
  - intros [= <-]. exists 0%nat. cbn [issued_at].
    split; [symmetry; exact Hobs|]. split; [exact Hanswer|]. intros j Hj. lia.
  - apply Hrec. symmetry. exact Hobs.
  - apply Hrec. symmetry. exact Hobs.
Qed.

(** C4, as the code has it.  [wait_for_container_ready] always returns a
    boolean and never raises.  It returns [True] exactly when one of its
    status requests, issued while strictly less than [timeout] seconds have
    elapsed since the call began, is answered with the container running;
    every other answer, failures of any kind among them, counts as not yet
    running, and the next request is issued a second after it.  It then
    returns when that answer is there, which can be after the timeout: the
    deadline is tested when a request is issued, and a request has no time
    limit. *)
Theorem wait_for_container_ready_polls_until_deadline
  api server container_id timeout t :
  exists b t1,
    wait_for_container_ready api server container_id timeout t = Some (Ok b, t1) /\
    (b = true <->
     exists k,
       (Z.of_N (issued_at api server container_id t k - t)
          < timeout * Z.of_N second)%Z /\
       reports_running
         (snd (server (status_url api container_id)
                 (issued_at api server container_id t k))) = true) /\
    (b = true ->
     exists k,
       (Z.of_N (issued_at api server container_id t k - t)
          < timeout * Z.of_N second)%Z /\
       reports_running
         (snd (server (status_url api container_id)
                 (issued_at api server container_id t k))) = true /\
       t1 = answered_at api server container_id
              (issued_at api server container_id t k)).
Proof.
  destruct (ready_loop_spec api server container_id t timeout
              (S (Z.to_nat timeout)) t) as (b & t1 & Hloop & _ & Hiff).
  - lia.
  - rewrite N.sub_diag, steps_left_start. lia.
  - exists b, t1. split; [exact Hloop|].
    assert (Hiff' : b = true <->
       exists k,
         (Z.of_N (issued_at api server container_id t k - t)
            < timeout * Z.of_N second)%Z /\
         reports_running
           (snd (server (status_url api container_id)
                   (issued_at api server container_id t k))) = true).
    { rewrite Hiff. split; intros (k & Hk & Hrun); exists k.
      - rewrite <- poll_time_issued, <- observes_reported. auto.
      - rewrite poll_time_issued, observes_reported. auto. }
    split; [exact Hiff'|].
    intros ->. destruct (proj1 Hiff' eq_refl) as (k & Hk & Hrun).
    apply ready_loop_returns_at in Hloop as (k0 & Hyes & Ht1 & Hbefore).
    exists k0. split; [|split; [exact Hyes|exact Ht1]].
    destruct (Nat.le_gt_cases k0 k) as [Hle|Hgt].
    + assert (Hmono : (issued_at api server container_id t k0
                       <= issued_at api server container_id t k)%N).
      { clear - Hle. revert t. induction Hle as [|k Hle IH]; intros t; [lia|].
        specialize (IH t). etransitivity; [exact IH|].
        clear. revert t. induction k as [|k IHk]; intros t.
        - cbn [issued_at]. unfold answered_at. lia.
        - cbn [issued_at]. apply IHk. }
      lia.
    + rewrite (Hbefore k Hgt) in Hrun. discriminate.
Qed.

End Facts.

#[local] Existing Instance Sample.sample_runtime.

(** The container runs from 2.5 s on: the poll issued at 3060 ms sees it. *)
Example ready_in_time :
  wait_for_container_ready api (starting_until 2500) "sql" 30 0
  = Some (Ok true, 3080%N).
Proof. vm_compute. reflexivity. Qed.

(** Three polls fail, each in its own way; the loop polls on and sees the
    container running. *)
Example ready_despite_failed_polls :
  wait_for_container_ready api (flaky_until 3500) "sql" 30 0
  = Some (Ok true, 4100%N).
Proof. vm_compute. reflexivity. Qed.

(** The container is not running within the three seconds allowed. *)
Example not_ready_in_time :
  wait_for_container_ready api (starting_until 5000) "sql" 3 0
  = Some (Ok false, 3060%N).
Proof. vm_compute. reflexivity. Qed.

(** C4, counterexample: the container is running, and every answer takes
    five seconds.  With three seconds allowed the call returns [True]: the
    first request was issued in time.  But no answer is there before the
    three seconds are over, so nothing was observed before the deadline. *)
Lemma wait_for_container_ready_observes_after_deadline :
  wait_for_container_ready api slow "sql" 3 0 = Some (Ok true, 5000%N) /\
  forall k,
    (0 + 3 * second
       <= answered_at api slow "sql" (issued_at api slow "sql" 0 k))%N.
Proof.
  split; [vm_compute; reflexivity|].
  intros k. unfold answered_at, slow, second. cbn [fst]. lia.
Qed.

End ControlSpec.

(* ================================================================== *)
(** * Properties of the fan-out *)
(* ================================================================== *)

Module FanOutSpec.
Import Py FanOut.
Section Facts.
Context `{Runtime}.
Variable n : nat.
Variable operation : nat -> result json.

Lemma run_app a b st :
  run n operation (a ++ b) st =
  match run n operation a st with
  | Some st1 => run n operation b st1
  | None => None
  end.
Proof.
  revert st. induction a as [|l a IH]; intros st; cbn [run app]; [reflexivity|].
  destruct (fire n operation l st); [apply IH|reflexivity].
Qed.

Lemma update_same threads i s : update threads i s i = s.
Proof. unfold update. now rewrite Nat.eqb_refl. Qed.

Lemma update_other threads i s k : k <> i -> update threads i s k = threads k.
Proof. unfold update. intros Hk. apply Nat.eqb_neq in Hk. now rewrite Hk. Qed.

(** A thread that finishes joins the finished ones, whatever their order. *)
Lemma filter_finishing threads i l :
  NoDup l -> In i l -> is_finished (threads i) = false ->
  Permutation
    (filter (fun k => is_finished (update threads i Finished k)) l)
    (i :: filter (fun k => is_finished (threads k)) l).
Proof.
  induction l as [|k l IH]; intros Hnd Hin Hnot; [contradiction|].
  inversion Hnd as [|? ? Hk Hl]; subst. cbn [filter].
  destruct (Nat.eq_dec k i) as [->|Hne].
  - rewrite update_same, Hnot. cbn [is_finished]. constructor.
    rewrite (filter_ext_in (fun k => is_finished (update threads i Finished k))
               (fun k => is_finished (threads k))); [reflexivity|].
    intros k Hkin. rewrite update_other; [reflexivity|]. intros ->. contradiction.
  - rewrite update_other by exact Hne.
    destruct Hin as [Heq|Hin]; [congruence|].
    destruct (is_finished (threads k)).
    + rewrite perm_swap. constructor. apply IH; assumption.
    + apply IH; assumption.
Qed.

(** What holds of every state a schedule reaches, and of the schedule. *)
Record inv (tr : list Label) (st : State) : Prop := {
  inv_pc : pc st <= 2 * n;
  inv_started : forall i, threads st i <> NotStarted <-> i < Nat.min (pc st) n;
  inv_joined : forall i, n + i < pc st -> threads st i = Finished;
  inv_results :
    Permutation (results st)
      (map (fun i => check_conflict (operation i))
         (filter (fun i => is_finished (threads st i)) (seq 0 n)));
  inv_start : forall i, In (Start i) tr <-> i < Nat.min (pc st) n;
  inv_run : forall i, In (Run i) tr <-> threads st i = Finished;
  inv_join : forall i, In (Join i) tr <-> n + i < pc st;
  inv_nodup : NoDup tr
}.

Lemma filter_none {A} (f : A -> bool) l :
  (forall x, In x l -> f x = false) -> filter f l = [].
Proof.
  induction l as [|x l IH]; intros Hf; [reflexivity|]. cbn [filter].
  rewrite (Hf x (or_introl eq_refl)). apply IH. intros y Hy. apply Hf. now right.
Qed.

Lemma filter_all {A} (f : A -> bool) l :
  (forall x, In x l -> f x = true) -> filter f l = l.
Proof.
  induction l as [|x l IH]; intros Hf; [reflexivity|]. cbn [filter].
  rewrite (Hf x (or_introl eq_refl)). f_equal. apply IH. intros y Hy. apply Hf. now right.
Qed.

Lemma inv_initial : inv [] initial.
Proof.
  constructor; cbn [initial pc threads results]; try lia.
  - intros i. split; [congruence|lia].
  - rewrite filter_none; [constructor|reflexivity].
  - intros i. split; [contradiction|lia].
  - intros i. split; [contradiction|discriminate].
  - intros i. split; [contradiction|lia].
  - constructor.
Qed.

Lemma in_snoc {A} (x y : A) l : In x (l ++ [y]) <-> In x l \/ x = y.
Proof.
  rewrite in_app_iff. cbn. intuition congruence.
Qed.

Lemma nodup_snoc {A} (y : A) l : NoDup l -> ~ In y l -> NoDup (l ++ [y]).
Proof.
  intros Hl Hy. apply NoDup_app; [exact Hl|repeat constructor; intros []|].
  intros x Hx [<-|[]]. contradiction.
Qed.

Lemma inv_step tr st l st1 :
  inv tr st -> fire n operation l st = Some st1 -> inv (tr ++ [l]) st1.
Proof.
  intros [Hpc Hstarted Hjoined Hres Hstart Hrun Hjoin Hnd].
  destruct l as [i|i|i]; cbn [fire].
  - destruct (Nat.eqb i (pc st) && Nat.ltb (pc st) n) eqn:Hen; [|discriminate].
    apply andb_prop in Hen as [Hi Hlt]. apply Nat.eqb_eq in Hi.
    apply Nat.ltb_lt in Hlt. subst i. intros [= <-].
    assert (Hfresh : threads st (pc st) = NotStarted).
    { destruct (threads st (pc st)) eqn:E; [reflexivity| |];
        exfalso; assert (Hx : pc st < Nat.min (pc st) n)
          by (apply Hstarted; congruence); lia. }
    constructor; cbn [pc threads results].
    + lia.
    + intros i. destruct (Nat.eq_dec i (pc st)) as [->|Hne].
      * rewrite update_same. split; [lia|discriminate].
      * rewrite update_other by exact Hne. rewrite Hstarted. lia.
    + intros i Hi. lia.
    + rewrite (filter_ext (fun i => is_finished (update (threads st) (pc st) Running i))
                 (fun i => is_finished (threads st i))); [exact Hres|].
      intros i. destruct (Nat.eq_dec i (pc st)) as [->|Hne].
      * rewrite update_same, Hfresh. reflexivity.
      * rewrite update_other by exact Hne. reflexivity.
    + intros i. rewrite in_snoc, Hstart. split.
      * intros [Hi|[= ->]]; lia.
      * intros Hi. destruct (Nat.eq_dec i (pc st)) as [->|Hne];  [right; reflexivity|left; lia].
    + intros i. rewrite in_snoc, Hrun.
      destruct (Nat.eq_dec i (pc st)) as [->|Hne].
      * rewrite update_same, Hfresh. split; [intros [|]; discriminate|discriminate].
      * rewrite update_other by exact Hne. split; [intros [|]; [assumption|discriminate]|auto].
    + intros i. rewrite in_snoc, Hjoin. split; [intros [|]; [lia|discriminate]|intros; lia].
    + apply nodup_snoc; [exact Hnd|]. rewrite Hstart. lia.
  - destruct (is_running (threads st i)) eqn:Hen; [|discriminate].
    assert (Hr : threads st i = Running) by (destruct (threads st i); congruence || discriminate).
    intros [= <-].
    assert (Hin : i < n).
    { assert (Hx : i < Nat.min (pc st) n) by (apply Hstarted; congruence). lia. }
    constructor; cbn [pc threads results].
    + exact Hpc.
    + intros k. destruct (Nat.eq_dec k i) as [->|Hne].
      * rewrite update_same. rewrite <- Hstarted, Hr. split; discriminate.
      * rewrite update_other by exact Hne. apply Hstarted.
    + intros k Hk. destruct (Nat.eq_dec k i) as [->|Hne].
      * apply update_same.
      * rewrite update_other by exact Hne. apply Hjoined, Hk.
    + rewrite (filter_finishing (threads st) i (seq 0 n)).
      * cbn [map]. etransitivity; [apply Permutation_app_tail; exact Hres|].
        symmetry. apply Permutation_cons_append.
      * apply seq_NoDup.
      * apply in_seq. lia.
      * rewrite Hr. reflexivity.
    + intros k. rewrite in_snoc, Hstart. split; [intros [|]; [assumption|discriminate]|auto].
    + intros k. rewrite in_snoc, Hrun. destruct (Nat.eq_dec k i) as [->|Hne].
      * rewrite update_same. split; auto.
      * rewrite update_other by exact Hne. split; [intros [|[= ->]]; [assumption|contradiction]|auto].
    + intros k. rewrite in_snoc, Hjoin. split; [intros [|]; [assumption|discriminate]|auto].
    + apply nodup_snoc; [exact Hnd|]. rewrite Hrun, Hr. discriminate.
  - destruct (Nat.leb n (pc st) && Nat.eqb i (pc st - n) && Nat.ltb (pc st) (2 * n)
              && is_finished (threads st i)) eqn:Hen; [|discriminate].
    apply andb_prop in Hen as [Hen Hfin]. apply andb_prop in Hen as [Hen Hlt].
    apply andb_prop in Hen as [Hle Hi].
    apply Nat.leb_le in Hle. apply Nat.eqb_eq in Hi. apply Nat.ltb_lt in Hlt.
    assert (Hf : threads st i = Finished) by (destruct (threads st i); congruence || discriminate).
    intros [= <-].
    constructor; cbn [pc threads results].
    + lia.
    + intros k. rewrite Hstarted. lia.
    + intros k Hk. destruct (Nat.eq_dec k i) as [->|Hne]; [exact Hf|].
      apply Hjoined. lia.
    + exact Hres.
    + intros k. rewrite in_snoc, Hstart. split; [intros [|]; [lia|discriminate]|intros; left; lia].
    + intros k. rewrite in_snoc, Hrun. split; [intros [|]; [assumption|discriminate]|auto].
    + intros k. rewrite in_snoc, Hjoin. split.
      * intros [Hk|[= ->]]; lia.
      * intros Hk. destruct (Nat.eq_dec k i) as [->|Hne]; [right; reflexivity|left; lia].
    + apply nodup_snoc; [exact Hnd|]. rewrite Hjoin. lia.
Qed.

Lemma run_inv schedule :
  forall st, run n operation schedule initial = Some st -> inv schedule st.
Proof.
  induction schedule as [|l tr IH] using rev_ind; intros st.
  - intros [= <-]. apply inv_initial.
  - rewrite run_app. destruct (run n operation tr initial) as [st0|]; [|discriminate].
    cbn [run]. destruct (fire n operation l st0) as [st1|] eqn:Hfire; [|discriminate].
    intros [= <-]. eapply inv_step; [apply IH; reflexivity|exact Hfire].
Qed.

Lemma run_starts k :
  k <= n ->
  exists st,
    run n operation (map Start (seq 0 k)) initial = Some st /\
    pc st = k /\ results st = [] /\
    forall j, threads st j = if Nat.ltb j k then Running else NotStarted.
Proof.
  induction k as [|k IH]; intros Hk.
  - exists initial. repeat split.
  - destruct IH as (st & Hrun & Hpc & Hres & Hth); [lia|].
    rewrite seq_S, map_app, run_app, Hrun. cbn [map run fire Nat.add].
    rewrite Hpc, Nat.eqb_refl. cbn [andb].
    assert (Hlt : Nat.ltb k n = true) by (apply Nat.ltb_lt; lia).
    rewrite Hlt. eexists. split; [reflexivity|]. cbn [pc results threads].
    split; [reflexivity|]. split; [exact Hres|].
    intros j. unfold update. destruct (Nat.eqb j k) eqn:Hjk.
    + apply Nat.eqb_eq in Hjk. subst j.
      assert (Hs : Nat.ltb k (S k) = true) by (apply Nat.ltb_lt; lia).
      now rewrite Hs.
    + apply Nat.eqb_neq in Hjk. rewrite Hth.
      destruct (Nat.ltb j k) eqn:E1; destruct (Nat.ltb j (S k)) eqn:E2;
        try reflexivity.
      * apply Nat.ltb_lt in E1. apply Nat.ltb_ge in E2. lia.
      * apply Nat.ltb_ge in E1. apply Nat.ltb_lt in E2. lia.
Qed.

Lemma inv_progress tr st :
  inv tr st -> pc st < 2 * n -> exists l st1, fire n operation l st = Some st1.
Proof.
  intros [Hpc Hstarted _ _ _ _ _ _] Hlt.
  destruct (Nat.ltb (pc st) n) eqn:Hfirst.
  - exists (Start (pc st)). eexists. cbn [fire].
    rewrite Nat.eqb_refl, Hfirst. reflexivity.
  - apply Nat.ltb_ge in Hfirst.
    assert (Hs : threads st (pc st - n) <> NotStarted) by (apply Hstarted; lia).
    destruct (threads st (pc st - n)) eqn:Hth; [congruence| |].
    + exists (Run (pc st - n)). eexists. cbn [fire]. rewrite Hth. reflexivity.
    + exists (Join (pc st - n)). eexists. cbn [fire]. rewrite Hth, Nat.eqb_refl.
      assert (H1 : Nat.leb n (pc st) = true) by (apply Nat.leb_le; lia).
      assert (H2 : Nat.ltb (pc st) (2 * n) = true) by (apply Nat.ltb_lt; lia).
      rewrite H1, H2. reflexivity.
Qed.

Lemma nth_error_seq0 k i : i < k -> nth_error (seq 0 k) i = Some i.
Proof.
  intros Hi. rewrite (nth_error_nth' _ 0) by (rewrite length_seq; exact Hi).
  rewrite seq_nth by exact Hi. reflexivity.
Qed.

(** C9.  In every interleaving of the fan-out: no thread is started, run or
    joined twice; by the time the main thread's first [join] returns, all [n]
    threads have been started; once the main thread is past its joins every
    thread has made its call exactly once and the queue holds, in some
    order, exactly [n] outcomes, one per thread: for a thread whose call
    returned, the pair of [success] and the value returned, and for a thread
    whose call raised, the pair of [error] and the text of the exception;
    before that some step is always enabled, whatever failed; and there is a
    moment at which all [n] threads are running at once. *)
Theorem fan_out_starts_all_then_collects_each schedule st :
  run n operation schedule initial = Some st ->
  NoDup schedule /\
  (forall pre i post,
     schedule = pre ++ Join i :: post -> forall j, j < n -> In (Start j) pre) /\
  (pc st = 2 * n ->
   (forall j, j < n -> In (Run j) schedule) /\
   exists outcomes,
     Permutation (results st) outcomes /\
     List.length outcomes = n /\
     forall i, i < n ->
       nth_error outcomes i
       = Some (match operation i with
               | Ok value => ("success"%string, value)
               | Raise e => ("error"%string, JStr (exn_str e))
               end)) /\
  (pc st < 2 * n -> exists l st1, fire n operation l st = Some st1) /\
  (exists all_running,
     run n operation (map Start (seq 0 n)) initial = Some all_running /\
     forall j, j < n -> threads all_running j = Running).
Proof.
  intros Hrun. pose proof (run_inv _ _ Hrun) as Hinv.
  split; [apply (inv_nodup _ _ Hinv)|]. split; [|split; [|split]].
  - intros pre i post -> j Hj. rewrite run_app in Hrun.
    destruct (run n operation pre initial) as [st0|] eqn:Hpre; [|discriminate].
    apply run_inv in Hpre. apply (inv_start _ _ Hpre).
    cbn [run fire] in Hrun.
    destruct (Nat.leb n (pc st0)) eqn:Hle; [|discriminate].
    apply Nat.leb_le in Hle. lia.
  - intros Hdone.
    assert (Hall : forall j, j < n -> threads st j = Finished)
      by (intros j Hj; apply (inv_joined _ _ Hinv); lia).
    split.
    + intros j Hj. apply (inv_run _ _ Hinv), Hall, Hj.
    + exists (map (fun i => check_conflict (operation i)) (seq 0 n)).
      split; [|split].
      * pose proof (inv_results _ _ Hinv) as Hres.
        rewrite filter_all in Hres; [exact Hres|].
        intros j Hj%in_seq. rewrite Hall by lia. reflexivity.
      * rewrite length_map, length_seq. reflexivity.
      * intros i Hi. rewrite nth_error_map, nth_error_seq0 by exact Hi.
        cbn [option_map]. unfold check_conflict.
        destruct (operation i); reflexivity.
  - apply (inv_progress _ _ Hinv).
  - destruct (run_starts n (le_n n)) as (st1 & Hst1 & _ & _ & Hth).
    exists st1. split; [exact Hst1|]. intros j Hj. rewrite Hth.
    assert (Hlt : Nat.ltb j n = true) by (apply Nat.ltb_lt; exact Hj).
    now rewrite Hlt.
Qed.

End Facts.

#[local] Existing Instance Sample.sample_runtime.

(** C9, witness: two threads, the first one's call raising, the second
    finishing before the first. *)
Lemma fan_out_witness :
  exists st,
    run 2 first_fails interleaved initial = Some st /\
    (NoDup interleaved /\
     (forall pre i post,
        interleaved = pre ++ Join i :: post ->
        forall j, j < 2 -> In (Start j) pre) /\
     (pc st = 2 * 2 ->
      (forall j, j < 2 -> In (Run j) interleaved) /\
      exists outcomes,
        Permutation (results st) outcomes /\
        List.length outcomes = 2 /\
        forall i, i < 2 ->
          nth_error outcomes i
          = Some (match first_fails i with
                  | Ok value => ("success"%string, value)
                  | Raise e => ("error"%string, JStr (exn_str e))
                  end)) /\
     (pc st < 2 * 2 -> exists l st1, fire 2 first_fails l st = Some st1) /\
     (exists all_running,
        run 2 first_fails (map Start (seq 0 2)) initial = Some all_running /\
        forall j, j < 2 -> threads all_running j = Running)).
Proof.
  eexists. split; [cbv; reflexivity|].
  apply (fan_out_starts_all_then_collects_each 2 first_fails interleaved).
  reflexivity.
Defined.

(** What that run leaves in the queue: the second thread's value, then the
    first thread's error. *)
Example fan_out_results :
  option_map results (run 2 first_fails interleaved initial)
  = Some [("success"%string, conflict_info);
          ("error"%string, JStr "404 Client Error")].
Proof. reflexivity. Qed.

(** A thread cannot be joined before it finished, nor started twice. *)
Example fan_out_refused :
  run 2 first_fails [Start 0; Start 1; Join 0] initial = None /\
  run 2 first_fails [Start 0; Start 0] initial = None.
Proof. split; reflexivity. Qed.

End FanOutSpec.

(* ================================================================== *)
(** * Properties of the text rewriting *)
(* ================================================================== *)

Module TextSpec.
Import Py Text.
Local Open Scope string_scope.

(** [str.replace] as Python runs it. *)
Example replace_empty_old : replace "" "-" "abc" = "-a-b-c-".
Proof. reflexivity. Qed.

Example replace_no_overlap : replace "aa" "b" "aaaaa" = "bba".
Proof. reflexivity. Qed.

Lemma replace_from_skip old new k :
  forall s, replace_from k old new s = replace_from 0 old new (drop k s).
Proof.
  induction k as [|k IH]; intros s; [reflexivity|].
  destruct s as [|ch rest]; [reflexivity|]. cbn [replace_from drop]. apply IH.
Qed.

Lemma prefix_nil s : String.prefix "" s = true.
Proof. destruct s; reflexivity. Qed.

Lemma prefix_cons a p c r :
  String.prefix (String a p) (String c r) = true <-> a = c /\ String.prefix p r = true.
Proof.
  cbn [String.prefix]. destruct (ascii_dec a c) as [->|Hne].
  - tauto.
  - split; [discriminate|]. intros [? _]. contradiction.
Qed.

(** The three equations of the scan. *)
Lemma replace_hit old new ch rest :
  old <> "" -> String.prefix old (String ch rest) = true ->
  replace old new (String ch rest)
  = new ++ replace old new (drop (String.length old) (String ch rest)).
Proof.
  intros Hold Hp. unfold replace. destruct old as [|a old']; [congruence|].
  cbn [replace_from]. rewrite Hp. rewrite replace_from_skip.
  cbn [String.length drop Nat.sub]. rewrite Nat.sub_0_r. reflexivity.
Qed.

Lemma replace_miss old new ch rest :
  old <> "" -> String.prefix old (String ch rest) = false ->
  replace old new (String ch rest) = String ch (replace old new rest).
Proof.
  intros Hold Hp. unfold replace. destruct old as [|a old']; [congruence|].
  cbn [replace_from]. rewrite Hp. reflexivity.
Qed.

Lemma replace_nil old new : old <> "" -> replace old new "" = "".
Proof. intros Hold. unfold replace. destruct old; [congruence|reflexivity]. Qed.

(** A text in which [old] does not occur is left as it is. *)
Lemma replace_absent old new s :
  old <> "" -> contains old s = false -> replace old new s = s.
Proof.
  intros Hold. induction s as [|ch rest IH]; intros Hc.
  - apply replace_nil, Hold.
  - cbn [contains] in Hc. apply orb_false_iff in Hc as [Hp Hrest].
    rewrite replace_miss by assumption. rewrite IH by assumption. reflexivity.
Qed.

Lemma prefix_app a b s :
  String.prefix (a ++ b) s = true -> String.prefix a s = true.
Proof.
  revert s. induction a as [|x a IH]; intros s; [intros _; apply prefix_nil|].
  destruct s as [|c r]; [discriminate|]. cbn [append].
  rewrite !prefix_cons. intros [-> Hp]. split; [reflexivity|apply IH, Hp].
Qed.

Lemma contains_app a b s :
  contains a s = false -> contains (a ++ b) s = false.
Proof.
  induction s as [|c r IH]; cbn [contains]; intros Hc;
    apply orb_false_iff in Hc as [Hp Hr]; apply orb_false_iff; split.
  - destruct (String.prefix (a ++ b) "") eqn:E; [|reflexivity].
    apply prefix_app in E. congruence.
  - reflexivity.
  - destruct (String.prefix (a ++ b) (String c r)) eqn:E; [|reflexivity].
    apply prefix_app in E. congruence.
  - apply IH, Hr.
Qed.

(** Reading a prefix off the output of the [http]-to-[ws] rewriting: a
    prefix without a [w] was copied, not written. *)
Lemma prefix_of_rewritten p :
  avoids "w" p = true ->
  forall s, String.prefix p (replace "http" "ws" s) = true ->
            String.prefix p s = true.
Proof.
  induction p as [|a p IH]; intros Hav s; [intros _; apply prefix_nil|].
  cbn [avoids] in Hav. apply andb_prop in Hav as [Ha Hp].
  destruct s as [|c r]; [rewrite replace_nil by discriminate; discriminate|].
  destruct (String.prefix "http" (String c r)) eqn:Hhit.
  - rewrite replace_hit by (discriminate || assumption).
    cbn [append]. rewrite prefix_cons. intros [-> _].
    rewrite Ascii.eqb_refl in Ha. discriminate.
  - rewrite replace_miss by (discriminate || assumption).
    rewrite !prefix_cons. intros [-> Hrest]. split; [reflexivity|].
    apply IH; assumption.
Qed.

Lemma drop_shorter n s : (String.length (drop n s) <= String.length s)%nat.
Proof.
  revert s. induction n as [|n IH]; intros s; [cbn; lia|].
  destruct s as [|c r]; cbn [drop String.length]; [lia|].
  specialize (IH r). lia.
Qed.

(** After the first replacement no [http] is left. *)
Lemma rewritten_has_no_http s : contains "http" (replace "http" "ws" s) = false.
Proof.
  remember (String.length s) as n eqn:Hn. revert s Hn.
  induction n as [n IH] using lt_wf_ind. intros s Hn.
  destruct s as [|c r]; [reflexivity|].
  destruct (String.prefix "http" (String c r)) eqn:Hhit.
  - rewrite replace_hit by (discriminate || assumption).
    change ("ws" ++ ?x) with (String "w" (String "s" x)).
    cbn [contains].
    assert (Hlen : (String.length (drop (String.length "http") (String c r)) < n)%nat).
    { subst n. change (drop (String.length "http") (String c r)) with (drop 3 r).
      pose proof (drop_shorter 3 r). cbn [String.length]. lia. }
    rewrite (IH _ Hlen _ eq_refl). reflexivity.
  - rewrite replace_miss by (discriminate || assumption).
    cbn [contains].
    assert (Hlen : (String.length r < n)%nat) by (subst n; cbn; lia).
    rewrite (IH _ Hlen _ eq_refl), orb_false_r.
    destruct (String.prefix "http" (String c (replace "http" "ws" r))) eqn:E;
      [|reflexivity].
    apply prefix_cons in E as [<- E].
    apply prefix_of_rewritten in E; [|reflexivity].
    assert (String.prefix "http" (String "h" r) = true)
      by (apply prefix_cons; auto).
    congruence.
Qed.

Lemma second_replace_idle s :
  replace "https" "wss" (replace "http" "ws" s) = replace "http" "ws" s.
Proof.
  apply replace_absent; [discriminate|].
  apply (contains_app "http" "s"), rewritten_has_no_http.
Qed.

(** X1.  The second replacement of [WebSocketClient.__init__] never finds
    anything to replace: once every [http] was rewritten to [ws], no [https]
    is left, so the rewritten URL is the result of the first replacement
    alone, for every [base_url]. *)
Theorem rewrite_scheme_is_one_replace s :
  rewrite_scheme s = replace "http" "ws" s /\
  contains "http" (rewrite_scheme s) = false.
Proof.
  unfold rewrite_scheme. rewrite second_replace_idle.
  split; [reflexivity|apply rewritten_has_no_http].
Qed.

(** X2.  For a URL whose part after the scheme holds no [http], the
    rewriting of [WebSocketClient.__init__] turns the scheme [http] into
    [ws] and [https] into [wss] and leaves the rest as it is; a text without
    any [http] is not changed at all. *)
Theorem rewrite_scheme_of_url rest :
  contains "http" rest = false ->
  rewrite_scheme ("http://" ++ rest) = "ws://" ++ rest /\
  rewrite_scheme ("https://" ++ rest) = "wss://" ++ rest /\
  rewrite_scheme rest = rest.
Proof.
  intros Hrest. unfold rewrite_scheme. rewrite !second_replace_idle.
  split; [|split].
  - change ("http://" ++ rest) with (String "h" ("ttp://" ++ rest)).
    rewrite replace_hit by (discriminate || reflexivity).
    cbn [String.length drop append].
    rewrite (replace_absent "http" "ws" (String ":" (String "/" (String "/" rest))));
      [reflexivity|discriminate|]. cbn [contains String.prefix]. cbn. exact Hrest.
  - change ("https://" ++ rest) with (String "h" ("ttps://" ++ rest)).
    rewrite replace_hit by (discriminate || reflexivity).
    cbn [String.length drop append].
    rewrite (replace_absent "http" "ws"
               (String "s" (String ":" (String "/" (String "/" rest)))));
      [reflexivity|discriminate|]. cbn. exact Hrest.
  - apply replace_absent; [discriminate|exact Hrest].
Qed.

(** X2, witness: the backend URL of the test configuration. *)
Lemma rewrite_scheme_of_url_witness :
  contains "http" "localhost:3006" = false /\
  rewrite_scheme "http://localhost:3006" = "ws://localhost:3006" /\
  rewrite_scheme "https://localhost:3006" = "wss://localhost:3006" /\
  rewrite_scheme "localhost:3006" = "localhost:3006".
Proof.
  split; [reflexivity|].
  apply (rewrite_scheme_of_url "localhost:3006"). reflexivity.
Defined.

(** An [http] after the scheme is rewritten as well. *)
Example rewrite_scheme_mangles_host :
  rewrite_scheme "http://httpbin.org" = "ws://wsbin.org".
Proof. reflexivity. Qed.

End TextSpec.

(* ================================================================== *)
(** * Properties of [wait_for_output] and of a command on the session *)
(* ================================================================== *)

Module OutputSpec.
Import Py Session Clock SessionSpec Text TextSpec Output.

Section Facts.
Context `{Runtime}.

(** ** [wait_for_output] *)

Lemma output_loop_terminates fuel :
  forall expected start timeout c w,
    (start <= now w)%N ->
    (List.length (messages c) + List.length (pending w)
       + steps_left (now w - start) timeout < fuel)%nat ->
    exists r, output_loop fuel expected start timeout c w = Some r.
Proof.
  induction fuel as [|fuel IH]; intros expected start timeout c w Hstart Hfuel;
    [lia|].
  cbn [output_loop].
  destruct (Z.of_N (now w - start) <? timeout * Z.of_N second)%Z eqn:Hcond;
    [|eauto].
  apply Z.ltb_lt in Hcond.
  destruct (get_output 1 c w) as [[m c1] w1] eqn:Hget.
  apply get_output_spec in Hget as [Hclk Hcase].
  assert (Hnext : (List.length (messages c1) + List.length (pending w1)
                   + steps_left (now w1 - start) timeout < fuel)%nat).
  { pose proof (steps_left_mono (now w - start) (now w1 - start) timeout
                  ltac:(lia)) as Hmono.
    destruct Hcase as [[_ Hlt]|(_ & _ & _ & Hnow & Hle)]; [lia|].
    pose proof (steps_left_second (now w - start) timeout Hcond) as Hsec.
    replace (now w1 - start)%N with (now w - start + second)%N by lia.
    lia. }
  assert (Hstart1 : (start <= now w1)%N) by lia.
  destruct (truthy m); [|apply IH; assumption].
  destruct (get m "data" (JStr EmptyString)) as [data|e]; [|eauto].
  destruct (contains expected (str data)); [eauto|apply IH; assumption].
Qed.

Lemma accepts_false expected m :
  accepts expected m = false <->
  truthy m = false \/ matches expected m = false.
Proof. unfold accepts. apply andb_false_iff. Qed.

Lemma output_loop_spec fuel :
  forall expected start timeout c w r c1 w1,
    (start <= now w)%N ->
    output_loop fuel expected start timeout c w = Some (r, c1, w1) ->
    (now w <= now w1)%N /\
    (now w1 = now w \/
     (Z.of_N (now w1 - start) < timeout * Z.of_N second + Z.of_N second)%Z) /\
    exists taken,
      inbound c w = taken ++ inbound c1 w1 /\
      match r with
      | Ok true =>
          exists before m,
            taken = before ++ [m] /\ accepts expected m = true /\
            Forall (fun x => accepts expected x = false) before
      | Ok false =>
          Forall (fun x => accepts expected x = false) taken /\
          (timeout * Z.of_N second <= Z.of_N (now w1 - start))%Z
      | Raise e =>
          e = AttributeError "get" /\
          exists before m,
            taken = before ++ [m] /\ truthy m = true /\
            get m "data" (JStr EmptyString) = Raise e /\
            Forall (fun x => accepts expected x = false) before
      end.
Proof.
  induction fuel as [|fuel IH]; intros expected start timeout c w r c1 w1 Hstart;
    [discriminate|].
  cbn [output_loop].
  destruct (Z.of_N (now w - start) <? timeout * Z.of_N second)%Z eqn:Hcond.
  2:{ intros [= <- <- <-]. apply Z.ltb_ge in Hcond.
      split; [lia|]. split; [left; reflexivity|].
      exists []. cbn [app]. split; [reflexivity|]. split; [constructor|exact Hcond]. }
  apply Z.ltb_lt in Hcond.
  destruct (get_output 1 c w) as [[m c2] w2] eqn:Hget.
  apply get_output_spec in Hget as [Hclk Hcase].
  assert (Hbound : (Z.of_N (now w2 - start)
                    < timeout * Z.of_N second + Z.of_N second)%Z) by lia.
  assert (Hrec :
    accepts expected m = false ->
    output_loop fuel expected start timeout c2 w2 = Some (r, c1, w1) ->
    (now w <= now w1)%N /\
    (now w1 = now w \/
     (Z.of_N (now w1 - start) < timeout * Z.of_N second + Z.of_N second)%Z) /\
    exists taken,
      inbound c w = taken ++ inbound c1 w1 /\
      match r with
      | Ok true =>
          exists before m,
            taken = before ++ [m] /\ accepts expected m = true /\
            Forall (fun x => accepts expected x = false) before
      | Ok false =>
          Forall (fun x => accepts expected x = false) taken /\
          (timeout * Z.of_N second <= Z.of_N (now w1 - start))%Z
      | Raise e =>
          e = AttributeError "get" /\
          exists before m,
            taken = before ++ [m] /\ truthy m = true /\
            get m "data" (JStr EmptyString) = Raise e /\
            Forall (fun x => accepts expected x = false) before
      end).
  { intros Hrej Hloop.
    apply IH in Hloop as (Hclk' & Hb & taken & Hin & Hr); [|lia].
    split; [lia|]. split.
    { right. destruct Hb as [->|Hb]; assumption. }
    destruct Hcase as [[Hhd _]|(-> & Hsame & _)].
    - exists (m :: taken). split; [rewrite Hhd, Hin; reflexivity|].
      destruct r as [[|]|e].
      + destruct Hr as (before & m' & -> & Hacc & Hall).
        exists (m :: before), m'. repeat split; auto.
      + destruct Hr as [Hall Hdead]. split; [constructor; assumption|exact Hdead].
      + destruct Hr as (He & before & m' & -> & Htr & Hg & Hall).
        split; [exact He|]. exists (m :: before), m'. repeat split; auto.
    - exists taken. split; [rewrite <- Hsame; exact Hin|exact Hr]. }
  destruct (truthy m) eqn:Htr.
  - destruct (get m "data" (JStr EmptyString)) as [data|e] eqn:Hdata.
    + destruct (contains expected (str data)) eqn:Hc.
      * intros [= <- <- <-]. split; [lia|]. split; [right; exact Hbound|].
        destruct Hcase as [[Hhd _]|(-> & _)]; [|discriminate].
        exists [m]. split; [exact Hhd|]. exists [], m.
        repeat split; [|constructor].
        unfold accepts, matches. rewrite Htr, Hdata. exact Hc.
      * apply Hrec. unfold accepts, matches. rewrite Htr, Hdata. exact Hc.
    + intros [= <- <- <-]. split; [lia|]. split; [right; exact Hbound|].
      destruct Hcase as [[Hhd _]|(-> & _)]; [|discriminate].
      exists [m]. split; [exact Hhd|].
      split; [eapply get_raises; exact Hdata|].
      exists [], m. repeat split; [exact Htr|exact Hdata|constructor].
  - apply Hrec. unfold accepts. rewrite Htr. reflexivity.
Qed.

Lemma wait_fuel_enough c w timeout :
  (List.length (messages c) + List.length (pending w)
     + steps_left (now w - now w) timeout < wait_fuel c w timeout)%nat.
Proof. unfold wait_fuel. rewrite N.sub_diag, steps_left_start. lia. Qed.


(** X5.  Unlike [execute_command_and_wait], [wait_for_output] does not
    empty the queue first: with a positive timeout, a Message already
    waiting at the head of the queue that holds the expected text makes it
    return [True] at once, having taken that one Message and nothing else,
    with no time passed. *)
Theorem wait_for_output_accepts_queued_message c w expected timeout m q :
  messages c = m :: q -> accepts expected m = true -> (0 < timeout)%Z ->
  wait_for_output c w expected timeout = Some (Ok true, set_messages q c, w).
Proof.
  intros Hq Hacc Hpos. unfold wait_for_output, wait_fuel. cbn [output_loop].
  rewrite N.sub_diag.
  assert (Hcond : (Z.of_N 0 <? timeout * Z.of_N second)%Z = true)
    by (apply Z.ltb_lt; change (Z.of_N second) with 1000%Z;
        change (Z.of_N 0) with 0%Z; lia).
  rewrite Hcond, (get_output_head 1 c w m q Hq).
  unfold accepts, matches in Hacc. apply andb_prop in Hacc as [Htr Hm].
  rewrite Htr. destruct (get m "data" (JStr EmptyString)); [|discriminate].
  rewrite Hm. reflexivity.
Qed.

Lemma output_loop_takes fuel :
  forall expected start timeout c w out c1 w1 text,
    messages c = [] ->
    thread_alive w = true ->
    (start <= now w)%N ->
    In text (arrivals (Z.to_N (timeout * Z.of_N second) - (now w - start))
               (pending w)) ->
    accepts expected (decode text) = true ->
    output_loop fuel expected start timeout c w = Some (out, c1, w1) ->
    out <> Ok false.
Proof.
  induction fuel as [|fuel IH];
    intros expected start timeout c w out c1 w1 text Hq Hal Hstart Hin Hacc;
    [discriminate|].
  cbn [output_loop].
  pose proof (arrivals_positive _ _ _ Hin) as Hpos.
  assert (Hcond : (Z.of_N (now w - start) <? timeout * Z.of_N second)%Z = true)
    by (apply Z.ltb_lt; lia).
  rewrite Hcond.
  unfold get_output, queue_get, block. rewrite Hal, N.mul_1_r.
  destruct (run_thread nonempty second c (now w) true (close_latency w) (pending w))
    as [c2 w2] eqn:Hrun.
  eapply run_thread_arrival in Hrun; [|exact Hq|exact Hin].
  destruct Hrun as (Hal2 & Hclk & [(t0 & Hm & Hlt & Hor)|(Hm & Hnow & Hlt & Hor)]);
    rewrite Hm.
  - assert (Hrec : text <> t0 ->
              output_loop fuel expected start timeout (set_messages [] c2) w2
                = Some (out, c1, w1) -> out <> Ok false).
    { intros Hne Hloop. destruct Hor as [Heq|Hin2]; [contradiction|].
      eapply IH in Hloop; [exact Hloop|reflexivity|exact Hal2|lia| |exact Hacc].
      replace (Z.to_N (timeout * Z.of_N second) - (now w2 - start))%N
        with (Z.to_N (timeout * Z.of_N second) - (now w - start) - (now w2 - now w))%N
        by lia.
      exact Hin2. }
    destruct (string_dec text t0) as [->|Hne].
    + unfold accepts, matches in Hacc. apply andb_prop in Hacc as [Htr Hmt].
      rewrite Htr. destruct (get (decode t0) "data" (JStr EmptyString));
        [|discriminate].
      rewrite Hmt. intros [= <- <- <-]. discriminate.
    + destruct (truthy (decode t0)); [|apply Hrec, Hne].
      destruct (get (decode t0) "data" (JStr EmptyString)) as [data|ex];
        [|intros [= <- <- <-]; discriminate].
      destruct (contains expected (str data));
        [intros [= <- <- <-]; discriminate|apply Hrec, Hne].
  - cbn [truthy]. intros Hloop.
    eapply IH in Hloop; [exact Hloop|exact Hm|exact Hal2|lia| |exact Hacc].
    replace (Z.to_N (timeout * Z.of_N second) - (now w2 - start))%N
      with (Z.to_N (timeout * Z.of_N second) - (now w - start) - second)%N
      by lia.
    exact Hor.
Qed.

(** X6.  [wait_for_output] misses nothing: called with an empty queue and
    the receive thread running, it returns [False] only if no frame handed
    to the thread within the timeout decodes to a Message it accepts. *)
Theorem wait_for_output_false_means_no_match c w expected timeout c1 w1 text :
  messages c = [] -> thread_alive w = true ->
  wait_for_output c w expected timeout = Some (Ok false, c1, w1) ->
  In text (arrivals (Z.to_N (timeout * Z.of_N second)) (pending w)) ->
  accepts expected (decode text) = false.
Proof.
  intros Hq Hal Hrun Hin.
  destruct (accepts expected (decode text)) eqn:Hacc; [exfalso|reflexivity].
  unfold wait_for_output in Hrun.
  eapply output_loop_takes in Hrun; [apply Hrun; reflexivity|exact Hq|exact Hal|lia| |exact Hacc].
  rewrite N.sub_diag, N.sub_0_r. exact Hin.
Qed.

(** ** How long the calls block *)

Lemma wait_loop_bound fuel :
  forall expected start timeout acc c w r c1 w1,
    (start <= now w)%N ->
    wait_loop fuel expected start timeout acc c w = Some (r, c1, w1) ->
    (now w <= now w1)%N /\
    (now w1 = now w \/
     (Z.of_N (now w1 - start) < timeout * Z.of_N second + Z.of_N second)%Z).
Proof.
  induction fuel as [|fuel IH]; intros expected start timeout acc c w r c1 w1 Hstart;
    [discriminate|].
  cbn [wait_loop].
  destruct (Z.of_N (now w - start) <? timeout * Z.of_N second)%Z eqn:Hcond.
  2:{ intros [= <- <- <-]. split; [lia|left; reflexivity]. }
  apply Z.ltb_lt in Hcond.
  destruct (get_output 1 c w) as [[m c2] w2] eqn:Hget.
  apply get_output_spec in Hget as [Hclk _].
  assert (Hbound : (Z.of_N (now w2 - start)
                    < timeout * Z.of_N second + Z.of_N second)%Z) by lia.
  assert (Hrec : forall acc',
    wait_loop fuel expected start timeout acc' c2 w2 = Some (r, c1, w1) ->
    (now w <= now w1)%N /\
    (now w1 = now w \/
     (Z.of_N (now w1 - start) < timeout * Z.of_N second + Z.of_N second)%Z)).
  { intros acc' Hloop. apply IH in Hloop as [Hle Hb]; [|lia].
    split; [lia|]. right. destruct Hb as [->|Hb]; assumption. }
  destruct (truthy m); [|apply Hrec].
  destruct (given expected) as [e|]; [|apply Hrec].
  destruct (get m "data" (JStr EmptyString)) as [data|ex];
    [|intros [= <- <- <-]; split; [lia|right; exact Hbound]].
  destruct (contains e (str data)); [|apply Hrec].
  intros [= <- <- <-]. split; [lia|right; exact Hbound].
Qed.

(** X7.  [execute_command_and_wait] and [wait_for_output] both return, and
    less than one second after their deadline: each round of their loops
    blocks for at most the one second given to [get_output]. *)
Theorem waits_end_within_a_second_of_the_deadline c w command expected text timeout :
  (exists out c1 w1,
     execute_command_and_wait c w command expected timeout = Some (out, c1, w1) /\
     (now w <= now w1)%N /\
     (Z.of_N (now w1 - now w)
        < Z.max 0 (timeout * Z.of_N second) + Z.of_N second)%Z) /\
  (exists out c1 w1,
     wait_for_output c w text timeout = Some (out, c1, w1) /\
     (now w <= now w1)%N /\
     (Z.of_N (now w1 - now w)
        < Z.max 0 (timeout * Z.of_N second) + Z.of_N second)%Z).
Proof.
  change (Z.of_N second) with 1000%Z. split.
  - destruct (execute_returns c w command expected timeout) as [[[out c1] w1] Hrun].
    exists out, c1, w1. split; [exact Hrun|].
    revert Hrun. unfold execute_command_and_wait.
    destruct (send_command (drain c) command) as [[[|]|e] c0];
      try (intros [= <- <- <-]; rewrite N.sub_diag; split; lia).
    destruct (wait_loop _ _ _ _ _ _ _) as [[[r c2] w2]|] eqn:Hloop;
      [|discriminate].
    apply wait_loop_bound in Hloop as [Hle Hb]; [|lia].
    change (Z.of_N second) with 1000%Z in Hb.
    assert (Hgoal : (now w <= now w2)%N /\
                    (Z.of_N (now w2 - now w) < Z.max 0 (timeout * 1000) + 1000)%Z).
    { split; [exact Hle|]. destruct Hb as [->|Hb]; [rewrite N.sub_diag|]; lia. }
    destruct r; intros [= <- <- <-]; exact Hgoal.
  - unfold wait_for_output.
    destruct (output_loop_terminates (wait_fuel c w timeout) text (now w)
                timeout c w) as [[[out c1] w1] Hloop];
      [lia|apply wait_fuel_enough|].
    exists out, c1, w1. split; [exact Hloop|].
    apply output_loop_spec in Hloop as (Hle & Hb & _); [|lia].
    change (Z.of_N second) with 1000%Z in Hb.
    split; [exact Hle|]. destruct Hb as [->|Hb]; [rewrite N.sub_diag|]; lia.
Qed.

Lemma run_thread_stays_dead ready lat script budget c t c1 w1 :
  run_thread ready budget c t false lat script = (c1, w1) ->
  thread_alive w1 = false.
Proof.
  destruct script as [|[gap ev] rest]; cbn [run_thread andb];
    destruct (ready c false); intros [= <- <-]; reflexivity.
Qed.

Lemma app_close_clock delay app c w :
  exists c1 w1,
    app_close (Some delay) app c w = Some (c1, w1) /\
    (now w <= now w1 <= now w + (if sock_open app then delay else 0))%N /\
    (thread_alive w = false -> thread_alive w1 = false).
Proof.
  unfold app_close.
  assert (Hw : now (tear_down app w) = now w /\
               (thread_alive w = false ->
                thread_alive (tear_down app w) = false)).
  { unfold tear_down. destruct (keep_running app && thread_alive w) eqn:E.
    - split; [reflexivity|]. intros Hd. rewrite Hd, andb_false_r in E.
      discriminate.
    - auto. }
  destruct Hw as [Hnow Hdead]. destruct (sock_open app).
  - destruct (run_thread _ _ _ _ _ _ _) as [c1 w1] eqn:Hrun.
    exists c1, w1. split; [reflexivity|].
    split; [apply run_thread_clock in Hrun; rewrite Hnow in Hrun; exact Hrun|].
    intros Hd. rewrite (Hdead Hd) in Hrun.
    apply run_thread_stays_dead in Hrun. exact Hrun.
  - eexists; eexists. split; [reflexivity|]. split; [lia|exact Hdead].
Qed.

Lemma join_thread_clock c w :
  (now w <= now (snd (join_thread c w)) <= now w + 5 * second)%N /\
  (thread_alive w = false -> now (snd (join_thread c w)) = now w).
Proof.
  unfold join_thread. destruct (ws_thread c && thread_alive w) eqn:Hj.
  - unfold thread_join, block.
    destruct (run_thread _ _ _ _ _ _ _) as [c1 w1] eqn:Hrun.
    apply run_thread_clock in Hrun. cbn [snd]. split; [lia|].
    intros Hd. rewrite Hd, andb_false_r in Hj. discriminate.
  - cbn [snd]. split; [lia|reflexivity].
Qed.

(** X8.  [connect] blocks for at most ten seconds, whatever the remote
    does.  [close] blocks for as long as the library's close keeps it, and
    for at most five seconds more.  The library's close keeps it only if the
    socket is connected: on a session without a connected socket [close]
    takes at most five seconds, and no time at all if the receive thread has
    ended. *)
Theorem connect_and_close_are_bounded c w container_id delay :
  (now w <= now (snd (connect c w container_id))
         <= now w + 10 * second)%N /\
  exists c1 w1,
    close (Some delay) c w = Some (Ok tt, c1, w1) /\
    (now w <= now w1 <= now w + delay + 5 * second)%N /\
    (socket_open c = false ->
     (now w1 <= now w + 5 * second)%N /\
     (thread_alive w = false -> now w1 = now w)).
Proof.
  split.
  - unfold connect, event_wait, block.
    cbn [now thread_alive pending close_latency].
    destruct (run_thread _ _ _ _ _ _ _) as [c1 w1] eqn:Hrun.
    apply run_thread_clock in Hrun.
    destruct (connected c1); [|cbn [snd]; lia].
    destruct (run_on _ _ _ _ _) as [c2 w2] eqn:Hon.
    apply run_on_spec in Hon as [Hnow _]. cbn [snd]. lia.
  - unfold close, socket_open. destruct (ws c) as [app|].
    + destruct (app_close_clock delay app c w) as (c1 & w1 & -> & Hclk & Hdead).
      pose proof (join_thread_clock c1 w1) as [Hj Hj0].
      destruct (join_thread c1 w1) as [c2 w2]. cbn [snd] in Hj, Hj0.
      exists c2, w2. split; [reflexivity|].
      destruct (sock_open app); (split; [lia|]); [discriminate|].
      intros _. split; [lia|]. intros Hd. rewrite (Hj0 (Hdead Hd)). lia.
    + pose proof (join_thread_clock c w) as [Hj Hj0].
      destruct (join_thread c w) as [c2 w2]. cbn [snd] in Hj, Hj0.
      exists c2, w2. split; [reflexivity|]. split; [lia|].
      intros _. split; [lia|exact Hj0].
Qed.

(** ** What the receive thread leaves alone *)

Lemma on_message_ws c text : ws (snd (on_message c text)) = ws c.
Proof.
  unfold on_message. destruct (json_fault text) as [fault|]; [reflexivity|].
  destruct (json_loads text) as [data|]; [|reflexivity].
  destruct (get data "type" JNull) as [t|e]; [|reflexivity].
  destruct (eq_str t "connected"); reflexivity.
Qed.

Lemma dispatch_url ev c : opened_url (dispatch ev c) = opened_url c.
Proof.
  unfold opened_url. destruct ev as [|text|e|st msg]; cbn [dispatch].
  - unfold on_open, set_sock. destruct (ws c) eqn:E; cbn; rewrite ?E; reflexivity.
  - pose proof (on_message_ws c text) as Hws.
    destruct (on_message c text) as [[u|e] c1]; cbn in *; rewrite Hws; reflexivity.
  - reflexivity.
  - unfold on_close, set_sock. destruct (ws c) eqn:E; cbn; rewrite ?E; reflexivity.
Qed.

Lemma run_on_url lat script :
  forall c t alive c1 w1,
    run_on c t alive lat script = (c1, w1) -> opened_url c1 = opened_url c.
Proof.
  induction script as [|[gap ev] rest IH]; intros c t alive c1 w1;
    cbn [run_on]; try (intros [= <- <-]; reflexivity).
  destruct (alive && (gap =? 0)%N).
  - intros Hrun. apply IH in Hrun. rewrite Hrun. apply dispatch_url.
  - intros [= <- <-]. reflexivity.
Qed.

Lemma run_thread_url ready lat script :
  forall budget c t alive c1 w1,
    run_thread ready budget c t alive lat script = (c1, w1) ->
    opened_url c1 = opened_url c.
Proof.
  induction script as [|[gap ev] rest IH]; intros budget c t alive c1 w1;
    cbn [run_thread]; destruct (ready c alive);
    try (intros [= <- <-]; reflexivity).
  destruct (alive && (gap <=? budget)%N).
  - intros Hrun. apply IH in Hrun. rewrite Hrun. apply dispatch_url.
  - intros [= <- <-]. reflexivity.
Qed.

(** X3.  Whatever the remote does, and whether [connect] returns or
    raises, the transport of a client created for [base_url] was opened on
    [base_url] with every [http] rewritten to [ws], followed by the terminal
    path and the container id; no event changes that URL afterwards. *)
Theorem connect_opens_rewritten_url base_url w container_id :
  opened_url (snd (fst (connect (create base_url) w container_id)))
  = Some (replace "http" "ws" base_url ++ "/terminal?container_id="
            ++ container_id)%string.
Proof.
  unfold connect, event_wait, block, create, rewrite_scheme.
  rewrite second_replace_idle.
  cbn [now thread_alive pending close_latency].
  destruct (run_thread _ _ _ _ _ _ _) as [c1 w1] eqn:Hrun.
  apply run_thread_url in Hrun.
  assert (Hgoal : opened_url c1
                  = Some (replace "http" "ws" base_url
                            ++ "/terminal?container_id=" ++ container_id)%string)
    by (rewrite Hrun; reflexivity).
  destruct (connected c1); [|cbn [fst snd]; exact Hgoal].
  destruct (run_on _ _ _ _ _) as [c2 w2] eqn:Hon.
  apply run_on_url in Hon. cbn [fst snd]. rewrite Hon. exact Hgoal.
Qed.

(** ** What a command does to the session *)

Lemma dispatch_written ev c : written (dispatch ev c) = written c.
Proof.
  unfold written. destruct ev as [|text|e|st msg]; cbn [dispatch].
  - unfold on_open, set_sock. destruct (ws c) eqn:E; cbn; rewrite ?E; reflexivity.
  - pose proof (on_message_ws c text) as Hws.
    destruct (on_message c text) as [[u|e] c1]; cbn in *; rewrite Hws; reflexivity.
  - reflexivity.
  - unfold on_close, set_sock. destruct (ws c) eqn:E; cbn; rewrite ?E; reflexivity.
Qed.

Lemma run_thread_written ready lat script :
  forall budget c t alive c1 w1,
    run_thread ready budget c t alive lat script = (c1, w1) ->
    written c1 = written c.
Proof.
  induction script as [|[gap ev] rest IH]; intros budget c t alive c1 w1;
    cbn [run_thread]; destruct (ready c alive);
    try (intros [= <- <-]; reflexivity).
  destruct (alive && (gap <=? budget)%N).
  - intros Hrun. apply IH in Hrun. rewrite Hrun. apply dispatch_written.
  - intros [= <- <-]. reflexivity.
Qed.

(** What the receive thread leaves alone as long as no [Close] comes. *)
Record kept (c : WebSocketClient) (w : World) (c1 : WebSocketClient)
  (w1 : World) : Prop := {
  kept_alive : thread_alive w1 = thread_alive w;
  kept_script : no_close (pending w1) = true;
  kept_socket : socket_open c = true -> socket_open c1 = true;
  kept_flag : connected c = true -> connected c1 = true
}.

Lemma dispatch_kept ev c :
  is_close ev = false ->
  (socket_open c = true -> socket_open (dispatch ev c) = true) /\
  (connected c = true -> connected (dispatch ev c) = true).
Proof.
  unfold socket_open. destruct ev as [|text|e|st msg]; cbn [dispatch is_close];
    [| | |discriminate]; intros _.
  - unfold on_open, set_sock. destruct (ws c) eqn:E; cbn; rewrite ?E; auto.
  - pose proof (on_message_ws c text) as Hws.
    pose proof (on_message_connected c text) as Hc.
    destruct (on_message c text) as [[u|e] c1]; cbn in *; rewrite Hws, Hc;
      split; auto; intros ->; reflexivity.
  - cbn. auto.
Qed.

Lemma run_thread_kept ready lat script :
  forall budget c t alive c1 w1,
    no_close script = true ->
    run_thread ready budget c t alive lat script = (c1, w1) ->
    kept c (mkWorld t alive script lat) c1 w1.
Proof.
  induction script as [|[gap ev] rest IH]; intros budget c t alive c1 w1 Hnc;
    cbn [run_thread]; destruct (ready c alive);
    try (intros [= <- <-]; constructor; cbn; auto).
  cbn [no_close forallb snd] in Hnc. apply andb_prop in Hnc as [Hev Hrest].
  apply negb_true_iff in Hev.
  destruct (alive && (gap <=? budget)%N) eqn:Hgo.
  - intros Hrun. apply IH in Hrun as [Ha Hs Hso Hf]; [|exact Hrest].
    destruct (dispatch_kept ev c Hev) as [Hso' Hf'].
    apply andb_prop in Hgo as [-> _]. rewrite Hev in Ha.
    constructor; cbn in *; auto.
  - intros [= <- <-]. constructor; cbn; auto.
    destruct alive; cbn [no_close forallb snd]; rewrite Hev, Hrest; reflexivity.
Qed.

Lemma get_output_kept timeout c w m c1 w1 :
  no_close (pending w) = true ->
  get_output timeout c w = (m, c1, w1) ->
  kept c w c1 w1 /\ written c1 = written c.
Proof.
  intros Hnc. unfold get_output, queue_get, block.
  destruct (run_thread _ _ _ _ _ _ _) as [c2 w2] eqn:Hrun.
  pose proof (run_thread_written _ _ _ _ _ _ _ _ _ Hrun) as Hw.
  apply run_thread_kept in Hrun as [Ha Hs Hso Hf]; [|exact Hnc].
  cbn in Ha.
  destruct (messages c2); intros [= <- <- <-]; (split; [constructor; auto|exact Hw]).
Qed.

Lemma wait_loop_kept fuel :
  forall expected start timeout acc c w r c1 w1,
    no_close (pending w) = true ->
    wait_loop fuel expected start timeout acc c w = Some (r, c1, w1) ->
    kept c w c1 w1 /\ written c1 = written c.
Proof.
  induction fuel as [|fuel IH]; intros expected start timeout acc c w r c1 w1 Hnc;
    [discriminate|].
  cbn [wait_loop].
  destruct (Z.of_N (now w - start) <? timeout * Z.of_N second)%Z.
  2:{ intros [= <- <- <-]. split; [constructor; auto|reflexivity]. }
  destruct (get_output 1 c w) as [[m c2] w2] eqn:Hget.
  apply get_output_kept in Hget as [[Ha Hs Hso Hf] Hw]; [|exact Hnc].
  assert (Hhere : kept c w c2 w2 /\ written c2 = written c)
    by (split; [constructor; auto|exact Hw]).
  assert (Hrec : forall acc',
    wait_loop fuel expected start timeout acc' c2 w2 = Some (r, c1, w1) ->
    kept c w c1 w1 /\ written c1 = written c).
  { intros acc' Hloop. apply IH in Hloop as [[Ha' Hs' Hso' Hf'] Hw']; [|exact Hs].
    split; [constructor; auto; congruence|congruence]. }
  destruct (truthy m); [|apply Hrec].
  destruct (given expected) as [e|]; [|apply Hrec].
  destruct (get m "data" (JStr EmptyString)) as [data|ex];
    [|intros [= <- <- <-]; exact Hhere].
  destruct (contains e (str data)); [|apply Hrec].
  intros [= <- <- <-]. exact Hhere.
Qed.

Lemma wait_loop_written fuel :
  forall expected start timeout acc c w r c1 w1,
    wait_loop fuel expected start timeout acc c w = Some (r, c1, w1) ->
    written c1 = written c.
Proof.
  induction fuel as [|fuel IH]; intros expected start timeout acc c w r c1 w1;
    [discriminate|].
  cbn [wait_loop].
  destruct (Z.of_N (now w - start) <? timeout * Z.of_N second)%Z;
    [|intros [= <- <- <-]; reflexivity].
  assert (Hget : written (snd (fst (get_output 1 c w))) = written c).
  { unfold get_output, queue_get, block.
    destruct (run_thread _ _ _ _ _ _ _) as [c2 w2] eqn:Hrun.
    apply run_thread_written in Hrun. destruct (messages c2); exact Hrun. }
  destruct (get_output 1 c w) as [[m c2] w2]. cbn [fst snd] in Hget.
  assert (Hrec : forall acc',
    wait_loop fuel expected start timeout acc' c2 w2 = Some (r, c1, w1) ->
    written c1 = written c)
    by (intros acc' Hloop; apply IH in Hloop; congruence).
  destruct (truthy m); [|apply Hrec].
  destruct (given expected) as [e|]; [|apply Hrec].
  destruct (get m "data" (JStr EmptyString)) as [data|ex];
    [|intros [= <- <- <-]; exact Hget].
  destruct (contains e (str data)); [|apply Hrec].
  intros [= <- <- <-]. exact Hget.
Qed.

(** X9.  On a session whose socket is open, [execute_command_and_wait]
    returns having written exactly one frame, the input frame of the
    command, after those written before; nothing it receives while it waits
    makes it write again. *)
Theorem execute_writes_the_command_once c w command expected timeout :
  socket_open c = true ->
  exists out c1 w1,
    execute_command_and_wait c w command expected timeout = Some (out, c1, w1) /\
    written c1 = written c ++ [input_frame command].
Proof.
  intros Hopen.
  destruct (execute_returns c w command expected timeout) as [[[out c1] w1] Hrun].
  exists out, c1, w1. split; [exact Hrun|].
  revert Hrun Hopen. unfold execute_command_and_wait, send_command, app_send,
    socket_open, written.
  cbn [drain ws set_messages].
  destruct (ws c) as [app|]; [|discriminate]. intros Hrun Hopen.
  rewrite Hopen in Hrun. revert Hrun.
  fold (input_frame command).
  destruct (wait_loop _ _ _ _ _ _ _) as [[[r c2] w2]|] eqn:Hloop; [|discriminate].
  apply wait_loop_written in Hloop. unfold written in Hloop. cbn in Hloop.
  destruct r; intros [= <- <- <-]; exact Hloop.
Qed.

(** X10.  As long as the remote does not close, a command leaves the
    session as usable as it found it: on a session with an open socket,
    [execute_command_and_wait] returns with the receive thread as alive as
    before and the connected flag still set if it was, and a further
    [send_command] succeeds. *)
Theorem execute_leaves_session_open c w command expected timeout :
  no_close (pending w) = true -> socket_open c = true ->
  exists out c1 w1,
    execute_command_and_wait c w command expected timeout = Some (out, c1, w1) /\
    thread_alive w1 = thread_alive w /\
    (is_connected c = true -> is_connected c1 = true) /\
    forall next, fst (send_command c1 next) = Ok true.
Proof.
  intros Hnc Hopen.
  destruct (execute_returns c w command expected timeout) as [[[out c1] w1] Hrun].
  exists out, c1, w1. split; [exact Hrun|].
  assert (Hsend : forall c', socket_open c' = true ->
                    forall next, fst (send_command c' next) = Ok true).
  { intros c' Ho next. unfold send_command, app_send, socket_open in *.
    destruct (ws c') as [app|]; [|discriminate]. rewrite Ho. reflexivity. }
  revert Hrun Hopen. unfold execute_command_and_wait, send_command, app_send.
  unfold socket_open at 1. cbn [drain ws set_messages].
  destruct (ws c) as [app|] eqn:Hws; [|discriminate]. intros Hrun Hopen.
  rewrite Hopen in Hrun. revert Hrun.
  destruct (wait_loop _ _ _ _ _ _ _) as [[[r c2] w2]|] eqn:Hloop; [|discriminate].
  apply wait_loop_kept in Hloop as [[Ha Hs Hso Hf] _]; [|exact Hnc].
  assert (Hgoal : thread_alive w2 = thread_alive w /\
                  (is_connected c = true -> is_connected c2 = true) /\
                  forall next, fst (send_command c2 next) = Ok true).
  { split; [exact Ha|]. split; [exact Hf|]. apply Hsend, Hso.
    unfold socket_open. cbn. reflexivity. }
  destruct r; intros [= <- <- <-]; exact Hgoal.
Qed.

(** X11.  A command that cannot be written: on a session without a
    transport or with the socket shut, [execute_command_and_wait] raises at
    once, the not-connected exception in the first case and the
    send-failed one that names the command in the second, with nothing
    written and no time passed; the queue has been emptied all the same. *)
Theorem execute_unsent_command_still_drains c w command expected timeout :
  socket_open c = false ->
  exists e,
    execute_command_and_wait c w command expected timeout
      = Some (Raise e, drain c, w) /\
    (e = PyException "WebSocket未连接" \/
     e = PyException ("发送命令失败: " ++ command)%string) /\
    messages (drain c) = [] /\
    written (drain c) = written c.
Proof.
  intros Hclosed. unfold execute_command_and_wait, send_command, app_send.
  unfold socket_open in Hclosed. cbn [drain ws set_messages].
  destruct (ws c) as [app|] eqn:Hws.
  - rewrite Hclosed. eexists. split; [reflexivity|]. split; [right; reflexivity|].
    split; [apply drained_nil|]. unfold written. cbn. rewrite Hws. reflexivity.
  - eexists. split; [reflexivity|]. split; [left; reflexivity|].
    split; [apply drained_nil|]. unfold written. cbn. rewrite Hws. reflexivity.
Qed.

End Facts.

#[local] Existing Instance Sample.sample_runtime.

(** The client the tests create connects to the ws URL of the terminal. *)
Example connect_opens_ws_url :
  opened_url (snd (fst (connect (create "http://localhost:3006/ws")
                          (accepting 0) "sql")))
  = Some "ws://localhost:3006/ws/terminal?container_id=sql"%string.
Proof. reflexivity. Qed.

(** X5, witness: the raw frame [root] waits in the queue. *)
Lemma wait_for_output_accepts_queued_message_witness :
  messages (holding "root") = [decode "root"] /\
  accepts "root" (decode "root") = true /\
  (0 < 10)%Z /\
  wait_for_output (holding "root") (after_connect [] 0) "root" 10
  = Some (Ok true, set_messages [] (holding "root"), after_connect [] 0).
Proof.
  split; [reflexivity|]. split; [reflexivity|]. split; [lia|].
  apply (wait_for_output_accepts_queued_message (holding "root")
           (after_connect [] 0) "root" 10 (decode "root") []);
    [reflexivity|reflexivity|lia].
Defined.

(** X6, witness: one frame arrives, a status report; a wait of one second
    for [root] takes it and returns [False]. *)
Lemma wait_for_output_false_means_no_match_witness :
  messages idle = [] /\
  thread_alive (answering Sample.running_text) = true /\
  (exists c1 w1,
     wait_for_output idle (answering Sample.running_text) "root" 1
     = Some (Ok false, c1, w1)) /\
  In Sample.running_text
    (arrivals (Z.to_N (1 * Z.of_N second))
       (pending (answering Sample.running_text))) /\
  accepts "root" (decode Sample.running_text) = false.
Proof.
  assert (Hrun : wait_for_output idle (answering Sample.running_text) "root" 1
                 = Some (Ok false, idle, mkWorld 1200 true [] 0))
    by (vm_compute; reflexivity).
  assert (Hin : In Sample.running_text
                  (arrivals (Z.to_N (1 * Z.of_N second))
                     (pending (answering Sample.running_text))))
    by (left; reflexivity).
  split; [reflexivity|]. split; [reflexivity|].
  split; [eexists; eexists; exact Hrun|]. split; [exact Hin|].
  exact (wait_for_output_false_means_no_match idle
           (answering Sample.running_text) "root" 1 _ _ Sample.running_text
           eq_refl eq_refl Hrun Hin).
Defined.

(** X9, witness: [pwd] on the connected session. *)
Lemma execute_writes_the_command_once_witness :
  socket_open connected_client = true /\
  exists out c1 w1,
    execute_command_and_wait connected_client
      (answering Sample.running_text) "pwd" (Some "/"%string) 1
    = Some (out, c1, w1) /\
    written c1 = written connected_client ++ [input_frame "pwd"].
Proof.
  split; [reflexivity|].
  apply (execute_writes_the_command_once connected_client
           (answering Sample.running_text) "pwd" (Some "/"%string) 1).
  reflexivity.
Defined.

(** X10, witness: the same command; the remote sends one frame and does not
    close. *)
Lemma execute_leaves_session_open_witness :
  no_close (pending (answering Sample.running_text)) = true /\
  socket_open connected_client = true /\
  exists out c1 w1,
    execute_command_and_wait connected_client
      (answering Sample.running_text) "pwd" (Some "/"%string) 1
    = Some (out, c1, w1) /\
    thread_alive w1 = thread_alive (answering Sample.running_text) /\
    (is_connected connected_client = true -> is_connected c1 = true) /\
    forall next, fst (send_command c1 next) = Ok true.
Proof.
  split; [reflexivity|]. split; [reflexivity|].
  apply (execute_leaves_session_open connected_client
           (answering Sample.running_text) "pwd" (Some "/"%string) 1);
    reflexivity.
Defined.

(** X11, witness: the session the remote has closed, with the
    acknowledgement still in its queue. *)
Lemma execute_unsent_command_still_drains_witness :
  socket_open closed_by_remote = false /\
  exists e,
    execute_command_and_wait closed_by_remote (after_connect [] 0) "pwd"
      (Some "/"%string) 10
    = Some (Raise e, drain closed_by_remote, after_connect [] 0) /\
    (e = PyException "WebSocket未连接" \/
     e = PyException ("发送命令失败: " ++ "pwd")%string) /\
    messages (drain closed_by_remote) = [] /\
    written (drain closed_by_remote) = written closed_by_remote.
Proof.
  split; [reflexivity|].
  apply (execute_unsent_command_still_drains closed_by_remote
           (after_connect [] 0) "pwd" (Some "/"%string) 10).
  reflexivity.
Defined.

(** What that call leaves: the queue, which held the acknowledgement, is
    empty. *)
Example execute_unsent_command_drained :
  messages closed_by_remote = [JDict [("type"%string, JStr "connected")]] /\
  option_map (fun r => messages (snd (fst r)))
    (execute_command_and_wait closed_by_remote (after_connect [] 0) "pwd"
       (Some "/"%string) 10) = Some [].
Proof. split; reflexivity. Qed.

End OutputSpec.

(* ================================================================== *)
(** * Properties of the control client and of the loops around it *)
(* ================================================================== *)

Module LifecycleSpec.
Import Py Control ControlSpec Lifecycle.
Local Open Scope string_scope.

(** ** [APIClient.__init__] *)

Lemma append_nil s : s ++ "" = s.
Proof. induction s as [|ch rest IH]; [reflexivity|]. cbn. now rewrite IH. Qed.

Lemma append_assoc a b c : (a ++ b) ++ c = a ++ (b ++ c).
Proof. induction a as [|ch rest IH]; [reflexivity|]. cbn. now rewrite IH. Qed.

Lemma slashes_snoc n : slashes (S n) = slashes n ++ "/".
Proof. induction n as [|n IH]; [reflexivity|]. cbn in *. now rewrite <- IH. Qed.

Lemma rstrip_slash_snoc s : rstrip_slash (s ++ "/") = rstrip_slash s.
Proof.
  induction s as [|ch rest IH]; [reflexivity|].
  cbn [append rstrip_slash]. rewrite IH. reflexivity.
Qed.

(** X12.  [APIClient.__init__] strips every trailing slash and nothing
    else: the base URL it keeps does not end in a slash, the URL given is
    that base URL followed by slashes only, and URLs that differ only in
    the number of trailing slashes give the same client. *)
Theorem rstrip_slash_strips_trailing_slashes s :
  ends_with_slash (rstrip_slash s) = false /\
  (exists n, s = rstrip_slash s ++ slashes n) /\
  (forall n, init (s ++ slashes n) = init s).
Proof.
  split; [|split].
  - induction s as [|ch rest IH]; [reflexivity|]. cbn [rstrip_slash].
    destruct (rstrip_slash rest) as [|a kept] eqn:E.
    + destruct (Ascii.eqb ch "/") eqn:Hch; [reflexivity|]. cbn. exact Hch.
    + exact IH.
  - induction s as [|ch rest [n IH]]; [exists 0%nat; reflexivity|].
    cbn [rstrip_slash].
    destruct (rstrip_slash rest) as [|a kept] eqn:E.
    + destruct (Ascii.eqb ch "/") eqn:Hch.
      * apply Ascii.eqb_eq in Hch. subst ch. exists (S n).
        cbn in IH |- *. rewrite <- IH. reflexivity.
      * exists n. cbn in IH |- *. rewrite <- IH. reflexivity.
    + exists n. cbn [append] in IH |- *. rewrite <- IH. reflexivity.
  - intros n. unfold init. f_equal.
    induction n as [|n IH]; [now rewrite append_nil|].
    rewrite slashes_snoc, <- append_assoc, rstrip_slash_snoc. exact IH.
Qed.

Section Facts.
Context `{Runtime}.

(** ** [wait_for_container_ready] *)





(** ** Stopping a course, with retries *)

(** X14.  The clean-up of [test_course_lifecycle_basic] stops the course
    with at most three requests.  Either one of them succeeds: then it is
    the last one made, every one before it failed and was reported, and the
    success is reported last.  Or all three fail: then the three failures
    are reported, then the advice to clean up by hand, and the block ends
    with the third request, with no sleep after it.  A request that
    follows a failed one is made two seconds after that one was over. *)
Theorem stop_with_retry_tries_three_times api remote course_id t :
  let run := stop_with_retry api remote course_id t in
  (exists k,
     (k < 3)%nat /\
     (forall j, (j < k)%nat -> failed api remote course_id t j = true) /\
     failed api remote course_id t k = false /\
     fst run = (failures api remote course_id t k ++ [Stopped])%list /\
     snd run = snd (attempt api remote course_id t k))
  \/
  ((forall j, (j < 3)%nat -> failed api remote course_id t j = true) /\
   fst run = (failures api remote course_id t 3 ++ [ManualCleanup])%list /\
   snd run = snd (attempt api remote course_id t 2)).
Proof.
  cbv zeta. unfold stop_with_retry. cbn [seq stop_attempts Nat.ltb Nat.leb].
  destruct (stop_course api remote course_id t) as [[v0|e0] t0] eqn:E0.
  { left. exists 0%nat. unfold failed, failures, attempt.
    cbn [seq flat_map attempt_time app]. rewrite E0.
    repeat split; [lia|intros j Hj; lia]. }
  destruct (stop_course api remote course_id (t0 + 2 * second))
    as [[v1|e1] t1] eqn:E1.
  { left. exists 1%nat. unfold failed, failures, attempt.
    cbn [seq flat_map attempt_time app]. rewrite E0. cbn [fst snd app].
    rewrite E1. repeat split; [lia|].
    intros j Hj. assert (j = 0)%nat as -> by lia.
    cbn [attempt_time]. rewrite E0. reflexivity. }
  destruct (stop_course api remote course_id (t1 + 2 * second))
    as [[v2|e2] t2] eqn:E2.
  { left. exists 2%nat. unfold failed, failures, attempt.
    cbn [seq flat_map attempt_time app]. rewrite E0. cbn [fst snd app].
    rewrite E1. cbn [fst snd app]. rewrite E2. repeat split; [lia|].
    intros j Hj. destruct j as [|[|j]]; [| |lia]; cbn [attempt_time];
      rewrite E0; cbn [snd fst]; [reflexivity|]. rewrite E1. reflexivity. }
  right. unfold failed, failures, attempt.
  cbn [seq flat_map attempt_time app]. rewrite E0. cbn [fst snd app].
  rewrite E1. cbn [fst snd app]. rewrite E2. cbn [fst snd app].
  split; [|split; reflexivity].
  intros j Hj. destruct j as [|[|[|j]]]; [| | |lia]; cbn [attempt_time];
    rewrite E0; cbn [snd fst]; [reflexivity| |]; rewrite E1; cbn [snd fst];
    [reflexivity|]. rewrite E2. reflexivity.
Qed.

(** ** Waiting for the services *)

Lemma probe_spec server url n :
  forall t,
    (fst (probe n server url t) = true <->
     exists k, (k < n)%nat /\
               answers_200 server url (probe_time server url t k) = true) /\
    (t <= snd (probe n server url t))%N /\
    (fst (probe n server url t) = false ->
     (t + N.of_nat n * second <= snd (probe n server url t))%N) /\
    (forall limit,
       (forall u t', (fst (server u t') <= limit)%N) ->
       (snd (probe n server url t) <= t + N.of_nat n * (limit + second))%N).
Proof.
  induction n as [|n IH]; intros t.
  - cbn [probe fst snd]. split; [|split; [lia|split; [lia|intros; lia]]].
    split; [discriminate|]. intros (k & Hk & _). lia.
  - cbn [probe].
    assert (Hrec :
      answers_200 server url t = false ->
      let r := probe n server url (next_probe server url t) in
      (fst r = true <->
       exists k, (k < S n)%nat /\
                 answers_200 server url (probe_time server url t k) = true) /\
      (t <= snd r)%N /\
      (fst r = false -> (t + N.of_nat (S n) * second <= snd r)%N) /\
      (forall limit,
         (forall u t', (fst (server u t') <= limit)%N) ->
         (snd r <= t + N.of_nat (S n) * (limit + second))%N)).
    { intros Hno.
      destruct (IH (next_probe server url t)) as (Hiff & Hle & Hlow & Hup).
      cbv zeta. unfold second in *. rewrite Nat2N.inj_succ.
      split; [|split; [|split]].
      - rewrite Hiff. split.
        + intros (k & Hk & Ha). exists (S k). split; [lia|exact Ha].
        + intros ([|k] & Hk & Ha); [cbn [probe_time] in Ha; congruence|].
          exists k. split; [lia|exact Ha].
      - unfold next_probe, second in *. nia.
      - intros Hf. specialize (Hlow Hf). unfold next_probe, second in *. nia.
      - intros limit Hlim. specialize (Hup limit Hlim).
        specialize (Hlim url t). unfold next_probe, second in *. nia. }
    assert (Hhit :
      answers_200 server url t = true ->
      exists k, (k < S n)%nat /\
                answers_200 server url (probe_time server url t k) = true)
      by (intros Ha; exists 0%nat; split; [lia|exact Ha]).
    cbv zeta in Hrec.
    unfold answers_200 in Hrec at 1. unfold answers_200 in Hhit at 1.
    unfold next_probe in Hrec.
    assert (Hone : forall limit,
              (forall u t', (fst (server u t') <= limit)%N) ->
              (fst (server url t) <= limit)%N) by (intros limit Hlim; apply Hlim).
    destruct (server url t) as [latency [response|e]]; cbn [fst snd] in *.
    + destruct (status_code response =? 200)%Z eqn:Hcode.
      * cbn [fst snd]. split; [|split; [lia|split; [discriminate|]]].
        -- split; [intros _; apply Hhit; reflexivity|reflexivity].
        -- intros limit Hlim. specialize (Hone limit Hlim).
           rewrite Nat2N.inj_succ. nia.
      * apply Hrec. reflexivity.
    + apply Hrec. reflexivity.
Qed.

Lemma up_iff server url t :
  up server url t <-> fst (probe 30 server url t) = true.
Proof. unfold up. symmetry. apply probe_spec. Qed.

(** X15.  The [services_running] fixture lets the tests run exactly when
    one of the thirty probes of the backend's health URL is answered with
    status 200 and then one of the thirty probes of the frontend URL is.
    Otherwise it raises the exception that names the first URL that did not
    come up, as soon as the probes of that URL are over and not before the
    thirty seconds it slept between them.  If no request takes longer than
    [limit], the fixture is over within sixty times [limit] plus a
    second. *)
Theorem services_running_waits_for_both backend_url frontend_url server t :
  let health := backend_url ++ "/health" in
  let handover := snd (probe 30 server health t) in
  let run := services_running backend_url frontend_url server t in
  (fst run = Ok tt <-> up server health t /\ up server frontend_url handover) /\
  (~ up server health t ->
   run = (Raise (not_started health), handover) /\
   (t + 30 * second <= handover)%N) /\
  (up server health t -> ~ up server frontend_url handover ->
   fst run = Raise (not_started frontend_url) /\
   (handover + 30 * second <= snd run)%N) /\
  (t <= handover <= snd run)%N /\
  (forall limit,
     (forall url t', (fst (server url t') <= limit)%N) ->
     (snd run <= t + 60 * (limit + second))%N).
Proof.
  cbv zeta. unfold services_running. cbn [wait_for_services].
  rewrite !up_iff.
  destruct (probe_spec server (backend_url ++ "/health") 30 t)
    as (_ & Hle1 & Hlow1 & Hup1).
  destruct (probe 30 server (backend_url ++ "/health") t) as [[|] t1];
    cbn [fst snd] in *.
  - destruct (probe_spec server frontend_url 30 t1) as (_ & Hle2 & Hlow2 & Hup2).
    destruct (probe 30 server frontend_url t1) as [[|] t2]; cbn [fst snd] in *.
    + split; [tauto|]. split; [intros Hn; contradiction Hn; reflexivity|].
      split; [intros _ Hn; contradiction Hn; reflexivity|].
      split; [lia|]. intros limit Hlim.
      specialize (Hup1 limit Hlim). specialize (Hup2 limit Hlim). lia.
    + split; [split; [discriminate|intros [_ ?]; discriminate]|].
      split; [intros Hn; contradiction Hn; reflexivity|].
      split; [intros _ _; split; [reflexivity|]; specialize (Hlow2 eq_refl); lia|].
      split; [lia|]. intros limit Hlim.
      specialize (Hup1 limit Hlim). specialize (Hup2 limit Hlim). lia.
  - split; [split; [discriminate|intros [? _]; discriminate]|].
    split; [intros _; split; [reflexivity|]; specialize (Hlow1 eq_refl); lia|].
    split; [discriminate|].
    split; [lia|]. intros limit Hlim. specialize (Hup1 limit Hlim). lia.
Qed.

End Facts.

#[local] Existing Instance Sample.sample_runtime.

(** The API is back 2.5 s after the clean-up begins: two requests fail, the
    third one, issued at 4040 ms, stops the course. *)
Example stop_with_retry_third_time_lucky :
  stop_with_retry api (unreachable_until 2500) "sql" 0
  = ([AttemptFailed 0 ConnectionError; AttemptFailed 1 ConnectionError;
      Stopped], 4060%N).
Proof. vm_compute. reflexivity. Qed.

(** The API stays away: three failures, the advice, and no sleep after the
    third request. *)
Example stop_with_retry_gives_up :
  stop_with_retry api (unreachable_until 60000) "sql" 0
  = ([AttemptFailed 0 ConnectionError; AttemptFailed 1 ConnectionError;
      AttemptFailed 2 ConnectionError; ManualCleanup], 4060%N).
Proof. vm_compute. reflexivity. Qed.

(** The backend comes up after 2.5 s, the frontend never: the fixture
    raises for the frontend, thirty probes of it later. *)
Example services_running_frontend_missing :
  services_running "http://localhost:3006" "http://localhost:3000"
    (backend_only 2500) 0
  = (Raise (not_started "http://localhost:3000"), 33680%N).
Proof. vm_compute. reflexivity. Qed.

End LifecycleSpec.

(* ================================================================== *)
(** * Properties of the terminal test step *)
(* ================================================================== *)

Module ScenarioSpec.
Import Py Session SessionSpec Scenario.

Section Facts.
Context `{Runtime}.

(** With an expectation given, everything collected answered [get]. *)
Lemma wait_loop_dicts fuel :
  forall expected start timeout acc c w outs c1 w1 e,
    given expected = Some e ->
    Forall (fun m => exists d, get m "data" (JStr EmptyString) = Ok d) acc ->
    wait_loop fuel expected start timeout acc c w = Some (Ok outs, c1, w1) ->
    Forall (fun m => exists d, get m "data" (JStr EmptyString) = Ok d) outs.
Proof.
  induction fuel as [|fuel IH]; intros expected start timeout acc c w outs c1 w1 e
    Hg Hacc; [discriminate|].
  cbn [wait_loop].
  destruct (Z.of_N (now w - start) <? timeout * Z.of_N second)%Z;
    [|intros [= <- <- <-]; exact Hacc].
  destruct (get_output 1 c w) as [[m c2] w2].
  destruct (truthy m); [|eapply IH; eassumption].
  rewrite Hg.
  destruct (get m "data" (JStr EmptyString)) as [data|ex] eqn:Hdata;
    [|discriminate].
  assert (Hacc' : Forall (fun m => exists d, get m "data" (JStr EmptyString) = Ok d)
                    (acc ++ [m])).
  { apply Forall_app. split; [exact Hacc|]. constructor; [eauto|constructor]. }
  destruct (contains e (str data)).
  - intros [= <- <- <-]. exact Hacc'.
  - eapply IH; eassumption.
Qed.

Lemma any_contains_dicts e outs :
  Forall (fun m => exists d, get m "data" (JStr EmptyString) = Ok d) outs ->
  any_contains e outs = Ok (existsb (matches e) outs).
Proof.
  induction 1 as [|m outs [d Hd] _ IH]; [reflexivity|].
  cbn [any_contains existsb]. unfold matches at 1. rewrite Hd.
  destruct (contains e (str d)); [reflexivity|exact IH].
Qed.

Lemma existsb_last {A} (P : A -> bool) (l : list A) (d : A) :
  Forall (fun m => P m = false) (removelast l) ->
  existsb P l = true <-> (l <> [] /\ P (last l d) = true).
Proof.
  intros Hall. split.
  - intros Hex. apply existsb_exists in Hex as (x & Hin & Hx).
    assert (Hne : l <> []) by (intros ->; contradiction).
    split; [exact Hne|].
    rewrite <- (last_of_matching P l d x Hall Hin Hx). exact Hx.
  - intros [Hne Hl]. apply existsb_exists. exists (last l d). split; [|exact Hl].
    rewrite (app_removelast_last d Hne) at 2. apply in_or_app. right. left.
    reflexivity.
Qed.

(** X16.  One round of the command loop of the terminal test always comes
    to a verdict.  It passes exactly when the command was sent and its wait
    collected a Message, and, if a text is expected, the last Message
    collected holds that text.  An exception it ends with is the one
    [execute_command_and_wait] raised: the check of the outputs raises
    none.  With no text expected, a step that sent its command takes the
    whole ten seconds. *)
Theorem command_step_passes_on_match c w command expected_output :
  exists verdict c1 w1,
    command_step c w command expected_output = Some (verdict, c1, w1) /\
    (verdict = Passed <->
     exists r,
       execute_command_and_wait c w command (Some expected_output) 10
         = Some (Ok r, c1, w1) /\
       outputs r <> [] /\
       (expected_output <> EmptyString ->
        matches expected_output (last (outputs r) JNull) = true)) /\
    (forall e, verdict = Errored e ->
       execute_command_and_wait c w command (Some expected_output) 10
         = Some (Raise e, c1, w1)) /\
    (expected_output = EmptyString ->
     (exists e, verdict = Errored e) \/ (now w + 10 * second <= now w1)%N).
Proof.
  unfold command_step.
  destruct (execute_returns c w command (Some expected_output) 10)
    as [[[out c1] w1] Hrun].
  rewrite Hrun. destruct out as [r|e].
  2:{ exists (Errored e), c1, w1. split; [reflexivity|]. split; [|split].
      - split; [discriminate|]. intros (r & [=] & _).
      - intros e' [= <-]. reflexivity.
      - intros _. left. exists e. reflexivity. }
  pose proof (execute_unfold _ _ _ _ _ _ _ _ Hrun)
    as (c0 & _ & _ & Hloop & _ & Hsucc).
  pose proof (execute_spec _ _ _ _ _ _ _ _ Hrun) as (Hclk & Hstop & Hno & _).
  assert (Hfull : expected_output = EmptyString ->
                  (now w + 10 * second <= now w1)%N).
  { intros ->. destruct Hstop as [(e & He & _)|Hdl]; [discriminate He|].
    change (Z.of_N second) with 1000%Z in Hdl.
    change second with 1000%N. lia. }
  pose proof (success_iff_collected r Hsucc) as Hiff.
  destruct (success r) eqn:Hs.
  2:{ eexists; exists c1, w1. split; [reflexivity|]. split; [|split].
      - split; [discriminate|]. intros (r' & [= <-] & Hne & _).
        apply Hiff in Hne. congruence.
      - discriminate.
      - intros He. right. exact (Hfull He). }
  assert (Hne : outputs r <> []) by (apply Hiff; reflexivity).
  destruct expected_output as [|a s].
  - exists Passed, c1, w1. split; [reflexivity|].
    split; [|split; [discriminate|intros He; right; exact (Hfull He)]].
    split; [|reflexivity]. intros _. exists r. split; [reflexivity|].
    split; [exact Hne|]. intros Hnonempty. congruence.
  - set (expected_output := String a s) in *.
    assert (Hg : given (Some expected_output) = Some expected_output)
      by reflexivity.
    rewrite any_contains_dicts
      by (eapply wait_loop_dicts; [exact Hg|constructor|exact Hloop]).
    pose proof (existsb_last (matches expected_output) (outputs r) JNull
                  (Hno _ Hg)) as Hlast.
    destruct (existsb (matches expected_output) (outputs r)) eqn:Hany.
    + exists Passed, c1, w1. split; [reflexivity|].
      split; [|split; [discriminate|discriminate]].
      split; [|reflexivity]. intros _. exists r. split; [reflexivity|].
      split; [exact Hne|]. intros _. apply Hlast. reflexivity.
    + eexists; exists c1, w1. split; [reflexivity|].
      split; [|split; [discriminate|discriminate]].
      split; [discriminate|]. intros (r' & [= <-] & _ & Hm).
      assert (false = true)
        by (apply Hlast; split; [exact Hne|apply Hm; discriminate]).
      discriminate.
Qed.

End Facts.
End ScenarioSpec.

(* ================================================================== *)
(** * Order and end of the fan-out *)
(* ================================================================== *)

Module FanOutOrder.
Import Py FanOut FanOutSpec.
Section Facts.
Context `{Runtime}.
Variable n : nat.
Variable operation : nat -> result json.

(** Every step is one loop iteration of the main thread or one outcome put
    in the queue. *)
Lemma fire_counts l st st1 :
  fire n operation l st = Some st1 ->
  pc st1 + List.length (results st1) = S (pc st + List.length (results st)).
Proof.
  destruct l as [i|i|i]; cbn [fire].
  - destruct (_ && _); [|discriminate]. intros [= <-]. reflexivity.
  - destruct (is_running _); [|discriminate]. intros [= <-].
    cbn [pc results]. rewrite length_app. cbn [List.length]. lia.
  - destruct (_ && _); [|discriminate]. intros [= <-]. reflexivity.
Qed.

Lemma run_counts schedule :
  forall st st1,
    run n operation schedule st = Some st1 ->
    pc st1 + List.length (results st1)
    = List.length schedule + (pc st + List.length (results st)).
Proof.
  induction schedule as [|l tr IH]; intros st st1; cbn [run].
  - intros [= <-]. reflexivity.
  - destruct (fire n operation l st) as [st0|] eqn:Hfire; [|discriminate].
    intros Hrun. apply IH in Hrun. apply fire_counts in Hfire.
    cbn [List.length]. lia.
Qed.

Lemma results_bounded tr st :
  inv n operation tr st -> List.length (results st) <= n.
Proof.
  intros Hinv. rewrite (Permutation_length (inv_results _ _ _ _ Hinv)).
  rewrite length_map.
  etransitivity; [apply filter_length_le|]. rewrite length_seq. reflexivity.
Qed.

Lemma inv_terminal tr st :
  inv n operation tr st -> pc st = 2 * n ->
  forall l, fire n operation l st = None.
Proof.
  intros Hinv Hdone [i|i|i]; cbn [fire].
  - assert (Hlt : Nat.ltb (pc st) n = false) by (apply Nat.ltb_ge; lia).
    rewrite Hlt, andb_false_r. reflexivity.
  - destruct (Nat.lt_ge_cases i n) as [Hi|Hi].
    + rewrite (inv_joined _ _ _ _ Hinv i) by lia. reflexivity.
    + destruct (threads st i) eqn:Hth; try reflexivity.
      assert (Hs : threads st i <> NotStarted) by congruence.
      apply (inv_started _ _ _ _ Hinv) in Hs. lia.
  - assert (Hlt : Nat.ltb (pc st) (2 * n) = false) by (apply Nat.ltb_ge; lia).
    rewrite Hlt, andb_false_r. reflexivity.
Qed.

(** X17.  In every interleaving of the fan-out: a thread makes its call
    only after it was started, and a [join] returns only after its thread
    has put its outcome in the queue; the queue never holds more than [n]
    outcomes; every step is one iteration of the main thread or one outcome
    put.  Once the main thread is past its joins, exactly [3 * n] steps
    were made, the queue holds exactly [n] outcomes, and no step is enabled
    any more: the queue the main thread goes on to read is final. *)
Theorem fan_out_joins_after_put_and_then_stops schedule st :
  run n operation schedule initial = Some st ->
  (forall pre i post,
     schedule = pre ++ Run i :: post -> i < n /\ In (Start i) pre) /\
  (forall pre i post,
     schedule = pre ++ Join i :: post -> i < n /\ In (Run i) pre) /\
  List.length schedule = pc st + List.length (results st) /\
  List.length (results st) <= n /\
  (pc st = 2 * n ->
   List.length schedule = 3 * n /\
   List.length (results st) = n /\
   forall l, fire n operation l st = None).
Proof.
  intros Hrun. pose proof (run_inv _ _ _ _ Hrun) as Hinv.
  pose proof (run_counts _ _ _ Hrun) as Hcount. cbn in Hcount.
  pose proof (results_bounded _ _ Hinv) as Hbound.
  split; [|split; [|split; [|split; [|]]]].
  - intros pre i post ->. rewrite run_app in Hrun.
    destruct (run n operation pre initial) as [st0|] eqn:Hpre; [|discriminate].
    apply run_inv in Hpre. cbn [run fire] in Hrun.
    destruct (threads st0 i) eqn:Hth; cbn [is_running] in Hrun;
      try discriminate.
    assert (Hs : threads st0 i <> NotStarted) by congruence.
    pose proof (proj1 (inv_started _ _ _ _ Hpre i) Hs) as Hi.
    split; [lia|]. apply (inv_start _ _ _ _ Hpre). exact Hi.
  - intros pre i post ->. rewrite run_app in Hrun.
    destruct (run n operation pre initial) as [st0|] eqn:Hpre; [|discriminate].
    apply run_inv in Hpre. cbn [run fire] in Hrun.
    destruct (threads st0 i) eqn:Hth; cbn [is_finished] in Hrun;
      rewrite ?andb_false_r in Hrun; try discriminate.
    split; [|apply (inv_run _ _ _ _ Hpre); exact Hth].
    assert (Hs : threads st0 i <> NotStarted) by congruence.
    pose proof (proj1 (inv_started _ _ _ _ Hpre i) Hs) as Hi. lia.
  - lia.
  - exact Hbound.
  - intros Hdone.
    assert (Hall : List.length (results st) = n).
    { rewrite (Permutation_length (inv_results _ _ _ _ Hinv)), length_map.
      rewrite filter_all; [apply length_seq|].
      intros j Hj%in_seq. rewrite (inv_joined _ _ _ _ Hinv j) by lia.
      reflexivity. }
    split; [lia|]. split; [exact Hall|].
    apply (inv_terminal _ _ Hinv Hdone).
Qed.

End Facts.

#[local] Existing Instance Sample.sample_runtime.

(** X17, witness: two threads, the first one's call raising, the second
    finishing before the first. *)
Lemma fan_out_joins_after_put_and_then_stops_witness :
  exists st,
    run 2 first_fails interleaved initial = Some st /\
    ((forall pre i post,
        interleaved = pre ++ Run i :: post -> i < 2 /\ In (Start i) pre) /\
     (forall pre i post,
        interleaved = pre ++ Join i :: post -> i < 2 /\ In (Run i) pre) /\
     List.length interleaved = pc st + List.length (results st) /\
     List.length (results st) <= 2 /\
     (pc st = 2 * 2 ->
      List.length interleaved = 3 * 2 /\
      List.length (results st) = 2 /\
      forall l, fire 2 first_fails l st = None)).
Proof.
  eexists. split; [cbv; reflexivity|].
  apply (fan_out_joins_after_put_and_then_stops 2 first_fails interleaved).
  reflexivity.
Defined.

End FanOutOrder.
